(** * Yocto/Trace: a shallow embedding of the path tracer

    The development follows [yocto_trace.cpp]: the BSDF dispatchers, light
    sampling and its pdf, the family of integrators, the sampler dispatch,
    and the render state with its synchronous and asynchronous drivers.

    C++ [float] is IEEE-754 binary32, modelled with the Standard Library's
    [spec_float] at precision 24 and maximal exponent 128 (NaN payloads
    are not tracked).  C++ [int] is modelled by [Z]; signed overflow is
    undefined behaviour in C++ and no loop counter of this file reaches it.
    Headers that are not part of the sources at hand (math, shading,
    sampling, scene) enter as records of functions. *)

From Stdlib Require Import ZArith Bool Lia String.
From Stdlib Require Import Floats.SpecFloat.
From stdpp Require Import base list.

Local Open Scope Z_scope.

(** ** Single-precision arithmetic *)

Definition float : Type := spec_float.

Definition prec : Z := 24.
Definition emax : Z := 128.

Definition fadd : float -> float -> float := SFadd prec emax.
Definition fsub : float -> float -> float := SFsub prec emax.
Definition fmul : float -> float -> float := SFmul prec emax.
Definition fdiv : float -> float -> float := SFdiv prec emax.
Definition fneg : float -> float := SFopp.
Definition fabs : float -> float := SFabs.

(** The C++ comparison operators; every one of them is false on a NaN,
    except [!=], which is the negation of [==]. *)
Definition flt (a b : float) : bool := SFltb a b.
Definition fgt (a b : float) : bool := SFltb b a.
Definition fle (a b : float) : bool := SFleb a b.
Definition fge (a b : float) : bool := SFleb b a.
Definition feq (a b : float) : bool := SFeqb a b.
Definition fne (a b : float) : bool := negb (SFeqb a b).

(** [(float)n] for an [int] n. *)
Definition float_of_int (n : Z) : float := binary_normalize prec emax n 0 false.

(** [std::isfinite]. *)
Definition fisfinite (x : float) : bool :=
  match x with
  | S754_zero _ | S754_finite _ _ _ => true
  | S754_infinity _ | S754_nan => false
  end.

Definition f0 : float := S754_zero false.
Definition f1 : float := float_of_int 1.
Definition f2 : float := float_of_int 2.
Definition f4 : float := float_of_int 4.

(** Decimal literals: the quotient of two exactly representable integers
    is rounded once, to the nearest binary32 value, which is the value of
    the literal. *)
Definition f_half : float := fdiv f1 f2.                                  (* 0.5f *)
Definition f_099 : float := fdiv (float_of_int 99) (float_of_int 100).    (* (float)0.99 *)
Definition f_1em2 : float := fdiv f1 (float_of_int 100).                  (* 1e-2f *)
Definition f_1em3 : float := fdiv f1 (float_of_int 1000).                 (* 1e-3f *)
Definition f_02 : float := fdiv f2 (float_of_int 10).                     (* 0.2f *)
Definition f_22 : float := fdiv (float_of_int 22) (float_of_int 10).      (* 2.2f *)

(** [pif]: the binary32 value nearest to pi, 0x40490FDB. *)
Definition pif : float := S754_finite false 13176795 (-22).

(** Modelled from the spec: [yocto_math.h] is not among the sources; the
    scalar [min] and [max] it declares are the comparison-and-select
    helpers used across the library. *)
Definition fmin (a b : float) : float := if flt a b then a else b.
Definition fmax (a b : float) : float := if fgt a b then a else b.

Declare Scope float_scope.
Delimit Scope float_scope with f.
Bind Scope float_scope with float.
Infix "+" := fadd : float_scope.
Infix "-" := fsub : float_scope.
Infix "*" := fmul : float_scope.
Infix "/" := fdiv : float_scope.
Notation "- x" := (fneg x) : float_scope.
Infix "<?" := flt : float_scope.
Infix ">?" := fgt : float_scope.
Infix "<=?" := fle : float_scope.
Infix ">=?" := fge : float_scope.
Infix "==?" := feq (at level 70, no associativity) : float_scope.
Infix "!=?" := fne (at level 70, no associativity) : float_scope.

(** ** Small vectors

    Modelled from the spec: the vector types of [yocto_math.h] are not
    among the sources.  They are plain structs of floats (or ints) and
    their operators act component by component; [==] holds when every
    component compares equal, [isfinite] when every component is finite,
    and [max] of a vector is its largest component. *)

Record vec2f : Type := mk_vec2f { x2 : float; y2 : float }.
Record vec2i : Type := mk_vec2i { xi : Z; yi : Z }.
Record vec3f : Type := mk_vec3f { vx : float; vy : float; vz : float }.
Record vec4f : Type := mk_vec4f { wx : float; wy : float; wz : float; ww : float }.

Definition zero3 : vec3f := mk_vec3f f0 f0 f0.
Definition one3 : vec3f := mk_vec3f f1 f1 f1.
Definition zero4 : vec4f := mk_vec4f f0 f0 f0 f0.
Definition zero2 : vec2f := mk_vec2f f0 f0.

Definition v3map2 (op : float -> float -> float) (a b : vec3f) : vec3f :=
  mk_vec3f (op (vx a) (vx b)) (op (vy a) (vy b)) (op (vz a) (vz b)).

Definition v3add : vec3f -> vec3f -> vec3f := v3map2 fadd.
Definition v3sub : vec3f -> vec3f -> vec3f := v3map2 fsub.
Definition v3mul : vec3f -> vec3f -> vec3f := v3map2 fmul.
Definition v3div : vec3f -> vec3f -> vec3f := v3map2 fdiv.
Definition v3neg (a : vec3f) : vec3f := mk_vec3f (fneg (vx a)) (fneg (vy a)) (fneg (vz a)).
Definition v3scale (a : vec3f) (s : float) : vec3f :=
  mk_vec3f (vx a * s)%f (vy a * s)%f (vz a * s)%f.
Definition v3divs (a : vec3f) (s : float) : vec3f :=
  mk_vec3f (vx a / s)%f (vy a / s)%f (vz a / s)%f.
Definition v3adds (a : vec3f) (s : float) : vec3f :=
  mk_vec3f (vx a + s)%f (vy a + s)%f (vz a + s)%f.
Definition v3eq (a b : vec3f) : bool :=
  (vx a ==? vx b)%f && (vy a ==? vy b)%f && (vz a ==? vz b)%f.
Definition v3ne (a b : vec3f) : bool := negb (v3eq a b).
Definition v3isfinite (a : vec3f) : bool :=
  fisfinite (vx a) && fisfinite (vy a) && fisfinite (vz a).
Definition v3max (a : vec3f) : float := fmax (fmax (vx a) (vy a)) (vz a).
Definition dot (a b : vec3f) : float :=
  (vx a * vx b + vy a * vy b + vz a * vz b)%f.

Definition v4map2 (op : float -> float -> float) (a b : vec4f) : vec4f :=
  mk_vec4f (op (wx a) (wx b)) (op (wy a) (wy b)) (op (wz a) (wz b)) (op (ww a) (ww b)).
Definition v4scale (a : vec4f) (s : float) : vec4f :=
  mk_vec4f (wx a * s)%f (wy a * s)%f (wz a * s)%f (ww a * s)%f.

(** [lerp(a, b, u) = a * (1 - u) + b * u]. *)
Definition lerp3 (a b : vec3f) (u : float) : vec3f :=
  v3add (v3scale a (f1 - u)%f) (v3scale b u).
Definition lerp4 (a b : vec4f) (u : float) : vec4f :=
  v4map2 fadd (v4scale a (f1 - u)%f) (v4scale b u).

Declare Scope vec_scope.
Delimit Scope vec_scope with v.
Bind Scope vec_scope with vec3f.
Infix "+" := v3add : vec_scope.
Infix "-" := v3sub : vec_scope.
Infix "*" := v3mul : vec_scope.
Infix "/" := v3div : vec_scope.
Notation "- x" := (v3neg x) : vec_scope.
Infix "^*" := v3scale (at level 40, left associativity) : vec_scope.
Infix "^/" := v3divs (at level 40, left associativity) : vec_scope.
Infix "^+" := v3adds (at level 50, left associativity) : vec_scope.
Infix "==?" := v3eq (at level 70, no associativity) : vec_scope.
Infix "!=?" := v3ne (at level 70, no associativity) : vec_scope.

(** Rays as the tracer builds and reads them: an origin and a direction
    (the remaining members keep their defaults in every ray built here). *)
Record ray3f : Type := mk_ray { ray_o : vec3f; ray_d : vec3f }.

(** [invalidid], the sentinel for an absent index. *)
Definition invalidid : Z := -1.

(** ** Exceptions *)

Inductive exn : Type :=
| runtime_error (msg : string)
| invalid_argument (msg : string).

Inductive result (A : Type) : Type :=
| Ok (a : A)
| Throw (e : exn).
Arguments Ok {A} a.
Arguments Throw {A} e.

(** ** Enumerations

    A C++ [enum struct] can hold a value that names no enumerator (by a
    cast, or from a newer header); such values are the [unrecognized]
    constructor, so that the [default:] branches of the code are
    reachable in the model. *)

Module material_type.
Inductive t : Type :=
| matte | glossy | reflective | transparent | refractive
| subsurface | volumetric | gltfpbr
| unrecognized (v : Z).

(** [==] on the enumeration. *)
Definition eqb (a b : t) : bool :=
  match a, b with
  | matte, matte | glossy, glossy | reflective, reflective
  | transparent, transparent | refractive, refractive
  | subsurface, subsurface | volumetric, volumetric
  | gltfpbr, gltfpbr => true
  | unrecognized v, unrecognized w => Z.eqb v w
  | _, _ => false
  end.
End material_type.

Module trace_sampler_type.
Inductive t : Type :=
| path | pathdirect | pathmis | pathtest | lightsampling
| naive | eyelight | furnace | falsecolor
| unrecognized (v : Z).
End trace_sampler_type.

Module trace_falsecolor_type.
Inductive t : Type :=
| position | normal | frontfacing | gnormal | gfrontfacing
| texcoord | mtype | color | emission | roughness | opacity | metallic
| delta | instance | shape | material | element | highlight
| unrecognized (v : Z).
End trace_falsecolor_type.

(** ** Materials, intersections, parameters *)

Record material_point : Type := mk_material_point {
  type : material_type.t;
  emission : vec3f;
  color : vec3f;
  opacity : float;
  roughness : float;
  metallic : float;
  ior : float;
  density : vec3f;
  scattering : vec3f;
  scanisotropy : float
}.

Definition set_roughness (m : material_point) (r : float) : material_point :=
  mk_material_point (type m) (emission m) (color m) (opacity m) r
    (metallic m) (ior m) (density m) (scattering m) (scanisotropy m).
Definition set_type (m : material_point) (ty : material_type.t) : material_point :=
  mk_material_point ty (emission m) (color m) (opacity m) (roughness m)
    (metallic m) (ior m) (density m) (scattering m) (scanisotropy m).
Definition set_emission (m : material_point) (e : vec3f) : material_point :=
  mk_material_point (type m) e (color m) (opacity m) (roughness m)
    (metallic m) (ior m) (density m) (scattering m) (scanisotropy m).

Record scene_intersection : Type := mk_intersection {
  isec_instance : Z;
  isec_element : Z;
  isec_uv : vec2f;
  isec_distance : float;
  isec_hit : bool
}.

(** [scene_intersection{}]. *)
Definition no_intersection : scene_intersection :=
  mk_intersection invalidid invalidid zero2 f0 false.

Definition set_distance (i : scene_intersection) (dist : float) : scene_intersection :=
  mk_intersection (isec_instance i) (isec_element i) (isec_uv i) dist (isec_hit i).

Record trace_params : Type := mk_trace_params {
  camera : Z;
  resolution : Z;
  sampler : trace_sampler_type.t;
  falsecolor : trace_falsecolor_type.t;
  samples : Z;
  bounces : Z;
  clamp : float;
  nocaustics : bool;
  envhidden : bool;
  tentfilter : bool;
  seed : Z;
  embreebvh : bool;
  highqualitybvh : bool;
  noparallel : bool;
  pratio : Z;
  denoise : bool;
  batch : Z
}.

Record trace_result : Type := mk_trace_result {
  radiance : vec3f;
  hit : bool;
  albedo : vec3f;
  normal : vec3f
}.

(** [trace_result{}]. *)
Definition empty_result : trace_result := mk_trace_result zero3 false zero3 zero3.

(** [(int)x] for a float: truncation toward zero (undefined in C++ for a
    NaN, an infinity or a value outside [int]; the model answers 0 on the
    first two). *)
Definition int_of_float (x : float) : Z :=
  match x with
  | S754_finite s m e =>
      let v := match e with
               | Zneg k => Z.shiftr (Zpos m) (Zpos k)
               | _ => Z.shiftl (Zpos m) e
               end in
      if s then - v else v
  | _ => 0
  end.

Definition fsqrt : float -> float := SFsqrt prec emax.

(** Scalar [clamp(a, lo, hi) = min(max(a, lo), hi)] and [distance_squared],
    with the vector helpers above. *)
Definition clampf (a lo hi : float) : float := fmin (fmax a lo) hi.
Definition clampi (a lo hi : Z) : Z := Z.min (Z.max a lo) hi.
Definition distance_squared (a b : vec3f) : float := dot (a - b)%v (a - b)%v.
Definition max2i (a b : vec2i) : vec2i := mk_vec2i (Z.max (xi a) (xi b)) (Z.max (yi a) (yi b)).

(** ** Lights and the acceleration structure *)

Record trace_light : Type := mk_trace_light {
  light_instance : Z;
  light_environment : Z;
  elements_cdf : list float
}.

(** A default-constructed [trace_light]. *)
Definition no_light : trace_light := mk_trace_light invalidid invalidid [].

Record trace_lights : Type := mk_trace_lights { lights : list trace_light }.

(** [v[i]] on a [std::vector]: out of range the C++ behaviour is
    undefined; the model answers the default-constructed element. *)
Definition vector_at {A : Type} (dflt : A) (v : list A) (i : Z) : A :=
  if i <? 0 then dflt else default dflt (v !! Z.to_nat i).

(** [v.back()], with 0 on an empty vector (undefined in C++). *)
Definition back (v : list float) : float := List.last v f0.

(** ** Images

    Modelled from the spec: the [image<T>] container of the render buffers
    is not among the sources.  It is a two-dimensional array: its size,
    and its pixels row after row; [image<T>{size}] holds [size.x * size.y]
    value-initialised pixels. *)

Record image (T : Type) : Type := mk_image { extents : vec2i; pixels : list T }.
Arguments mk_image {T} _ _.
Arguments extents {T} _.
Arguments pixels {T} _.

Definition make_image {T : Type} (size : vec2i) (v : T) : image T :=
  mk_image size (replicate (Z.to_nat (xi size * yi size)) v).

Definition empty_image {T : Type} : image T := mk_image (mk_vec2i 0 0) [].

Definition image_empty {T : Type} (img : image T) : bool :=
  match pixels img with [] => true | _ => false end.

Definition pixel_index {T : Type} (img : image T) (ij : vec2i) : Z :=
  yi ij * xi (extents img) + xi ij.

(** [img[ij]], read and written. *)
Definition image_at {T : Type} (dflt : T) (img : image T) (ij : vec2i) : T :=
  vector_at dflt (pixels img) (pixel_index img ij).

Definition image_set {T : Type} (img : image T) (ij : vec2i) (v : T) : image T :=
  if pixel_index img ij <? 0 then img
  else mk_image (extents img) (<[Z.to_nat (pixel_index img ij) := v]> (pixels img)).

Definition vec2i_eqb (a b : vec2i) : bool := (xi a =? xi b) && (yi a =? yi b).

(** The order in which a compiler evaluates the arguments of one call;
    C++ leaves it unspecified, and each build fixes it. *)
Inductive arg_order : Type := left_to_right | right_to_left.

(** ** The library around the tracer

    Everything [yocto_trace.cpp] calls from headers that are not among the
    sources: the scene and its accessors, the two BVH back ends, the
    shading and sampling routines, the random number generator, and the
    elementary functions of the C library.  Overloads that differ in
    their arity carry a suffix. *)
Class Library : Type := {
  (* the platform and the build *)
  args_order : arg_order;
  hardware_concurrency : Z;
  oidn_denoise : option (image vec4f -> image vec3f -> image vec3f -> image vec4f);
  cosf : float -> float;
  sinf : float -> float;
  acosf : float -> float;
  atan2f : float -> float -> float;
  fmodf : float -> float -> float;
  roundf : float -> float;
  pow3 : vec3f -> float -> vec3f;
  std_hash : Z -> Z;
  (* yocto_math.h, yocto_geometry.h *)
  frame3f : Type;
  normalize : vec3f -> vec3f;
  transform_direction : frame3f -> vec3f -> vec3f;
  inverse : frame3f -> frame3f;
  (* yocto_sampling.h *)
  rng_state : Type;
  default_rng : rng_state;
  make_rng : Z -> Z -> rng_state;
  make_rng_default : Z -> rng_state;
  rand1f : rng_state -> float * rng_state;
  rand2f : rng_state -> vec2f * rng_state;
  rand3f : rng_state -> vec3f * rng_state;
  rand1i : rng_state -> Z -> Z * rng_state;
  sample_uniform : Z -> float -> Z;
  sample_uniform_pdf : Z -> float;
  sample_discrete : list float -> float -> Z;
  sample_discrete_pdf : list float -> Z -> float;
  sample_triangle : vec2f -> vec2f;
  sample_sphere : vec2f -> vec3f;
  sample_disk : vec2f -> vec2f;
  (* yocto_color.h *)
  srgb_to_rgb : vec3f -> vec3f;
  (* yocto_scene.h *)
  scene_data : Type;
  instance_data : Type;
  shape_data : Type;
  environment_data : Type;
  texture_data : Type;
  camera_data : Type;
  scene_cameras_at : scene_data -> Z -> camera_data;
  scene_instances_at : scene_data -> Z -> instance_data;
  scene_shapes_at : scene_data -> Z -> shape_data;
  scene_textures_at : scene_data -> Z -> texture_data;
  scene_environments_at : scene_data -> Z -> environment_data;
  scene_environments_empty : scene_data -> bool;
  camera_aspect : camera_data -> float;
  instance_shape : instance_data -> Z;
  instance_material : instance_data -> Z;
  shape_triangles_empty : shape_data -> bool;
  environment_frame : environment_data -> frame3f;
  environment_emission_tex : environment_data -> Z;
  texture_pixelsf_size : texture_data -> vec2i;
  texture_pixelsb_size : texture_data -> vec2i;
  material_type_to_int : material_type.t -> Z;
  eval_camera : camera_data -> vec2f -> vec2f -> ray3f;
  eval_position : scene_data -> instance_data -> Z -> vec2f -> vec3f;
  eval_element_normal : scene_data -> scene_intersection -> vec3f;
  eval_element_normal_at : scene_data -> instance_data -> Z -> vec3f;
  eval_shading_position : scene_data -> scene_intersection -> vec3f -> vec3f;
  eval_shading_normal : scene_data -> scene_intersection -> vec3f -> vec3f;
  eval_shading_normal_at : scene_data -> instance_data -> Z -> vec2f -> vec3f -> vec3f;
  eval_texcoord : scene_data -> scene_intersection -> vec2f;
  eval_material : scene_data -> scene_intersection -> material_point;
  eval_material_at : scene_data -> instance_data -> Z -> vec2f -> material_point;
  eval_environment : scene_data -> vec3f -> vec3f;
  is_delta : material_point -> bool;
  is_volumetric : scene_data -> scene_intersection -> bool;
  (* yocto_bvh.h *)
  scene_bvh : Type;
  scene_ebvh : Type;
  ebvh_present : scene_ebvh -> bool;
  intersect_scene_bvh : scene_bvh -> scene_data -> ray3f -> bool -> scene_intersection;
  intersect_scene_ebvh : scene_ebvh -> scene_data -> ray3f -> bool -> scene_intersection;
  intersect_instance_bvh : scene_bvh -> scene_data -> Z -> ray3f -> bool -> scene_intersection;
  intersect_instance_ebvh : scene_ebvh -> scene_data -> Z -> ray3f -> bool -> scene_intersection;
  (* yocto_shading.h: color, [ior,] [roughness,] [metallic,] normal, outgoing, ... *)
  eval_matte : vec3f -> vec3f -> vec3f -> vec3f -> vec3f;
  eval_glossy : vec3f -> float -> float -> vec3f -> vec3f -> vec3f -> vec3f;
  eval_reflective : vec3f -> float -> vec3f -> vec3f -> vec3f -> vec3f;
  eval_reflective_delta : vec3f -> vec3f -> vec3f -> vec3f -> vec3f;
  eval_transparent : vec3f -> float -> float -> vec3f -> vec3f -> vec3f -> vec3f;
  eval_transparent_delta : vec3f -> float -> vec3f -> vec3f -> vec3f -> vec3f;
  eval_refractive : vec3f -> float -> float -> vec3f -> vec3f -> vec3f -> vec3f;
  eval_refractive_delta : vec3f -> float -> vec3f -> vec3f -> vec3f -> vec3f;
  eval_gltfpbr : vec3f -> float -> float -> float -> vec3f -> vec3f -> vec3f -> vec3f;
  eval_passthrough : vec3f -> vec3f -> vec3f -> vec3f -> vec3f;
  sample_matte : vec3f -> vec3f -> vec3f -> vec2f -> vec3f;
  sample_glossy : vec3f -> float -> float -> vec3f -> vec3f -> float -> vec2f -> vec3f;
  sample_reflective : vec3f -> float -> vec3f -> vec3f -> vec2f -> vec3f;
  sample_reflective_delta : vec3f -> vec3f -> vec3f -> vec3f;
  sample_transparent : vec3f -> float -> float -> vec3f -> vec3f -> float -> vec2f -> vec3f;
  sample_transparent_delta : vec3f -> float -> vec3f -> vec3f -> float -> vec3f;
  sample_refractive : vec3f -> float -> float -> vec3f -> vec3f -> float -> vec2f -> vec3f;
  sample_refractive_delta : vec3f -> float -> vec3f -> vec3f -> float -> vec3f;
  sample_gltfpbr : vec3f -> float -> float -> float -> vec3f -> vec3f -> float -> vec2f -> vec3f;
  sample_passthrough : vec3f -> vec3f -> vec3f -> vec3f;
  sample_matte_pdf : vec3f -> vec3f -> vec3f -> vec3f -> float;
  sample_glossy_pdf : vec3f -> float -> float -> vec3f -> vec3f -> vec3f -> float;
  sample_reflective_pdf : vec3f -> float -> vec3f -> vec3f -> vec3f -> float;
  sample_reflective_delta_pdf : vec3f -> vec3f -> vec3f -> vec3f -> float;
  sample_tranparent_pdf : vec3f -> float -> float -> vec3f -> vec3f -> vec3f -> float;
  sample_tranparent_delta_pdf : vec3f -> float -> vec3f -> vec3f -> vec3f -> float;
  sample_refractive_pdf : vec3f -> float -> float -> vec3f -> vec3f -> vec3f -> float;
  sample_refractive_delta_pdf : vec3f -> float -> vec3f -> vec3f -> vec3f -> float;
  sample_gltfpbr_pdf : vec3f -> float -> float -> float -> vec3f -> vec3f -> vec3f -> float;
  sample_passthrough_pdf : vec3f -> vec3f -> vec3f -> vec3f -> float;
  eval_phasefunction : float -> vec3f -> vec3f -> float;
  sample_phasefunction : float -> vec3f -> vec2f -> vec3f;
  sample_phasefunction_pdf : float -> vec3f -> vec3f -> float;
  eval_transmittance : vec3f -> float -> vec3f;
  sample_transmittance : vec3f -> float -> float -> float -> float;
  sample_transmittance_pdf : vec3f -> float -> float -> float;
  (* yocto_trace.h *)
  trace_default_seed : Z
}.

Record trace_bvh `{Library} : Type := mk_trace_bvh {
  bvh : scene_bvh;
  ebvh : scene_ebvh
}.

Section Tracer.
Context `{L : Library}.

(** ** Ray-intersection shortcuts *)

Definition intersect_scene (b : trace_bvh) (scene : scene_data) (ray : ray3f)
    (find_any : bool) : scene_intersection :=
  if ebvh_present (ebvh b)
  then intersect_scene_ebvh (ebvh b) scene ray find_any
  else intersect_scene_bvh (bvh b) scene ray find_any.

Definition intersect_instance (b : trace_bvh) (scene : scene_data) (instance : Z)
    (ray : ray3f) (find_any : bool) : scene_intersection :=
  if ebvh_present (ebvh b)
  then intersect_instance_ebvh (ebvh b) scene instance ray find_any
  else intersect_instance_bvh (bvh b) scene instance ray find_any.

(** ** BSDF evaluation and sampling *)

Definition eval_emission (material : material_point) (normal outgoing : vec3f) : vec3f :=
  if (dot normal outgoing >=? f0)%f then emission material else zero3.

Definition eval_bsdfcos (material : material_point) (normal outgoing incoming : vec3f) : vec3f :=
  if (roughness material ==? f0)%f then zero3 else
  match type material with
  | material_type.matte =>
      eval_matte (color material) normal outgoing incoming
  | material_type.glossy =>
      eval_glossy (color material) (ior material) (roughness material) normal outgoing incoming
  | material_type.reflective =>
      eval_reflective (color material) (roughness material) normal outgoing incoming
  | material_type.transparent =>
      eval_transparent (color material) (ior material) (roughness material) normal outgoing incoming
  | material_type.refractive =>
      eval_refractive (color material) (ior material) (roughness material) normal outgoing incoming
  | material_type.subsurface =>
      eval_refractive (color material) (ior material) (roughness material) normal outgoing incoming
  | material_type.gltfpbr =>
      eval_gltfpbr (color material) (ior material) (roughness material) (metallic material)
        normal outgoing incoming
  | _ => zero3
  end.

Definition eval_delta (material : material_point) (normal outgoing incoming : vec3f) : vec3f :=
  if (roughness material !=? f0)%f then zero3 else
  match type material with
  | material_type.reflective =>
      eval_reflective_delta (color material) normal outgoing incoming
  | material_type.transparent =>
      eval_transparent_delta (color material) (ior material) normal outgoing incoming
  | material_type.refractive =>
      eval_refractive_delta (color material) (ior material) normal outgoing incoming
  | material_type.volumetric =>
      eval_passthrough (color material) normal outgoing incoming
  | _ => zero3
  end.

Definition sample_bsdfcos (material : material_point) (normal outgoing : vec3f)
    (rnl : float) (rn : vec2f) : vec3f :=
  if (roughness material ==? f0)%f then zero3 else
  match type material with
  | material_type.matte =>
      sample_matte (color material) normal outgoing rn
  | material_type.glossy =>
      sample_glossy (color material) (ior material) (roughness material) normal outgoing rnl rn
  | material_type.reflective =>
      sample_reflective (color material) (roughness material) normal outgoing rn
  | material_type.transparent =>
      sample_transparent (color material) (ior material) (roughness material) normal outgoing rnl rn
  | material_type.refractive =>
      sample_refractive (color material) (ior material) (roughness material) normal outgoing rnl rn
  | material_type.subsurface =>
      sample_refractive (color material) (ior material) (roughness material) normal outgoing rnl rn
  | material_type.gltfpbr =>
      sample_gltfpbr (color material) (ior material) (roughness material) (metallic material)
        normal outgoing rnl rn
  | _ => zero3
  end.

Definition sample_delta (material : material_point) (normal outgoing : vec3f)
    (rnl : float) : vec3f :=
  if (roughness material !=? f0)%f then zero3 else
  match type material with
  | material_type.reflective =>
      sample_reflective_delta (color material) normal outgoing
  | material_type.transparent =>
      sample_transparent_delta (color material) (ior material) normal outgoing rnl
  | material_type.refractive =>
      sample_refractive_delta (color material) (ior material) normal outgoing rnl
  | material_type.volumetric =>
      sample_passthrough (color material) normal outgoing
  | _ => zero3
  end.

Definition sample_bsdfcos_pdf (material : material_point)
    (normal outgoing incoming : vec3f) : float :=
  if (roughness material ==? f0)%f then f0 else
  match type material with
  | material_type.matte =>
      sample_matte_pdf (color material) normal outgoing incoming
  | material_type.glossy =>
      sample_glossy_pdf (color material) (ior material) (roughness material) normal outgoing incoming
  | material_type.reflective =>
      sample_reflective_pdf (color material) (roughness material) normal outgoing incoming
  | material_type.transparent =>
      sample_tranparent_pdf (color material) (ior material) (roughness material)
        normal outgoing incoming
  | material_type.refractive =>
      sample_refractive_pdf (color material) (ior material) (roughness material)
        normal outgoing incoming
  | material_type.subsurface =>
      sample_refractive_pdf (color material) (ior material) (roughness material)
        normal outgoing incoming
  | material_type.gltfpbr =>
      sample_gltfpbr_pdf (color material) (ior material) (roughness material) (metallic material)
        normal outgoing incoming
  | _ => f0
  end.

Definition sample_delta_pdf (material : material_point)
    (normal outgoing incoming : vec3f) : float :=
  if (roughness material !=? f0)%f then f0 else
  match type material with
  | material_type.reflective =>
      sample_reflective_delta_pdf (color material) normal outgoing incoming
  | material_type.transparent =>
      sample_tranparent_delta_pdf (color material) (ior material) normal outgoing incoming
  | material_type.refractive =>
      sample_refractive_delta_pdf (color material) (ior material) normal outgoing incoming
  | material_type.volumetric =>
      sample_passthrough_pdf (color material) normal outgoing incoming
  | _ => f0
  end.

Definition eval_scattering (material : material_point) (outgoing incoming : vec3f) : vec3f :=
  if (density material ==? zero3)%v then zero3 else
  (scattering material * density material
     ^* eval_phasefunction (scanisotropy material) outgoing incoming)%v.

Definition sample_scattering (material : material_point) (outgoing : vec3f)
    (rnl : float) (rn : vec2f) : vec3f :=
  if (density material ==? zero3)%v then zero3 else
  sample_phasefunction (scanisotropy material) outgoing rn.

Definition sample_scattering_pdf (material : material_point)
    (outgoing incoming : vec3f) : float :=
  if (density material ==? zero3)%v then f0 else
  sample_phasefunction_pdf (scanisotropy material) outgoing incoming.

(** ** Threading the random number generator

    [rng_state& rng] is passed by reference through every integrator; a
    computation that draws random numbers is a function of the generator
    state returning the state it leaves behind. *)

Definition Rng (A : Type) : Type := rng_state -> A * rng_state.

Definition ret {A : Type} (a : A) : Rng A := fun rng => (a, rng).

Definition bind {A B : Type} (c : Rng A) (k : A -> Rng B) : Rng B :=
  fun rng => let (a, rng') := c rng in k a rng'.

Notation "'let*' x ':=' c 'in' k" := (bind c (fun x => k))
  (at level 10, x pattern, c at level 100, k at level 200).

(** The arguments of one call, drawn in the order the build evaluates them. *)
Definition args2 {A B : Type} (a : Rng A) (b : Rng B) : Rng (A * B) :=
  match args_order with
  | left_to_right => let* x := a in let* y := b in ret (x, y)
  | right_to_left => let* y := b in let* x := a in ret (x, y)
  end.

Definition args3 {A B C : Type} (a : Rng A) (b : Rng B) (c : Rng C) : Rng (A * B * C) :=
  match args_order with
  | left_to_right => let* x := a in let* y := b in let* z := c in ret (x, y, z)
  | right_to_left => let* z := c in let* y := b in let* x := a in ret (x, y, z)
  end.

(** ** Camera and light sampling *)

Definition tent_warp (u : float) : float :=
  if (u <? f_half)%f then (fsqrt (f2 * u) - f1)%f else (f1 - fsqrt (f2 - f2 * u))%f.

Definition sample_camera (camera : camera_data) (ij image_size : vec2i)
    (puv luv : vec2f) (tent : bool) : ray3f :=
  if negb tent then
    let uv := mk_vec2f
      ((float_of_int (xi ij) + x2 puv) / float_of_int (xi image_size))%f
      ((float_of_int (yi ij) + y2 puv) / float_of_int (yi image_size))%f in
    eval_camera camera uv (sample_disk luv)
  else
    let width := f2 in
    let offset := f_half in
    let fuv := mk_vec2f (width * tent_warp (x2 puv) + offset)%f
                        (width * tent_warp (y2 puv) + offset)%f in
    let uv := mk_vec2f
      ((float_of_int (xi ij) + x2 fuv) / float_of_int (xi image_size))%f
      ((float_of_int (yi ij) + y2 fuv) / float_of_int (yi image_size))%f in
    eval_camera camera uv (sample_disk luv).

Definition sample_lights (scene : scene_data) (ls : trace_lights) (position : vec3f)
    (rl rel : float) (ruv : vec2f) : vec3f :=
  let light_id := sample_uniform (Z.of_nat (length (lights ls))) rl in
  let light := vector_at no_light (lights ls) light_id in
  if negb (light_instance light =? invalidid) then
    let instance := scene_instances_at scene (light_instance light) in
    let shape := scene_shapes_at scene (instance_shape instance) in
    let element := sample_discrete (elements_cdf light) rel in
    let uv := if negb (shape_triangles_empty shape) then sample_triangle ruv else ruv in
    let lposition := eval_position scene instance element uv in
    normalize (lposition - position)%v
  else if negb (light_environment light =? invalidid) then
    let environment := scene_environments_at scene (light_environment light) in
    if negb (environment_emission_tex environment =? invalidid) then
      let texture := scene_textures_at scene (environment_emission_tex environment) in
      let idx := sample_discrete (elements_cdf light) rel in
      let size := max2i (texture_pixelsf_size texture) (texture_pixelsb_size texture) in
      let uv := mk_vec2f
        ((float_of_int (Z.rem idx (xi size)) + f_half) / float_of_int (xi size))%f
        ((float_of_int (Z.quot idx (xi size)) + f_half) / float_of_int (yi size))%f in
      transform_direction (environment_frame environment)
        (mk_vec3f (cosf (x2 uv * f2 * pif) * sinf (y2 uv * pif))%f
                  (cosf (y2 uv * pif)%f)
                  (sinf (x2 uv * f2 * pif) * sinf (y2 uv * pif))%f)
    else sample_sphere ruv
  else zero3.

(** The inner loop of [sample_lights_pdf]: up to [n] intersections of the
    ray with one emitting instance, each adding its solid-angle pdf.  The
    quotient is taken as it stands, whatever the denominator. *)
Fixpoint instance_light_pdf (n : nat) (scene : scene_data) (b : trace_bvh)
    (light : trace_light) (position direction next_position : vec3f)
    (lpdf : float) : float :=
  match n with
  | O => lpdf
  | S n' =>
      let instance := scene_instances_at scene (light_instance light) in
      let intersection :=
        intersect_instance b scene (light_instance light)
          (mk_ray next_position direction) false in
      if negb (isec_hit intersection) then lpdf else
      let lposition :=
        eval_position scene instance (isec_element intersection) (isec_uv intersection) in
      let lnormal := eval_element_normal_at scene instance (isec_element intersection) in
      let area := back (elements_cdf light) in
      let lpdf := (lpdf + distance_squared lposition position
                          / (fabs (dot lnormal direction) * area))%f in
      let next_position := (lposition + direction ^* f_1em3)%v in
      instance_light_pdf n' scene b light position direction next_position lpdf
  end.

(** The contribution of one light to the sum. *)
Definition light_pdf (scene : scene_data) (b : trace_bvh) (position direction : vec3f)
    (light : trace_light) (pdf : float) : float :=
  if negb (light_instance light =? invalidid) then
    let lpdf := instance_light_pdf 100 scene b light position direction position f0 in
    (pdf + lpdf)%f
  else if negb (light_environment light =? invalidid) then
    let environment := scene_environments_at scene (light_environment light) in
    if negb (environment_emission_tex environment =? invalidid) then
      let emission_tex := scene_textures_at scene (environment_emission_tex environment) in
      let wl := transform_direction (inverse (environment_frame environment)) direction in
      let tx := (atan2f (vz wl) (vx wl) / (f2 * pif))%f in
      let ty := (acosf (clampf (vy wl) (- f1) f1) / pif)%f in
      let tx := if (tx <? f0)%f then (tx + f1)%f else tx in
      let size := max2i (texture_pixelsf_size emission_tex) (texture_pixelsb_size emission_tex) in
      let ij := mk_vec2i
        (clampi (int_of_float (tx * float_of_int (xi size))) 0 (xi size - 1))
        (clampi (int_of_float (ty * float_of_int (yi size))) 0 (yi size - 1)) in
      let prob := (sample_discrete_pdf (elements_cdf light) (yi ij * xi size + xi ij)
                   / back (elements_cdf light))%f in
      let angle := ((f2 * pif / float_of_int (xi size)) * (pif / float_of_int (yi size))
                    * sinf (pif * (float_of_int (yi ij) + f_half) / float_of_int (yi size)))%f in
      (pdf + prob / angle)%f
    else (pdf + f1 / (f4 * pif))%f
  else pdf.

Definition sample_lights_pdf (scene : scene_data) (b : trace_bvh) (ls : trace_lights)
    (position direction : vec3f) : float :=
  let pdf := fold_left (fun pdf light => light_pdf scene b position direction light pdf)
               (lights ls) f0 in
  (pdf * sample_uniform_pdf (Z.of_nat (length (lights ls))))%f.

(** ** The local variables of an integrator

    One record holds the locals that live across iterations of the bounce
    loop; an integrator that does not declare one of them never touches
    it.  [l_volume_stack] keeps the back of the C++ vector at its head;
    [l_in_volume] is the flag of the furnace integrator. *)

Record path_state : Type := mk_path_state {
  l_radiance : vec3f;
  l_weight : vec3f;
  l_ray : ray3f;
  l_volume_stack : list material_point;
  l_max_roughness : float;
  l_hit : bool;
  l_hit_albedo : vec3f;
  l_hit_normal : vec3f;
  l_opbounce : Z;
  l_next_emission : bool;
  l_next_intersection : scene_intersection;
  l_in_volume : bool
}.

Definition initial_state (ray : ray3f) : path_state :=
  mk_path_state zero3 one3 ray [] f0 false zero3 zero3 0 true no_intersection false.

Definition set_radiance (st : path_state) (v : vec3f) : path_state :=
  mk_path_state v (l_weight st) (l_ray st) (l_volume_stack st) (l_max_roughness st)
    (l_hit st) (l_hit_albedo st) (l_hit_normal st) (l_opbounce st)
    (l_next_emission st) (l_next_intersection st) (l_in_volume st).
Definition set_weight (st : path_state) (v : vec3f) : path_state :=
  mk_path_state (l_radiance st) v (l_ray st) (l_volume_stack st) (l_max_roughness st)
    (l_hit st) (l_hit_albedo st) (l_hit_normal st) (l_opbounce st)
    (l_next_emission st) (l_next_intersection st) (l_in_volume st).
Definition set_ray (st : path_state) (r : ray3f) : path_state :=
  mk_path_state (l_radiance st) (l_weight st) r (l_volume_stack st) (l_max_roughness st)
    (l_hit st) (l_hit_albedo st) (l_hit_normal st) (l_opbounce st)
    (l_next_emission st) (l_next_intersection st) (l_in_volume st).
Definition set_volume_stack (st : path_state) (v : list material_point) : path_state :=
  mk_path_state (l_radiance st) (l_weight st) (l_ray st) v (l_max_roughness st)
    (l_hit st) (l_hit_albedo st) (l_hit_normal st) (l_opbounce st)
    (l_next_emission st) (l_next_intersection st) (l_in_volume st).
Definition set_max_roughness (st : path_state) (v : float) : path_state :=
  mk_path_state (l_radiance st) (l_weight st) (l_ray st) (l_volume_stack st) v
    (l_hit st) (l_hit_albedo st) (l_hit_normal st) (l_opbounce st)
    (l_next_emission st) (l_next_intersection st) (l_in_volume st).
Definition set_hit (st : path_state) (hit_albedo hit_normal : vec3f) : path_state :=
  mk_path_state (l_radiance st) (l_weight st) (l_ray st) (l_volume_stack st)
    (l_max_roughness st) true hit_albedo hit_normal (l_opbounce st)
    (l_next_emission st) (l_next_intersection st) (l_in_volume st).
Definition set_opbounce (st : path_state) (v : Z) : path_state :=
  mk_path_state (l_radiance st) (l_weight st) (l_ray st) (l_volume_stack st)
    (l_max_roughness st) (l_hit st) (l_hit_albedo st) (l_hit_normal st) v
    (l_next_emission st) (l_next_intersection st) (l_in_volume st).
Definition set_next_emission (st : path_state) (v : bool) : path_state :=
  mk_path_state (l_radiance st) (l_weight st) (l_ray st) (l_volume_stack st)
    (l_max_roughness st) (l_hit st) (l_hit_albedo st) (l_hit_normal st) (l_opbounce st)
    v (l_next_intersection st) (l_in_volume st).
Definition set_next_intersection (st : path_state) (v : scene_intersection) : path_state :=
  mk_path_state (l_radiance st) (l_weight st) (l_ray st) (l_volume_stack st)
    (l_max_roughness st) (l_hit st) (l_hit_albedo st) (l_hit_normal st) (l_opbounce st)
    (l_next_emission st) v (l_in_volume st).
Definition set_in_volume (st : path_state) (v : bool) : path_state :=
  mk_path_state (l_radiance st) (l_weight st) (l_ray st) (l_volume_stack st)
    (l_max_roughness st) (l_hit st) (l_hit_albedo st) (l_hit_normal st) (l_opbounce st)
    (l_next_emission st) (l_next_intersection st) v.

(** [radiance += v] and [weight *= v]. *)
Definition add_radiance (st : path_state) (v : vec3f) : path_state :=
  set_radiance st (l_radiance st + v)%v.
Definition mul_weight (st : path_state) (v : vec3f) : path_state :=
  set_weight st (l_weight st * v)%v.

(** [return {radiance, hit, hit_albedo, hit_normal}]. *)
Definition result_of (st : path_state) : trace_result :=
  mk_trace_result (l_radiance st) (l_hit st) (l_hit_albedo st) (l_hit_normal st).

(** ** The bounce loop

    How one execution of the loop body ends: by [break], by the opacity
    branch ([bounce -= 1; continue;]), or by reaching its last statement.
    [Shaded] is the point just before the comment [// check weight], with
    the assignments that the integrator places after the roulette. *)

Inductive loop_step : Type :=
| Break (st : path_state)
| Continue (st : path_state)
| Next (st : path_state).

Inductive shade_step : Type :=
| Leave (st : path_state)
| Skip (st : path_state)
| Shaded (st : path_state) (setup_next : path_state -> path_state).

(** What a run of the loop did: the locals at its end, the number of
    executions of the body, and how many of them were opacity continuations. *)
Record loop_run : Type := mk_loop_run {
  final : path_state;
  iterations : Z;
  continuations : Z
}.

(** [for (auto bounce = 0; bounce < limit; bounce++) body], on fuel. *)
Fixpoint run_loop (fuel : nat) (body : Z -> path_state -> Rng loop_step)
    (limit bounce : Z) (st : path_state) (its conts : Z) : Rng (option loop_run) :=
  match fuel with
  | O => ret None
  | S fuel' =>
      if bounce <? limit then
        let* step := body bounce st in
        match step with
        | Break st' => ret (Some (mk_loop_run st' (its + 1) conts))
        | Continue st' =>
            run_loop fuel' body limit ((bounce - 1) + 1) st' (its + 1) (conts + 1)
        | Next st' =>
            run_loop fuel' body limit (bounce + 1) st' (its + 1) conts
        end
      else ret (Some (mk_loop_run st its conts))
  end.

(** [material.opacity < 1 && rand1f(rng) >= material.opacity]: the random
    number is drawn only when the first test holds. *)
Definition opacity_test (material : material_point) : Rng bool :=
  if (opacity material <? f1)%f
  then let* r := rand1f in ret (r >=? opacity material)%f
  else ret false.

(** The body of the opacity branch:
    [if (opbounce++ > 128) break; ray = {position + ray.d * 1e-2f, ray.d};
     bounce -= 1; continue;] *)
Definition opacity_skip (st : path_state) (position : vec3f) : shade_step :=
  let opbounce := l_opbounce st in
  let st := set_opbounce st (opbounce + 1) in
  if 128 <? opbounce then Leave st
  else Skip (set_ray st (mk_ray (position + ray_d (l_ray st) ^* f_1em2)%v (ray_d (l_ray st)))).

(** [if (bounce == 0) { hit = true; hit_albedo = material.color; hit_normal = normal; }] *)
Definition set_hit_variables (bounce : Z) (st : path_state) (material : material_point)
    (normal : vec3f) : path_state :=
  if bounce =? 0 then set_hit st (color material) normal else st.

(** [weight == vec3f{0, 0, 0} || !isfinite(weight)] *)
Definition weight_dead (weight : vec3f) : bool :=
  (weight ==? zero3)%v || negb (v3isfinite weight).

(** From [// check weight] to the end of the body, as the integrators with
    a roulette have it. *)
Definition end_of_bounce (bounce : Z) (s : shade_step) : Rng loop_step :=
  match s with
  | Leave st => ret (Break st)
  | Skip st => ret (Continue st)
  | Shaded st setup_next =>
      (* check weight *)
      if weight_dead (l_weight st) then ret (Break st) else
      (* russian roulette *)
      if 3 <? bounce then
        let rr_prob := fmin f_099 (v3max (l_weight st)) in
        let* r := rand1f in
        if (r >=? rr_prob)%f then ret (Break st)
        else ret (Next (setup_next (set_weight st (l_weight st ^* (f1 / rr_prob))%v)))
      else ret (Next (setup_next st))
  end.

(** [// correct roughness] *)
Definition correct_roughness (params : trace_params) (st : path_state)
    (material : material_point) : path_state * material_point :=
  if nocaustics params then
    let max_roughness := fmax (roughness material) (l_max_roughness st) in
    (set_max_roughness st max_roughness, set_roughness material max_roughness)
  else (st, material).

(** [// handle transmission if inside a volume]: the locals, the medium
    when the sampled distance falls short of the surface ([in_volume]),
    and the intersection with its distance overwritten. *)
Definition volume_transmission (st : path_state) (intersection : scene_intersection)
    : Rng (path_state * option material_point * scene_intersection) :=
  match l_volume_stack st with
  | [] => ret (st, None, intersection)
  | vsdf :: _ =>
      let* (r1, r2) := args2 rand1f rand1f in
      let distance :=
        sample_transmittance (density vsdf) (isec_distance intersection) r1 r2 in
      let st := mul_weight st
        (eval_transmittance (density vsdf) distance
         ^/ sample_transmittance_pdf (density vsdf) distance (isec_distance intersection))%v in
      let in_volume := (distance <? isec_distance intersection)%f in
      ret (st, if in_volume then Some vsdf else None, set_distance intersection distance)
  end.

(** [// update volume stack] *)
Definition update_volume_stack (scene : scene_data) (intersection : scene_intersection)
    (normal outgoing incoming : vec3f) (st : path_state) : path_state :=
  if is_volumetric scene intersection
     && (dot normal outgoing * dot normal incoming <? f0)%f then
    match l_volume_stack st with
    | [] => set_volume_stack st [eval_material scene intersection]
    | _ :: rest => set_volume_stack st rest
    end
  else st.

(** [sample_bsdfcos(material, normal, outgoing, rand1f(rng), rand2f(rng))] *)
Definition draw_bsdfcos (material : material_point) (normal outgoing : vec3f) : Rng vec3f :=
  let* (rnl, rn) := args2 rand1f rand2f in
  ret (sample_bsdfcos material normal outgoing rnl rn).

(** [sample_lights(scene, lights, position, rand1f(rng), rand1f(rng), rand2f(rng))] *)
Definition draw_lights (scene : scene_data) (ls : trace_lights) (position : vec3f) : Rng vec3f :=
  let* (rl, rel, ruv) := args3 rand1f rand1f rand2f in
  ret (sample_lights scene ls position rl rel ruv).

(** [sample_scattering(vsdf, outgoing, rand1f(rng), rand2f(rng))] *)
Definition draw_scattering (vsdf : material_point) (outgoing : vec3f) : Rng vec3f :=
  let* (rnl, rn) := args2 rand1f rand2f in
  ret (sample_scattering vsdf outgoing rnl rn).

(** [sample_delta(material, normal, outgoing, rand1f(rng))] *)
Definition draw_delta (material : material_point) (normal outgoing : vec3f) : Rng vec3f :=
  let* rnl := rand1f in
  ret (sample_delta material normal outgoing rnl).

(** The one-sample mixture of BSDF and light sampling:
    [if (rand1f(rng) < 0.5f) sample_bsdfcos(...) else sample_lights(...)]. *)
Definition draw_mixture (scene : scene_data) (ls : trace_lights) (material : material_point)
    (position normal outgoing : vec3f) : Rng vec3f :=
  let* u := rand1f in
  if (u <? f_half)%f then draw_bsdfcos material normal outgoing
  else draw_lights scene ls position.

(** Its weight:
    [eval_bsdfcos / (0.5f * sample_bsdfcos_pdf + 0.5f * sample_lights_pdf)]. *)
Definition mixture_weight (scene : scene_data) (b : trace_bvh) (ls : trace_lights)
    (material : material_point) (position normal outgoing incoming : vec3f) : vec3f :=
  (eval_bsdfcos material normal outgoing incoming
   ^/ (f_half * sample_bsdfcos_pdf material normal outgoing incoming
       + f_half * sample_lights_pdf scene b ls position incoming)%f)%v.

(** The volume branch shared by [trace_path] and [trace_pathdirect]. *)
Definition shade_volume (scene : scene_data) (b : trace_bvh) (ls : trace_lights)
    (st : path_state) (intersection : scene_intersection) (vsdf : material_point)
    : Rng shade_step :=
  let ray := l_ray st in
  let outgoing := (- ray_d ray)%v in
  let position := (ray_o ray + ray_d ray ^* isec_distance intersection)%v in
  let* u := rand1f in
  let* incoming :=
    if (u <? f_half)%f then draw_scattering vsdf outgoing
    else draw_lights scene ls position in
  if (incoming ==? zero3)%v then ret (Leave st) else
  let st := mul_weight st
    (eval_scattering vsdf outgoing incoming
     ^/ (f_half * sample_scattering_pdf vsdf outgoing incoming
         + f_half * sample_lights_pdf scene b ls position incoming)%f)%v in
  ret (Shaded (set_ray st (mk_ray position incoming)) id).

(** The emission seen along a shadow ray (next-event estimation). *)
Definition direct_emission (scene : scene_data) (intersection : scene_intersection)
    (incoming : vec3f) : vec3f :=
  if negb (isec_hit intersection) then eval_environment scene incoming
  else
    let instance := scene_instances_at scene (isec_instance intersection) in
    eval_emission
      (eval_material_at scene instance (isec_element intersection) (isec_uv intersection))
      (eval_shading_normal_at scene instance (isec_element intersection)
         (isec_uv intersection) (- incoming)%v)
      (- incoming)%v.

(** [// direct] of [trace_pathdirect] and [trace_lightsampling]. *)
Definition direct_lighting (scene : scene_data) (b : trace_bvh) (ls : trace_lights)
    (material : material_point) (position normal outgoing : vec3f) (st : path_state)
    : Rng path_state :=
  if negb (is_delta material) then
    let* incoming := draw_lights scene ls position in
    let pdf := sample_lights_pdf scene b ls position incoming in
    let bsdfcos := eval_bsdfcos material normal outgoing incoming in
    let st :=
      if (bsdfcos !=? zero3)%v && (pdf >? f0)%f then
        let intersection := intersect_scene b scene (mk_ray position incoming) false in
        let emission := direct_emission scene intersection incoming in
        add_radiance st (l_weight st * bsdfcos * emission ^/ pdf)%v
      else st in
    ret (set_next_emission st false)
  else ret (set_next_emission st true).

(** *** [trace_path] *)

Definition trace_path_shade (scene : scene_data) (b : trace_bvh) (ls : trace_lights)
    (params : trace_params) (bounce : Z) (st : path_state) : Rng shade_step :=
  let ray := l_ray st in
  (* intersect next point *)
  let intersection := intersect_scene b scene ray false in
  if negb (isec_hit intersection) then
    ret (Leave (if (0 <? bounce) || negb (envhidden params)
                then add_radiance st (l_weight st * eval_environment scene (ray_d ray))%v
                else st))
  else
  let* (st, in_volume, intersection) := volume_transmission st intersection in
  match in_volume with
  | None =>
      (* prepare shading point *)
      let outgoing := (- ray_d ray)%v in
      let position := eval_shading_position scene intersection outgoing in
      let normal := eval_shading_normal scene intersection outgoing in
      let material := eval_material scene intersection in
      let '(st, material) := correct_roughness params st material in
      (* handle opacity *)
      let* transparent := opacity_test material in
      if transparent then ret (opacity_skip st position) else
      let st := set_hit_variables bounce st material normal in
      (* accumulate emission *)
      let st := add_radiance st (l_weight st * eval_emission material normal outgoing)%v in
      (* next direction *)
      let* next :=
        if negb (is_delta material) then
          let* incoming := draw_mixture scene ls material position normal outgoing in
          if (incoming ==? zero3)%v then ret None else
          ret (Some (incoming,
                     mul_weight st (mixture_weight scene b ls material position
                                      normal outgoing incoming)))
        else
          let* incoming := draw_delta material normal outgoing in
          ret (Some (incoming,
                     mul_weight st (eval_delta material normal outgoing incoming
                                    ^/ sample_delta_pdf material normal outgoing incoming)%v)) in
      match next with
      | None => ret (Leave st)
      | Some (incoming, st) =>
          let st := update_volume_stack scene intersection normal outgoing incoming st in
          (* setup next iteration *)
          ret (Shaded (set_ray st (mk_ray position incoming)) id)
      end
  | Some vsdf => shade_volume scene b ls st intersection vsdf
  end.

Definition trace_path_body (scene : scene_data) (b : trace_bvh) (ls : trace_lights)
    (params : trace_params) (bounce : Z) (st : path_state) : Rng loop_step :=
  let* s := trace_path_shade scene b ls params bounce st in
  end_of_bounce bounce s.

(** *** [trace_pathdirect] *)

Definition trace_pathdirect_shade (scene : scene_data) (b : trace_bvh) (ls : trace_lights)
    (params : trace_params) (bounce : Z) (st : path_state) : Rng shade_step :=
  let ray := l_ray st in
  (* intersect next point *)
  let intersection := intersect_scene b scene ray false in
  if negb (isec_hit intersection) then
    ret (Leave (if ((0 <? bounce) || negb (envhidden params)) && l_next_emission st
                then add_radiance st (l_weight st * eval_environment scene (ray_d ray))%v
                else st))
  else
  let* (st, in_volume, intersection) := volume_transmission st intersection in
  match in_volume with
  | None =>
      (* prepare shading point *)
      let outgoing := (- ray_d ray)%v in
      let position := eval_shading_position scene intersection outgoing in
      let normal := eval_shading_normal scene intersection outgoing in
      let material := eval_material scene intersection in
      let '(st, material) := correct_roughness params st material in
      (* handle opacity *)
      let* transparent := opacity_test material in
      if transparent then ret (opacity_skip st position) else
      let st := set_hit_variables bounce st material normal in
      (* accumulate emission *)
      let st := if l_next_emission st
                then add_radiance st (l_weight st * eval_emission material normal outgoing)%v
                else st in
      (* direct *)
      let* st := direct_lighting scene b ls material position normal outgoing st in
      (* next direction *)
      let* incoming :=
        if negb (is_delta material)
        then draw_mixture scene ls material position normal outgoing
        else draw_delta material normal outgoing in
      if (incoming ==? zero3)%v then ret (Leave st) else
      let st :=
        if negb (is_delta material)
        then mul_weight st (mixture_weight scene b ls material position normal outgoing incoming)
        else mul_weight st (eval_delta material normal outgoing incoming
                            ^/ sample_delta_pdf material normal outgoing incoming)%v in
      let st := update_volume_stack scene intersection normal outgoing incoming st in
      (* setup next iteration *)
      ret (Shaded (set_ray st (mk_ray position incoming)) id)
  | Some vsdf => shade_volume scene b ls st intersection vsdf
  end.

Definition trace_pathdirect_body (scene : scene_data) (b : trace_bvh) (ls : trace_lights)
    (params : trace_params) (bounce : Z) (st : path_state) : Rng loop_step :=
  let* s := trace_pathdirect_shade scene b ls params bounce st in
  end_of_bounce bounce s.

(** *** [trace_pathmis] *)

Definition mis_heuristic (this_pdf other_pdf : float) : float :=
  ((this_pdf * this_pdf) / (this_pdf * this_pdf + other_pdf * other_pdf))%f.

(** One round of [for (auto sample_light : {true, false})]: the direction
    drawn, and the locals after the round.  A zero direction ends the
    [for] loop, which the caller sees from the direction returned. *)
Definition mis_sample (scene : scene_data) (b : trace_bvh) (ls : trace_lights)
    (material : material_point) (position normal outgoing : vec3f)
    (sample_light : bool) (st : path_state) : Rng (vec3f * path_state) :=
  let* incoming :=
    if sample_light then draw_lights scene ls position
    else draw_bsdfcos material normal outgoing in
  if (incoming ==? zero3)%v then ret (incoming, st) else
  let bsdfcos := eval_bsdfcos material normal outgoing incoming in
  let light_pdf := sample_lights_pdf scene b ls position incoming in
  let bsdf_pdf := sample_bsdfcos_pdf material normal outgoing incoming in
  let mis_weight :=
    if sample_light then (mis_heuristic light_pdf bsdf_pdf / light_pdf)%f
    else (mis_heuristic bsdf_pdf light_pdf / bsdf_pdf)%f in
  if (bsdfcos !=? zero3)%v && (mis_weight !=? f0)%f then
    let intersection := intersect_scene b scene (mk_ray position incoming) false in
    let st := if negb sample_light then set_next_intersection st intersection else st in
    let emission := direct_emission scene intersection incoming in
    ret (incoming, add_radiance st (l_weight st * bsdfcos * emission ^* mis_weight)%v)
  else ret (incoming, st).

Definition trace_pathmis_shade (scene : scene_data) (b : trace_bvh) (ls : trace_lights)
    (params : trace_params) (bounce : Z) (st : path_state) : Rng shade_step :=
  let ray := l_ray st in
  (* intersect next point *)
  let intersection :=
    if l_next_emission st then intersect_scene b scene ray false
    else l_next_intersection st in
  if negb (isec_hit intersection) then
    ret (Leave (if ((0 <? bounce) || negb (envhidden params)) && l_next_emission st
                then add_radiance st (l_weight st * eval_environment scene (ray_d ray))%v
                else st))
  else
  let* (st, in_volume, intersection) := volume_transmission st intersection in
  match in_volume with
  | None =>
      (* prepare shading point *)
      let outgoing := (- ray_d ray)%v in
      let position := eval_shading_position scene intersection outgoing in
      let normal := eval_shading_normal scene intersection outgoing in
      let material := eval_material scene intersection in
      let '(st, material) := correct_roughness params st material in
      (* handle opacity *)
      let* transparent := opacity_test material in
      if transparent then ret (opacity_skip st position) else
      let st := set_hit_variables bounce st material normal in
      (* accumulate emission *)
      let st := if l_next_emission st
                then add_radiance st (l_weight st * eval_emission material normal outgoing)%v
                else st in
      (* next direction *)
      let* (incoming, st) :=
        if negb (is_delta material) then
          (* direct with MIS --- light *)
          let* (incoming, st) :=
            mis_sample scene b ls material position normal outgoing true st in
          let* (incoming, st) :=
            if (incoming ==? zero3)%v then ret (incoming, st)
            else mis_sample scene b ls material position normal outgoing false st in
          (* indirect *)
          let st := mul_weight st
            (eval_bsdfcos material normal outgoing incoming
             ^/ sample_bsdfcos_pdf material normal outgoing incoming)%v in
          ret (incoming, set_next_emission st false)
        else
          let* incoming := draw_delta material normal outgoing in
          let st := mul_weight st
            (eval_delta material normal outgoing incoming
             ^/ sample_delta_pdf material normal outgoing incoming)%v in
          ret (incoming, set_next_emission st true) in
      let st := update_volume_stack scene intersection normal outgoing incoming st in
      (* setup next iteration *)
      ret (Shaded (set_ray st (mk_ray position incoming)) id)
  | Some vsdf =>
      (* prepare shading point *)
      let outgoing := (- ray_d ray)%v in
      let position := (ray_o ray + ray_d ray ^* isec_distance intersection)%v in
      (* next direction *)
      let* u := rand1f in
      let* incoming :=
        if (u <? f_half)%f then draw_scattering vsdf outgoing
        else draw_lights scene ls position in
      let st := set_next_emission st true in
      let st := mul_weight st
        (eval_scattering vsdf outgoing incoming
         ^/ (f_half * sample_scattering_pdf vsdf outgoing incoming
             + f_half * sample_lights_pdf scene b ls position incoming)%f)%v in
      (* setup next iteration *)
      ret (Shaded (set_ray st (mk_ray position incoming)) id)
  end.

Definition trace_pathmis_body (scene : scene_data) (b : trace_bvh) (ls : trace_lights)
    (params : trace_params) (bounce : Z) (st : path_state) : Rng loop_step :=
  let* s := trace_pathmis_shade scene b ls params bounce st in
  end_of_bounce bounce s.

(** *** [trace_pathtest] *)

Definition trace_pathtest_shade (scene : scene_data) (b : trace_bvh) (ls : trace_lights)
    (params : trace_params) (bounce : Z) (st : path_state) : Rng shade_step :=
  let ray := l_ray st in
  (* intersect next point *)
  let intersection := intersect_scene b scene ray false in
  if negb (isec_hit intersection) then
    ret (Leave (if (0 <? bounce) || negb (envhidden params)
                then add_radiance st (l_weight st * eval_environment scene (ray_d ray))%v
                else st))
  else
  (* prepare shading point *)
  let outgoing := (- ray_d ray)%v in
  let position := eval_shading_position scene intersection outgoing in
  let normal := eval_shading_normal scene intersection outgoing in
  let material := set_type (eval_material scene intersection) material_type.matte in
  let st := set_hit_variables bounce st material normal in
  (* accumulate emission *)
  let st := add_radiance st (l_weight st * eval_emission material normal outgoing)%v in
  (* next direction *)
  let* next :=
    if negb (is_delta material) then
      let* incoming := draw_mixture scene ls material position normal outgoing in
      if (incoming ==? zero3)%v then ret None else
      ret (Some (incoming,
                 mul_weight st (mixture_weight scene b ls material position
                                  normal outgoing incoming)))
    else
      let* incoming := draw_delta material normal outgoing in
      ret (Some (incoming,
                 mul_weight st (eval_delta material normal outgoing incoming
                                ^/ sample_delta_pdf material normal outgoing incoming)%v)) in
  match next with
  | None => ret (Leave st)
  | Some (incoming, st) =>
      (* setup next iteration *)
      ret (Shaded (set_ray st (mk_ray position incoming)) id)
  end.

Definition trace_pathtest_body (scene : scene_data) (b : trace_bvh) (ls : trace_lights)
    (params : trace_params) (bounce : Z) (st : path_state) : Rng loop_step :=
  let* s := trace_pathtest_shade scene b ls params bounce st in
  end_of_bounce bounce s.

(** *** [trace_lightsampling] *)

Definition trace_lightsampling_shade (scene : scene_data) (b : trace_bvh)
    (ls : trace_lights) (params : trace_params) (bounce : Z) (st : path_state)
    : Rng shade_step :=
  let ray := l_ray st in
  (* intersect next point *)
  let intersection := intersect_scene b scene ray false in
  if negb (isec_hit intersection) then
    ret (Leave (if ((0 <? bounce) || negb (envhidden params)) && l_next_emission st
                then add_radiance st (l_weight st * eval_environment scene (ray_d ray))%v
                else st))
  else
  (* prepare shading point *)
  let outgoing := (- ray_d ray)%v in
  let position := eval_shading_position scene intersection outgoing in
  let normal := eval_shading_normal scene intersection outgoing in
  let material := eval_material scene intersection in
  (* handle opacity *)
  let* transparent := opacity_test material in
  if transparent then ret (opacity_skip st position) else
  let st := set_hit_variables bounce st material normal in
  (* accumulate emission *)
  let st := if l_next_emission st
            then add_radiance st (l_weight st * eval_emission material normal outgoing)%v
            else st in
  (* direct *)
  let* st := direct_lighting scene b ls material position normal outgoing st in
  (* next direction *)
  let* incoming :=
    if (roughness material !=? f0)%f
    then draw_bsdfcos material normal outgoing
    else draw_delta material normal outgoing in
  if (incoming ==? zero3)%v then ret (Leave st) else
  let st :=
    if (roughness material !=? f0)%f
    then mul_weight st (eval_bsdfcos material normal outgoing incoming
                        ^/ sample_bsdfcos_pdf material normal outgoing incoming)%v
    else mul_weight st (eval_delta material normal outgoing incoming
                        ^/ sample_delta_pdf material normal outgoing incoming)%v in
  (* check weight, russian roulette, then: setup next iteration *)
  ret (Shaded st (fun st => set_ray st (mk_ray position incoming))).

Definition trace_lightsampling_body (scene : scene_data) (b : trace_bvh)
    (ls : trace_lights) (params : trace_params) (bounce : Z) (st : path_state)
    : Rng loop_step :=
  let* s := trace_lightsampling_shade scene b ls params bounce st in
  end_of_bounce bounce s.

(** *** [trace_naive] *)

Definition trace_naive_shade (scene : scene_data) (b : trace_bvh) (ls : trace_lights)
    (params : trace_params) (bounce : Z) (st : path_state) : Rng shade_step :=
  let ray := l_ray st in
  (* intersect next point *)
  let intersection := intersect_scene b scene ray false in
  if negb (isec_hit intersection) then
    ret (Leave (if (0 <? bounce) || negb (envhidden params)
                then add_radiance st (l_weight st * eval_environment scene (ray_d ray))%v
                else st))
  else
  (* prepare shading point *)
  let outgoing := (- ray_d ray)%v in
  let position := eval_shading_position scene intersection outgoing in
  let normal := eval_shading_normal scene intersection outgoing in
  let material := eval_material scene intersection in
  (* handle opacity *)
  let* transparent := opacity_test material in
  if transparent then ret (opacity_skip st position) else
  let st := set_hit_variables bounce st material normal in
  (* accumulate emission *)
  let st := add_radiance st (l_weight st * eval_emission material normal outgoing)%v in
  (* next direction *)
  let* incoming :=
    if negb (is_delta material)
    then draw_bsdfcos material normal outgoing
    else draw_delta material normal outgoing in
  if (incoming ==? zero3)%v then ret (Leave st) else
  let st :=
    if negb (is_delta material)
    then mul_weight st (eval_bsdfcos material normal outgoing incoming
                        ^/ sample_bsdfcos_pdf material normal outgoing incoming)%v
    else mul_weight st (eval_delta material normal outgoing incoming
                        ^/ sample_delta_pdf material normal outgoing incoming)%v in
  (* check weight, russian roulette, then: setup next iteration *)
  ret (Shaded st (fun st => set_ray st (mk_ray position incoming))).

Definition trace_naive_body (scene : scene_data) (b : trace_bvh) (ls : trace_lights)
    (params : trace_params) (bounce : Z) (st : path_state) : Rng loop_step :=
  let* s := trace_naive_shade scene b ls params bounce st in
  end_of_bounce bounce s.

(** *** [trace_eyelight]: no roulette, and a loop bound of its own *)

Definition trace_eyelight_body (scene : scene_data) (b : trace_bvh) (ls : trace_lights)
    (params : trace_params) (bounce : Z) (st : path_state) : Rng loop_step :=
  let ray := l_ray st in
  (* intersect next point *)
  let intersection := intersect_scene b scene ray false in
  if negb (isec_hit intersection) then
    ret (Break (if (0 <? bounce) || negb (envhidden params)
                then add_radiance st (l_weight st * eval_environment scene (ray_d ray))%v
                else st))
  else
  (* prepare shading point *)
  let outgoing := (- ray_d ray)%v in
  let position := eval_shading_position scene intersection outgoing in
  let normal := eval_shading_normal scene intersection outgoing in
  let material := eval_material scene intersection in
  (* handle opacity *)
  let* transparent := opacity_test material in
  if transparent then ret (match opacity_skip st position with
                           | Leave st => Break st
                           | Skip st => Continue st
                           | Shaded st _ => Next st
                           end) else
  let st := set_hit_variables bounce st material normal in
  (* accumulate emission *)
  let incoming := outgoing in
  let st := add_radiance st (l_weight st * eval_emission material normal outgoing)%v in
  (* brdf * light *)
  let st := add_radiance st
    (l_weight st ^* pif * eval_bsdfcos material normal outgoing incoming)%v in
  (* continue path *)
  if negb (is_delta material) then ret (Break st) else
  let* incoming := draw_delta material normal outgoing in
  if (incoming ==? zero3)%v then ret (Break st) else
  let st := mul_weight st (eval_delta material normal outgoing incoming
                           ^/ sample_delta_pdf material normal outgoing incoming)%v in
  if weight_dead (l_weight st) then ret (Break st) else
  (* setup next iteration *)
  ret (Next (set_ray st (mk_ray position incoming))).

(** *** [trace_furnace] *)

Definition trace_furnace_shade (scene : scene_data) (b : trace_bvh) (ls : trace_lights)
    (params : trace_params) (bounce : Z) (st : path_state) : Rng shade_step :=
  let ray := l_ray st in
  (* exit loop *)
  if (0 <? bounce) && negb (l_in_volume st) then
    ret (Leave (add_radiance st (l_weight st * eval_environment scene (ray_d ray))%v))
  else
  (* intersect next point *)
  let intersection := intersect_scene b scene ray false in
  if negb (isec_hit intersection) then
    ret (Leave (if (0 <? bounce) || negb (envhidden params)
                then add_radiance st (l_weight st * eval_environment scene (ray_d ray))%v
                else st))
  else
  (* prepare shading point *)
  let outgoing := (- ray_d ray)%v in
  let instance := scene_instances_at scene (isec_instance intersection) in
  let element := isec_element intersection in
  let uv := isec_uv intersection in
  let position := eval_position scene instance element uv in
  let normal := eval_shading_normal_at scene instance element uv outgoing in
  let material := eval_material_at scene instance element uv in
  (* handle opacity *)
  let* transparent := opacity_test material in
  if transparent then ret (opacity_skip st position) else
  let st := set_hit_variables bounce st material normal in
  (* accumulate emission *)
  let st := add_radiance st (l_weight st * eval_emission material normal outgoing)%v in
  (* next direction *)
  let* incoming :=
    if (roughness material !=? f0)%f
    then draw_bsdfcos material normal outgoing
    else draw_delta material normal outgoing in
  if (incoming ==? zero3)%v then ret (Leave st) else
  let st :=
    if (roughness material !=? f0)%f
    then mul_weight st (eval_bsdfcos material normal outgoing incoming
                        ^/ sample_bsdfcos_pdf material normal outgoing incoming)%v
    else mul_weight st (eval_delta material normal outgoing incoming
                        ^/ sample_delta_pdf material normal outgoing incoming)%v in
  (* check weight, russian roulette, then: update volume stack, setup next iteration *)
  ret (Shaded st (fun st =>
    let st := if (dot normal outgoing * dot normal incoming <? f0)%f
              then set_in_volume st (negb (l_in_volume st)) else st in
    set_ray st (mk_ray position incoming))).

Definition trace_furnace_body (scene : scene_data) (b : trace_bvh) (ls : trace_lights)
    (params : trace_params) (bounce : Z) (st : path_state) : Rng loop_step :=
  let* s := trace_furnace_shade scene b ls params bounce st in
  end_of_bounce bounce s.

(** *** The integrators as functions

    The bounce loop may repeat an index, so it runs on fuel; [loop_fuel]
    is the amount handed to it, and the termination theorem below shows
    that it is never exhausted. *)

Definition loop_fuel (limit : Z) : nat := (Z.to_nat limit + 130)%nat.

Definition trace_loop (fuel : nat) (body : Z -> path_state -> Rng loop_step)
    (limit : Z) (ray : ray3f) : Rng (option loop_run) :=
  run_loop fuel body limit 0 (initial_state ray) 0 0.

Definition finish_trace (r : option loop_run) : trace_result :=
  match r with
  | Some r => result_of (final r)
  | None => empty_result
  end.

Definition integrator (body : trace_params -> Z -> path_state -> Rng loop_step)
    (limit : trace_params -> Z) (ray : ray3f) (params : trace_params) : Rng trace_result :=
  let* r := trace_loop (loop_fuel (limit params)) (body params) (limit params) ray in
  ret (finish_trace r).

Definition trace_path (scene : scene_data) (b : trace_bvh) (ls : trace_lights)
    (ray : ray3f) (params : trace_params) : Rng trace_result :=
  integrator (trace_path_body scene b ls) bounces ray params.

Definition trace_pathdirect (scene : scene_data) (b : trace_bvh) (ls : trace_lights)
    (ray : ray3f) (params : trace_params) : Rng trace_result :=
  integrator (trace_pathdirect_body scene b ls) bounces ray params.

Definition trace_pathmis (scene : scene_data) (b : trace_bvh) (ls : trace_lights)
    (ray : ray3f) (params : trace_params) : Rng trace_result :=
  integrator (trace_pathmis_body scene b ls) bounces ray params.

Definition trace_pathtest (scene : scene_data) (b : trace_bvh) (ls : trace_lights)
    (ray : ray3f) (params : trace_params) : Rng trace_result :=
  integrator (trace_pathtest_body scene b ls) bounces ray params.

Definition trace_lightsampling (scene : scene_data) (b : trace_bvh) (ls : trace_lights)
    (ray : ray3f) (params : trace_params) : Rng trace_result :=
  integrator (trace_lightsampling_body scene b ls) bounces ray params.

Definition trace_naive (scene : scene_data) (b : trace_bvh) (ls : trace_lights)
    (ray : ray3f) (params : trace_params) : Rng trace_result :=
  integrator (trace_naive_body scene b ls) bounces ray params.

(** [max(params.bounces, 4)] *)
Definition eyelight_limit (params : trace_params) : Z := Z.max (bounces params) 4.

Definition trace_eyelight (scene : scene_data) (b : trace_bvh) (ls : trace_lights)
    (ray : ray3f) (params : trace_params) : Rng trace_result :=
  integrator (trace_eyelight_body scene b ls) eyelight_limit ray params.

Definition trace_furnace (scene : scene_data) (b : trace_bvh) (ls : trace_lights)
    (ray : ray3f) (params : trace_params) : Rng trace_result :=
  integrator (trace_furnace_body scene b ls) bounces ray params.

(** *** [trace_falsecolor] *)

Definition hashed_color (id : Z) : vec3f :=
  let hashed := std_hash id in
  let rng := make_rng trace_default_seed hashed in
  pow3 (fst (rand3f rng) ^* f_half ^+ f_half)%v f_22.

Definition falsecolor_result (scene : scene_data) (params : trace_params) (ray : ray3f)
    (intersection : scene_intersection) (position normal gnormal : vec3f)
    (texcoord : vec2f) (material : material_point) (delta : float) : vec3f :=
  match falsecolor params with
  | trace_falsecolor_type.position => (position ^* f_half ^+ f_half)%v
  | trace_falsecolor_type.normal => (normal ^* f_half ^+ f_half)%v
  | trace_falsecolor_type.frontfacing =>
      if (dot normal (- ray_d ray)%v >? f0)%f then mk_vec3f f0 f1 f0 else mk_vec3f f1 f0 f0
  | trace_falsecolor_type.gnormal => (gnormal ^* f_half ^+ f_half)%v
  | trace_falsecolor_type.gfrontfacing =>
      if (dot gnormal (- ray_d ray)%v >? f0)%f then mk_vec3f f0 f1 f0 else mk_vec3f f1 f0 f0
  | trace_falsecolor_type.mtype => hashed_color (material_type_to_int (type material))
  | trace_falsecolor_type.texcoord =>
      mk_vec3f (fmodf (x2 texcoord) f1) (fmodf (y2 texcoord) f1) f0
  | trace_falsecolor_type.color => color material
  | trace_falsecolor_type.emission => emission material
  | trace_falsecolor_type.roughness =>
      mk_vec3f (roughness material) (roughness material) (roughness material)
  | trace_falsecolor_type.opacity =>
      mk_vec3f (opacity material) (opacity material) (opacity material)
  | trace_falsecolor_type.metallic =>
      mk_vec3f (metallic material) (metallic material) (metallic material)
  | trace_falsecolor_type.delta => mk_vec3f delta delta delta
  | trace_falsecolor_type.element => hashed_color (isec_element intersection)
  | trace_falsecolor_type.instance => hashed_color (isec_instance intersection)
  | trace_falsecolor_type.shape =>
      hashed_color (instance_shape (scene_instances_at scene (isec_instance intersection)))
  | trace_falsecolor_type.material =>
      hashed_color (instance_material (scene_instances_at scene (isec_instance intersection)))
  | trace_falsecolor_type.highlight =>
      let material :=
        if (emission material ==? zero3)%v
        then set_emission material (mk_vec3f f_02 f_02 f_02) else material in
      (emission material ^* fabs (dot (- ray_d ray)%v normal))%v
  | trace_falsecolor_type.unrecognized _ => zero3
  end.

Definition trace_falsecolor (scene : scene_data) (b : trace_bvh) (ls : trace_lights)
    (ray : ray3f) (params : trace_params) : Rng trace_result :=
  (* intersect next point *)
  let intersection := intersect_scene b scene ray false in
  if negb (isec_hit intersection) then ret empty_result else
  (* prepare shading point *)
  let outgoing := (- ray_d ray)%v in
  let position := eval_shading_position scene intersection outgoing in
  let normal := eval_shading_normal scene intersection outgoing in
  let gnormal := eval_element_normal scene intersection in
  let texcoord := eval_texcoord scene intersection in
  let material := eval_material scene intersection in
  let delta := if is_delta material then f1 else f0 in
  (* compute result *)
  let result := falsecolor_result scene params ray intersection position normal gnormal
                  texcoord material delta in
  (* done *)
  ret (mk_trace_result (srgb_to_rgb result) true (color material) normal).

(** ** Sampler dispatch *)

Definition sampler_func : Type :=
  scene_data -> trace_bvh -> trace_lights -> ray3f -> trace_params -> Rng trace_result.

Definition get_trace_sampler_func (params : trace_params) : result sampler_func :=
  match sampler params with
  | trace_sampler_type.path => Ok trace_path
  | trace_sampler_type.pathdirect => Ok trace_pathdirect
  | trace_sampler_type.pathmis => Ok trace_pathmis
  | trace_sampler_type.pathtest => Ok trace_pathtest
  | trace_sampler_type.lightsampling => Ok trace_lightsampling
  | trace_sampler_type.naive => Ok trace_naive
  | trace_sampler_type.eyelight => Ok trace_eyelight
  | trace_sampler_type.furnace => Ok trace_furnace
  | trace_sampler_type.falsecolor => Ok trace_falsecolor
  | trace_sampler_type.unrecognized _ => Throw (runtime_error "sampler unknown")
  end.

End Tracer.

(** Check is a sampler requires lights *)
Definition is_sampler_lit (params : trace_params) : result bool :=
  match sampler params with
  | trace_sampler_type.path => Ok true
  | trace_sampler_type.pathdirect => Ok true
  | trace_sampler_type.pathmis => Ok true
  | trace_sampler_type.naive => Ok true
  | trace_sampler_type.eyelight => Ok false
  | trace_sampler_type.furnace => Ok true
  | trace_sampler_type.falsecolor => Ok false
  | _ => Throw (runtime_error "sampler unknown")
  end.

(** ** Render state *)

Section Render.
Context `{L : Library}.

Record trace_state : Type := mk_trace_state {
  s_samples : Z;
  s_render : image vec4f;
  s_albedo : image vec3f;
  s_normal : image vec3f;
  s_hits : image Z;
  s_rngs : image rng_state;
  s_denoised : image vec4f
}.

(** [trace_state{}]. *)
Definition empty_state : trace_state :=
  mk_trace_state 0 empty_image empty_image empty_image empty_image empty_image empty_image.

Definition set_samples (state : trace_state) (n : Z) : trace_state :=
  mk_trace_state n (s_render state) (s_albedo state) (s_normal state) (s_hits state)
    (s_rngs state) (s_denoised state).
Definition set_denoised (state : trace_state) (img : image vec4f) : trace_state :=
  mk_trace_state (s_samples state) (s_render state) (s_albedo state) (s_normal state)
    (s_hits state) (s_rngs state) img.
Definition set_rng (state : trace_state) (ij : vec2i) (rng : rng_state) : trace_state :=
  mk_trace_state (s_samples state) (s_render state) (s_albedo state) (s_normal state)
    (s_hits state) (image_set (s_rngs state) ij rng) (s_denoised state).

(** The writes of one sample to pixel [ij]: the three running means, and
    the hit count when [counted]. *)
Definition accumulate (state : trace_state) (ij : vec2i) (render : vec4f)
    (albedo normal : vec3f) (weight : float) (counted : bool) : trace_state :=
  mk_trace_state (s_samples state)
    (image_set (s_render state) ij (lerp4 (image_at zero4 (s_render state) ij) render weight))
    (image_set (s_albedo state) ij (lerp3 (image_at zero3 (s_albedo state) ij) albedo weight))
    (image_set (s_normal state) ij (lerp3 (image_at zero3 (s_normal state) ij) normal weight))
    (if counted then image_set (s_hits state) ij (image_at 0 (s_hits state) ij + 1)
     else s_hits state)
    (s_rngs state) (s_denoised state).

(** The two guards on the radiance an integrator returns. *)
Definition clamp_radiance (params : trace_params) (radiance : vec3f) : vec3f :=
  let radiance := if negb (v3isfinite radiance) then zero3 else radiance in
  if (v3max radiance >? clamp params)%f
  then (radiance ^* (clamp params / v3max radiance))%v
  else radiance.

(** Trace a block of samples *)
Definition trace_sample (state : trace_state) (scene : scene_data) (b : trace_bvh)
    (ls : trace_lights) (ij : vec2i) (sample : Z) (params : trace_params)
    : result trace_state :=
  let camera := scene_cameras_at scene (camera params) in
  match get_trace_sampler_func params with
  | Throw e => Throw e
  | Ok sampler =>
      let '(puv, luv, rng) :=
        args2 rand2f rand2f (image_at default_rng (s_rngs state) ij) in
      let ray := sample_camera camera ij (extents (s_render state)) puv luv
                   (tentfilter params) in
      let '(traced, rng) := sampler scene b ls ray params rng in
      let state := set_rng state ij rng in
      let radiance := clamp_radiance params (radiance traced) in
      let weight := (f1 / float_of_int (sample + 1))%f in
      if hit traced then
        Ok (accumulate state ij
              (mk_vec4f (vx radiance) (vy radiance) (vz radiance) f1)
              (albedo traced) (normal traced) weight true)
      else if negb (envhidden params) && negb (scene_environments_empty scene) then
        Ok (accumulate state ij
              (mk_vec4f (vx radiance) (vy radiance) (vz radiance) f1)
              one3 (- ray_d ray)%v weight true)
      else
        Ok (accumulate state ij zero4 zero3 (- ray_d ray)%v weight false)
  end.

(** A 32-bit [int] out of an integer, by wrap-around. *)
Definition int_wrap (z : Z) : Z := (z + 2 ^ 31) mod 2 ^ 32 - 2 ^ 31.

(** [for (auto& rng : state.rngs)
       rng = make_rng(params.seed, rand1i(rng_, 1 << 31) / 2 + 1);] *)
Fixpoint seed_rngs (n : nat) (seed : Z) (rng_ : rng_state) : list rng_state :=
  match n with
  | O => []
  | S n' =>
      let (r, rng_') := rand1i rng_ (int_wrap (Z.shiftl 1 31)) in
      make_rng seed (Z.quot r 2 + 1) :: seed_rngs n' seed rng_'
  end.

(** Init a sequence of random number generators. *)
Definition make_trace_state (scene : scene_data) (params : trace_params) : trace_state :=
  let camera := scene_cameras_at scene (camera params) in
  let resolution :=
    if (camera_aspect camera >=? f1)%f
    then mk_vec2i (resolution params)
           (int_of_float (roundf (float_of_int (resolution params) / camera_aspect camera)%f))
    else mk_vec2i
           (int_of_float (roundf (float_of_int (resolution params) * camera_aspect camera)%f))
           (resolution params) in
  let rng_ := make_rng_default 1301081 in
  mk_trace_state 0
    (make_image resolution zero4)
    (make_image resolution zero3)
    (make_image resolution zero3)
    (make_image resolution 0)
    (mk_image resolution
       (seed_rngs (Z.to_nat (xi resolution * yi resolution)) (seed params) rng_))
    (if denoise params then make_image resolution zero4 else empty_image).

(** ** Procedures on the render state

    A procedure leaves a state behind and may have thrown; an exception
    ends a sequence of procedures and keeps the writes made before it. *)

Definition proc : Type := trace_state -> trace_state * option exn.

Definition and_then (p q : proc) : proc :=
  fun state => match p state with
               | (state', None) => q state'
               | thrown => thrown
               end.

Fixpoint for_each {A : Type} (f : A -> proc) (l : list A) : proc :=
  match l with
  | [] => fun state => (state, None)
  | a :: l' => and_then (f a) (for_each f l')
  end.

Definition trace_sample_proc (scene : scene_data) (b : trace_bvh) (ls : trace_lights)
    (params : trace_params) (ij : vec2i) (sample : Z) : proc :=
  fun state => match trace_sample state scene b ls ij sample params with
               | Ok state' => (state', None)
               | Throw e => (state, Some e)
               end.

(** [range(a, b)]: the integers from [a] up to, not including, [b]. *)
Definition range (a b : Z) : list Z := map (fun k => a + Z.of_nat k) (seq 0 (Z.to_nat (b - a))).

(** [range(size)] on a [vec2i]: the pixels, row after row. *)
Definition row (size : vec2i) (j : Z) : list vec2i := map (fun i => mk_vec2i i j) (range 0 (xi size)).
Definition range2 (size : vec2i) : list vec2i := concat (map (row size) (range 0 (yi size))).

(** [for (auto sample : range(first, first + count)) trace_sample(...)] at one pixel. *)
Definition trace_pixel (scene : scene_data) (b : trace_bvh) (ls : trace_lights)
    (params : trace_params) (first count : Z) (ij : vec2i) : proc :=
  for_each (trace_sample_proc scene b ls params ij) (range first (first + count)).

(** Check image type *)
Definition check_image {T : Type} (img : image T) (size : vec2i) : option exn :=
  if negb (vec2i_eqb (extents img) size)
  then Some (invalid_argument "image should have the same size") else None.

(** Denoise image, in place: without the denoising library the render
    is copied. *)
Definition denoise_image : proc := fun state =>
  let size := extents (s_render state) in
  match check_image (s_denoised state) size with
  | Some e => (state, Some e)
  | None =>
  match check_image (s_albedo state) size with
  | Some e => (state, Some e)
  | None =>
  match check_image (s_normal state) size with
  | Some e => (state, Some e)
  | None =>
      match oidn_denoise with
      | Some filter =>
          (set_denoised state (filter (s_render state) (s_albedo state) (s_normal state)), None)
      | None => (set_denoised state (s_render state), None)
      end
  end end end.

(** [if (params.denoise && !state.denoised.empty()) denoise_image(...)] *)
Definition denoise_batch (params : trace_params) : proc := fun state =>
  if denoise params && negb (image_empty (s_denoised state))
  then denoise_image state else (state, None).

(** [state.samples += params.batch] *)
Definition bump_samples (params : trace_params) : proc := fun state =>
  (set_samples state (s_samples state + batch params), None).

(** ** Parallel helpers

    [parallel_for_batch] starts [hardware_concurrency()] workers; each
    claims a row index from an atomic counter and runs [func] along it.
    Every row is run once, by one worker, from its first pixel to its
    last; rows overlap in time.  The work items of the tracer write to
    their own pixel only, so an execution is a sequence of the items in
    which each row keeps its order. *)

Definition is_schedule (num : vec2i) (schedule : list vec2i) : Prop :=
  (forall ij, In ij schedule -> 0 <= yi ij < yi num) /\
  (forall j, 0 <= j < yi num ->
     List.filter (fun ij => yi ij =? j) schedule = row num j).

Inductive parallel_for_batch (num : vec2i) (func : vec2i -> proc) (state : trace_state)
    : trace_state * option exn -> Prop :=
| parallel_no_worker :
    hardware_concurrency <= 0 ->
    parallel_for_batch num func state (state, None)
| parallel_schedule (schedule : list vec2i) :
    0 < hardware_concurrency ->
    is_schedule num schedule ->
    parallel_for_batch num func state (for_each func schedule state).

(** ** Progressive rendering *)

(** The two loops of the [noparallel] branch. *)
Definition trace_batch_sequential (scene : scene_data) (b : trace_bvh) (ls : trace_lights)
    (params : trace_params) : proc := fun state =>
  for_each (trace_pixel scene b ls params (s_samples state) (batch params))
    (range2 (extents (s_render state))) state.

Definition after_batch (params : trace_params) (traced : trace_state * option exn)
    : trace_state * option exn :=
  match traced with
  | (state, None) => and_then (bump_samples params) (denoise_batch params) state
  | thrown => thrown
  end.

(** Progressively compute an image by calling trace_samples multiple times. *)
Inductive trace_samples (scene : scene_data) (b : trace_bvh) (ls : trace_lights)
    (params : trace_params) (state : trace_state) : trace_state * option exn -> Prop :=
| trace_samples_return :
    s_samples state >= samples params ->
    trace_samples scene b ls params state (state, None)
| trace_samples_noparallel :
    s_samples state < samples params ->
    noparallel params = true ->
    trace_samples scene b ls params state
      (after_batch params (trace_batch_sequential scene b ls params state))
| trace_samples_parallel (traced : trace_state * option exn) :
    s_samples state < samples params ->
    noparallel params = false ->
    parallel_for_batch (extents (s_render state))
      (trace_pixel scene b ls params (s_samples state) (batch params)) state traced ->
    trace_samples scene b ls params state (after_batch params traced).

(** [make_trace_state] followed by [n] calls of [trace_samples]; a call
    that throws ends the run. *)
Inductive render_run (scene : scene_data) (b : trace_bvh) (ls : trace_lights)
    (params : trace_params) : nat -> trace_state * option exn -> Prop :=
| render_start :
    render_run scene b ls params 0 (make_trace_state scene params, None)
| render_step (n : nat) (state : trace_state) (out : trace_state * option exn) :
    render_run scene b ls params n (state, None) ->
    trace_samples scene b ls params state out ->
    render_run scene b ls params (S n) out.

(** ** Asynchronous rendering *)

(** What the lambda handed to [std::async] captures. *)
Record async_task : Type := mk_async_task {
  task_scene : scene_data;
  task_bvh : trace_bvh;
  task_lights : trace_lights;
  task_params : trace_params
}.

Record trace_context : Type := mk_trace_context {
  worker : option async_task;
  stop : bool;
  done : bool
}.

(** Trace context *)
Definition make_trace_context (params : trace_params) : trace_context :=
  mk_trace_context None false false.

(** Async start: the context it leaves, and the task it launched, if any. *)
Definition trace_start (context : trace_context) (state : trace_state)
    (scene : scene_data) (b : trace_bvh) (ls : trace_lights) (params : trace_params)
    : trace_context * option async_task :=
  if s_samples state >=? samples params then (context, None) else
  let task := mk_async_task scene b ls params in
  (mk_trace_context (Some task) false false, Some task).

(** Async done *)
Definition trace_done (context : trace_context) : bool := done context.

(** What a launched task does to the render state.  [context.stop] is
    raised by [trace_cancel] on another thread; [progress ij] is the
    number of samples traced at pixel [ij] before the flag was seen there
    (the whole batch if it never was), and [stopped] whether the test
    after the batch saw it.  The outcome is the state, the [done] flag,
    and the exception kept in the future. *)
Inductive worker_run (task : async_task) (state : trace_state)
    : trace_state * bool * option exn -> Prop :=
| worker_stopped_at_once :
    worker_run task state (state, false, None)
| worker_threw (progress : vec2i -> Z) (state' : trace_state) (e : exn) :
    parallel_for_batch (extents (s_render state))
      (fun ij => trace_pixel (task_scene task) (task_bvh task) (task_lights task)
                   (task_params task) (s_samples state)
                   (Z.min (progress ij) (batch (task_params task))) ij)
      state (state', Some e) ->
    worker_run task state (state', false, Some e)
| worker_batch (progress : vec2i -> Z) (stopped : bool) (state' : trace_state) :
    parallel_for_batch (extents (s_render state))
      (fun ij => trace_pixel (task_scene task) (task_bvh task) (task_lights task)
                   (task_params task) (s_samples state)
                   (Z.min (progress ij) (batch (task_params task))) ij)
      state (state', None) ->
    (forall ij, In ij (range2 (extents (s_render state))) ->
       progress ij < batch (task_params task) -> stopped = true) ->
    worker_run task state
      (let '(state1, _) := bump_samples (task_params task) state' in
       if stopped then (state1, false, None)
       else match denoise_batch (task_params task) state1 with
            | (state2, None) => (state2, true, None)
            | (state2, Some e) => (state2, false, Some e)
            end).

End Render.

(** ** A small library instance

    A scene description that can be evaluated: every camera ray meets the
    same surface (or nothing), and one emitting instance is met once by
    the rays that start in the plane [x = 0].  It serves the concrete
    examples below. *)

Module Toy.

Record scene : Type := mk_scene {
  surface : option material_point;
  emitter_normal : vec3f;
  environment_radiance : vec3f
}.

Definition dull (ty : material_type.t) (emit : vec3f) (alpha rough : float) : material_point :=
  mk_material_point ty emit (mk_vec3f f_half f_half f_half) alpha rough f0 f1
    zero3 zero3 f0.

Definition material_of (sc : scene) : material_point :=
  match surface sc with
  | Some m => m
  | None => dull material_type.matte zero3 f1 f1
  end.

Definition up : vec3f := mk_vec3f f0 f0 f1.
Definition ahead : vec3f := mk_vec3f f1 f0 f0.

Definition surface_hit (sc : scene) : scene_intersection :=
  match surface sc with
  | Some _ => mk_intersection 0 0 zero2 f1 true
  | None => no_intersection
  end.

Definition emitter_hit (ray : ray3f) : scene_intersection :=
  if (vx (ray_o ray) ==? f0)%f then mk_intersection 0 0 zero2 f1 true
  else no_intersection.

Definition delta_material (m : material_point) : bool :=
  match type m with
  | material_type.reflective | material_type.refractive | material_type.transparent =>
      (roughness m ==? f0)%f
  | material_type.volumetric => true
  | _ => false
  end.

Definition library : Library := {|
  args_order := left_to_right;
  hardware_concurrency := 1;
  oidn_denoise := None;
  cosf := fun _ => f1;
  sinf := fun _ => f0;
  acosf := fun _ => f0;
  atan2f := fun _ _ => f0;
  fmodf := fun a _ => a;
  roundf := fun a => a;
  pow3 := fun v _ => v;
  std_hash := fun n => n;
  frame3f := unit;
  normalize := fun v => v;
  transform_direction := fun _ v => v;
  inverse := fun f => f;
  rng_state := Z;
  default_rng := 0;
  make_rng := fun seed seq => seed + seq;
  make_rng_default := fun seed => seed + 1;
  rand1f := fun s => (f_half, s + 1);
  rand2f := fun s => (mk_vec2f f_half f_half, s + 2);
  rand3f := fun s => (mk_vec3f f_half f_half f_half, s + 3);
  rand1i := fun s n => (Z.rem s n, s + 1);
  sample_uniform := fun _ _ => 0;
  sample_uniform_pdf := fun n => (f1 / float_of_int n)%f;
  sample_discrete := fun _ _ => 0;
  sample_discrete_pdf := fun _ _ => f1;
  sample_triangle := fun uv => uv;
  sample_sphere := fun _ => up;
  sample_disk := fun uv => uv;
  srgb_to_rgb := fun v => v;
  scene_data := scene;
  instance_data := unit;
  shape_data := unit;
  environment_data := unit;
  texture_data := unit;
  camera_data := unit;
  scene_cameras_at := fun _ _ => tt;
  scene_instances_at := fun _ _ => tt;
  scene_shapes_at := fun _ _ => tt;
  scene_textures_at := fun _ _ => tt;
  scene_environments_at := fun _ _ => tt;
  scene_environments_empty := fun _ => false;
  camera_aspect := fun _ => f1;
  instance_shape := fun _ => 0;
  instance_material := fun _ => 0;
  shape_triangles_empty := fun _ => false;
  environment_frame := fun _ => tt;
  environment_emission_tex := fun _ => invalidid;
  texture_pixelsf_size := fun _ => mk_vec2i 0 0;
  texture_pixelsb_size := fun _ => mk_vec2i 0 0;
  material_type_to_int := fun _ => 0;
  eval_camera := fun _ _ _ => mk_ray zero3 (- up)%v;
  eval_position := fun _ _ _ _ => ahead;
  eval_element_normal := fun _ _ => up;
  eval_element_normal_at := fun sc _ _ => emitter_normal sc;
  eval_shading_position := fun _ _ _ => zero3;
  eval_shading_normal := fun _ _ _ => up;
  eval_shading_normal_at := fun _ _ _ _ _ => up;
  eval_texcoord := fun _ _ => zero2;
  eval_material := fun sc _ => material_of sc;
  eval_material_at := fun sc _ _ _ => material_of sc;
  eval_environment := fun sc _ => environment_radiance sc;
  is_delta := delta_material;
  is_volumetric := fun _ _ => false;
  scene_bvh := unit;
  scene_ebvh := unit;
  ebvh_present := fun _ => false;
  intersect_scene_bvh := fun _ sc _ _ => surface_hit sc;
  intersect_scene_ebvh := fun _ sc _ _ => surface_hit sc;
  intersect_instance_bvh := fun _ _ _ ray _ => emitter_hit ray;
  intersect_instance_ebvh := fun _ _ _ ray _ => emitter_hit ray;
  eval_matte := fun c _ _ _ => c;
  eval_glossy := fun c _ _ _ _ _ => c;
  eval_reflective := fun c _ _ _ _ => c;
  eval_reflective_delta := fun c _ _ _ => c;
  eval_transparent := fun c _ _ _ _ _ => c;
  eval_transparent_delta := fun c _ _ _ _ => c;
  eval_refractive := fun c _ _ _ _ _ => c;
  eval_refractive_delta := fun c _ _ _ _ => c;
  eval_gltfpbr := fun c _ _ _ _ _ _ => c;
  eval_passthrough := fun c _ _ _ => c;
  sample_matte := fun _ n _ _ => n;
  sample_glossy := fun _ _ _ n _ _ _ => n;
  sample_reflective := fun _ _ n _ _ => n;
  sample_reflective_delta := fun _ n _ => n;
  sample_transparent := fun _ _ _ n _ _ _ => n;
  sample_transparent_delta := fun _ _ n _ _ => n;
  sample_refractive := fun _ _ _ n _ _ _ => n;
  sample_refractive_delta := fun _ _ n _ _ => n;
  sample_gltfpbr := fun _ _ _ _ n _ _ _ => n;
  sample_passthrough := fun _ _ o => (- o)%v;
  sample_matte_pdf := fun _ _ _ _ => f1;
  sample_glossy_pdf := fun _ _ _ _ _ _ => f1;
  sample_reflective_pdf := fun _ _ _ _ _ => f1;
  sample_reflective_delta_pdf := fun _ _ _ _ => f1;
  sample_tranparent_pdf := fun _ _ _ _ _ _ => f1;
  sample_tranparent_delta_pdf := fun _ _ _ _ _ => f1;
  sample_refractive_pdf := fun _ _ _ _ _ _ => f1;
  sample_refractive_delta_pdf := fun _ _ _ _ _ => f1;
  sample_gltfpbr_pdf := fun _ _ _ _ _ _ _ => f1;
  sample_passthrough_pdf := fun _ _ _ _ => f1;
  eval_phasefunction := fun _ _ _ => f1;
  sample_phasefunction := fun _ o _ => (- o)%v;
  sample_phasefunction_pdf := fun _ _ _ => f1;
  eval_transmittance := fun _ _ => one3;
  sample_transmittance := fun _ d _ _ => d;
  sample_transmittance_pdf := fun _ _ _ => f1;
  trace_default_seed := 961748941
|}.

Definition accel : @trace_bvh library := @mk_trace_bvh library tt tt.

Definition one_emitter : trace_lights :=
  mk_trace_lights [mk_trace_light 0 invalidid [f1]].

Definition params (s : trace_sampler_type.t) (n : Z) : trace_params :=
  mk_trace_params 0 1 s trace_falsecolor_type.color 1 n (float_of_int 10)
    false false false 0 false false true 1 false 1.

(** A stack of fully transparent surfaces. *)
Definition veils : scene :=
  mk_scene (Some (dull material_type.matte zero3 f0 f1)) up zero3.

(** An opaque matte wall that emits. *)
Definition wall (emit : vec3f) : scene :=
  mk_scene (Some (dull material_type.matte emit f1 f1)) up zero3.

(** A perfect mirror. *)
Definition mirror : material_point := dull material_type.reflective zero3 f1 f0.

End Toy.

(** * Properties *)

(** ** Vocabulary of the statements *)


(** A float that is an infinity or a NaN. *)
Definition fnonfinite (x : float) : Prop := fisfinite x = false.

(** The value of a call that did not throw. *)
Definition ok_value {A : Type} (r : result A) : option A :=
  match r with Ok a => Some a | Throw _ => None end.

(** The parameters with another sampler selected. *)
Definition with_sampler (params : trace_params) (s : trace_sampler_type.t) : trace_params :=
  mk_trace_params (camera params) (resolution params) s (falsecolor params)
    (samples params) (bounces params) (clamp params) (nocaustics params)
    (envhidden params) (tentfilter params) (seed params) (embreebvh params)
    (highqualitybvh params) (noparallel params) (pratio params) (denoise params)
    (batch params).

Section Vocabulary.
Context `{L : Library}.

(** [always c Q]: whatever the generator state, the value [c] computes
    satisfies [Q]. *)
Definition always {A : Type} (c : Rng A) (Q : A -> Prop) : Prop :=
  forall rng, Q (fst (c rng)).

(** A block of the loop body that hands the opacity counter on as it got it. *)
Definition keeps_opbounce (st : path_state) (st' : path_state) : Prop :=
  l_opbounce st' = l_opbounce st.

(** The opacity branch is the only one that repeats a bounce index, it
    is taken only while the counter is at most 128, and it increments the
    counter; an iteration that reaches its end leaves the counter alone.
    [step_post n] says so of one execution of the body entered with the
    counter at [n]. *)
Definition step_post (n : Z) (s : loop_step) : Prop :=
  match s with
  | Continue st' => n <= 128 /\ l_opbounce st' = n + 1
  | Next st' => l_opbounce st' = n
  | Break _ => True
  end.

Definition counts_opacity (body : Z -> path_state -> Rng loop_step) : Prop :=
  forall bounce st, always (body bounce st) (step_post (l_opbounce st)).

(** What shading may answer, given the counter [n] on entry. *)
Definition shade_post (n : Z) (s : shade_step) : Prop :=
  match s with
  | Skip st' => n <= 128 /\ l_opbounce st' = n + 1
  | Shaded st' setup_next =>
      l_opbounce st' = n /\ forall s, l_opbounce (setup_next s) = l_opbounce s
  | Leave _ => True
  end.

Definition shade_counts_opacity (shade : Z -> path_state -> Rng shade_step) : Prop :=
  forall bounce st, always (shade bounce st) (shade_post (l_opbounce st)).

(** The loop over [body] with bound [limit] returns, whatever the ray and
    the generator: with [loop_fuel limit] or more fuel it gives one and the
    same run, which has at most [limit] iterations that are not opacity
    continuations, and at most [129] that are. *)
Definition terminates_within (body : Z -> path_state -> Rng loop_step) (limit : Z) : Prop :=
  forall ray rng, exists run rng',
    (forall fuel, (loop_fuel limit <= fuel)%nat ->
       trace_loop fuel body limit ray rng = (Some run, rng')) /\
    iterations run - continuations run <= Z.max limit 0 /\
    0 <= continuations run <= 129.

(** An integrator returns, and within the bounds above: [trace] is the
    integrator, [body] its loop body and [limit] its loop bound. *)
Definition returns_bounded (trace : ray3f -> trace_params -> Rng trace_result)
    (body : trace_params -> Z -> path_state -> Rng loop_step)
    (limit : trace_params -> Z) : Prop :=
  forall params ray rng, exists run rng',
    (forall fuel, (loop_fuel (limit params) <= fuel)%nat ->
       trace_loop fuel (body params) (limit params) ray rng = (Some run, rng')) /\
    trace ray params rng = (result_of (final run), rng') /\
    iterations run - continuations run <= Z.max (limit params) 0 /\
    0 <= continuations run <= 129.

(** The roulette of an integrator whose body is [body] and whose part
    before [// check weight] is [shade]: when shading reaches that point
    with locals [st1] and a live weight, nothing is drawn and the weight is
    kept up to bounce 3; from bounce 4 on one number [r] is drawn, the path
    ends when [r >= rr_prob], and otherwise the weight is multiplied by
    [1 / rr_prob], where [rr_prob = min(0.99, max(weight))]. *)
Definition roulette_policy (shade : Z -> path_state -> Rng shade_step)
    (body : Z -> path_state -> Rng loop_step) : Prop :=
  forall bounce st rng st1 setup_next rng1,
    shade bounce st rng = (Shaded st1 setup_next, rng1) ->
    weight_dead (l_weight st1) = false ->
    if bounce <=? 3 then body bounce st rng = (Next (setup_next st1), rng1)
    else
      let rr_prob := fmin f_099 (v3max (l_weight st1)) in
      let (r, rng2) := rand1f rng1 in
      body bounce st rng =
        (if (r >=? rr_prob)%f then Break st1
         else Next (setup_next (set_weight st1 (l_weight st1 ^* (f1 / rr_prob))%v)),
         rng2).


End Vocabulary.

(** ** Further vocabulary *)

Section FurtherVocabulary.
Context `{L : Library}.

(** What an integrator returns for a camera ray that meets nothing: the
    environment seen along the ray, unless it is hidden. *)
Definition missed_result (scene : scene_data) (params : trace_params) (ray : ray3f)
    : trace_result :=
  mk_trace_result
    (if envhidden params then zero3
     else (zero3 + one3 * eval_environment scene (ray_d ray))%v)
    false zero3 zero3.

(** A loop body without an opacity branch. *)
Definition never_continues (body : Z -> path_state -> Rng loop_step) : Prop :=
  forall bounce st,
    always (body bounce st)
      (fun s => match s with Continue _ => False | _ => True end).

End FurtherVocabulary.

(** ** Reading the buffers back *)

Section Readback.
Context `{L : Library}.

(** Get resulting render, denoised if requested; first the overload that
    fills an image of the caller, then the one that allocates it. *)
Definition get_image_into (render : image vec4f) (state : trace_state)
    : result (image vec4f) :=
  match check_image render (extents (s_render state)) with
  | Some e => Throw e
  | None =>
      Ok (if image_empty (s_denoised state) then s_render state else s_denoised state)
  end.

Definition get_image (state : trace_state) : result (image vec4f) :=
  get_image_into (make_image (extents (s_render state)) zero4) state.

(** Get resulting render *)
Definition get_rendered_image (state : trace_state) : image vec4f := s_render state.

Definition get_rendered_image_into (img : image vec4f) (state : trace_state)
    : result (image vec4f) :=
  match check_image img (extents (s_render state)) with
  | Some e => Throw e
  | None => Ok (s_render state)
  end.

(** Get denoising buffers *)
Definition get_albedo_image (state : trace_state) : image vec3f := s_albedo state.
Definition get_normal_image (state : trace_state) : image vec3f := s_normal state.

(** The buffers of a state agree in size: albedo, normal, hit counts and
    generators are as large as the render, and so is the denoised buffer
    unless it is empty. *)
Definition sized (state : trace_state) : Prop :=
  extents (s_albedo state) = extents (s_render state) /\
  extents (s_normal state) = extents (s_render state) /\
  extents (s_hits state) = extents (s_render state) /\
  extents (s_rngs state) = extents (s_render state) /\
  (image_empty (s_denoised state) = false ->
   extents (s_denoised state) = extents (s_render state)).

(** The denoised buffer of a state made for [params]: absent when
    denoising is off, and otherwise (in a build without the denoising
    library) a copy of the render. *)
Definition denoised_in_step (params : trace_params) (state : trace_state) : Prop :=
  (denoise params = false -> image_empty (s_denoised state) = true) /\
  (image_empty (s_denoised state) = false -> s_denoised state = s_render state).

(** The denoising library, when present, writes into an image of the
    size of the render. *)
Definition denoiser_keeps_size : Prop :=
  forall filter, oidn_denoise = Some filter ->
    forall render albedo normal, extents (filter render albedo normal) = extents render.

(** What the samples of a batch keep: the sizes, the sample count and
    the denoised buffer. *)
Definition batch_invariant (samples0 : Z) (denoised : image vec4f) (state : trace_state)
    : Prop :=
  sized state /\ s_samples state = samples0 /\ s_denoised state = denoised.

(** The number of calls of [trace_samples] that trace a batch: the least
    [k] with [k * batch >= samples]. *)
Definition batches (params : trace_params) : Z :=
  Z.max 0 ((samples params + batch params - 1) / batch params).

(** What a sample reads and writes: the entries of its pixel in the
    five buffers. *)
Record pixel : Type := mk_pixel {
  p_render : vec4f;
  p_albedo : vec3f;
  p_normal : vec3f;
  p_hits : Z;
  p_rng : rng_state
}.

Definition read_pixel (state : trace_state) (ij : vec2i) : pixel :=
  mk_pixel (image_at zero4 (s_render state) ij) (image_at zero3 (s_albedo state) ij)
    (image_at zero3 (s_normal state) ij) (image_at 0 (s_hits state) ij)
    (image_at default_rng (s_rngs state) ij).

Definition write_pixel (state : trace_state) (ij : vec2i) (p : pixel) : trace_state :=
  mk_trace_state (s_samples state)
    (image_set (s_render state) ij (p_render p))
    (image_set (s_albedo state) ij (p_albedo p))
    (image_set (s_normal state) ij (p_normal p))
    (image_set (s_hits state) ij (p_hits p))
    (image_set (s_rngs state) ij (p_rng p))
    (s_denoised state).

(** The body of [trace_sample] once the sampler is known, on the entries
    of its pixel; [trace_sample_local] below relates the two. *)
Definition sample_pixel (sampler : sampler_func) (scene : scene_data) (b : trace_bvh)
    (ls : trace_lights) (params : trace_params) (size ij : vec2i) (sample : Z)
    (p : pixel) : pixel :=
  let camera := scene_cameras_at scene (camera params) in
  let '(puv, luv, rng) := args2 rand2f rand2f (p_rng p) in
  let ray := sample_camera camera ij size puv luv (tentfilter params) in
  let '(traced, rng) := sampler scene b ls ray params rng in
  let radiance := clamp_radiance params (radiance traced) in
  let weight := (f1 / float_of_int (sample + 1))%f in
  if hit traced then
    mk_pixel (lerp4 (p_render p) (mk_vec4f (vx radiance) (vy radiance) (vz radiance) f1) weight)
      (lerp3 (p_albedo p) (albedo traced) weight)
      (lerp3 (p_normal p) (normal traced) weight) (p_hits p + 1) rng
  else if negb (envhidden params) && negb (scene_environments_empty scene) then
    mk_pixel (lerp4 (p_render p) (mk_vec4f (vx radiance) (vy radiance) (vz radiance) f1) weight)
      (lerp3 (p_albedo p) one3 weight)
      (lerp3 (p_normal p) (- ray_d ray)%v weight) (p_hits p + 1) rng
  else
    mk_pixel (lerp4 (p_render p) zero4 weight) (lerp3 (p_albedo p) zero3 weight)
      (lerp3 (p_normal p) (- ray_d ray)%v weight) (p_hits p) rng.

(** The index of pixel [ij] in a buffer of size [size]. *)
Definition pixel_key (size : vec2i) (ij : vec2i) : Z := yi ij * xi size + xi ij.

(** The states a batch passes through: sized, with a render of size
    [size]. *)
Definition sized_as (size : vec2i) (state : trace_state) : Prop :=
  sized state /\ extents (s_render state) = size.

(** A pixel of an image of width [w]. *)
Definition in_width (w : Z) (ij : vec2i) : Prop := 0 <= xi ij < w /\ 0 <= yi ij.

End Readback.

(** ** Building the lights and the acceleration structure

    What [make_trace_bvh] and [make_trace_lights] use beyond the tracer:
    the sizes of the scene's vectors, the elements of a shape, the
    emission of materials and environments, and the bvh builders. *)

Record vec3i : Type := mk_vec3i { t_x : Z; t_y : Z; t_z : Z }.
Record vec4i : Type := mk_vec4i { q_x : Z; q_y : Z; q_z : Z; q_w : Z }.

Class SceneBuild `{L : Library} : Type := {
  (* yocto_scene.h *)
  scene_instances_size : scene_data -> Z;
  scene_environments_size : scene_data -> Z;
  material_emission : scene_data -> Z -> vec3f;
  environment_emission : environment_data -> vec3f;
  shape_quads_empty : shape_data -> bool;
  shape_triangles_size : shape_data -> Z;
  shape_quads_size : shape_data -> Z;
  shape_triangles_at : shape_data -> Z -> vec3i;
  shape_quads_at : shape_data -> Z -> vec4i;
  shape_positions_at : shape_data -> Z -> vec3f;
  lookup_texture : texture_data -> vec2i -> vec4f;
  (* yocto_math.h, yocto_geometry.h *)
  max4 : vec4f -> float;
  triangle_area : vec3f -> vec3f -> vec3f -> float;
  quad_area : vec3f -> vec3f -> vec3f -> vec3f -> float;
  (* yocto_bvh.h *)
  embree_supported : bool;
  empty_bvh : scene_bvh;
  empty_ebvh : scene_ebvh;
  make_scene_bvh : scene_data -> bool -> bool -> scene_bvh;
  make_scene_ebvh : scene_data -> bool -> bool -> scene_ebvh
}.

Section Setup.
Context `{B : SceneBuild}.

(** Build the Bvh acceleration structure. *)
Definition make_trace_bvh (scene : scene_data) (params : trace_params) : trace_bvh :=
  if embreebvh params && embree_supported
  then @mk_trace_bvh L empty_bvh
         (make_scene_ebvh scene (highqualitybvh params) (noparallel params))
  else @mk_trace_bvh L
         (make_scene_bvh scene (highqualitybvh params) (noparallel params))
         empty_ebvh.

(** [cdf[idx] = value; if (idx != 0) cdf[idx] += cdf[idx - 1];] along the
    indices; [previous] is [cdf[idx - 1]], absent at index 0. *)
Fixpoint cumulate (previous : option float) (values : list float) : list float :=
  match values with
  | [] => []
  | value :: values' =>
      let entry := match previous with
                   | None => value
                   | Some before => (value + before)%f
                   end in
      entry :: cumulate (Some entry) values'
  end.

(** The values the three loops accumulate: the areas of the triangles
    and of the quads of a shape, and the weights of the texels of an
    environment map. *)
Definition triangle_areas (shape : shape_data) : list float :=
  map (fun idx =>
         let t := shape_triangles_at shape idx in
         triangle_area (shape_positions_at shape (t_x t))
           (shape_positions_at shape (t_y t)) (shape_positions_at shape (t_z t)))
    (range 0 (shape_triangles_size shape)).

Definition quad_areas (shape : shape_data) : list float :=
  map (fun idx =>
         let t := shape_quads_at shape idx in
         quad_area (shape_positions_at shape (q_x t))
           (shape_positions_at shape (q_y t)) (shape_positions_at shape (q_z t))
           (shape_positions_at shape (q_w t)))
    (range 0 (shape_quads_size shape)).

Definition texel_weights (texture : texture_data) : list float :=
  let size := max2i (texture_pixelsf_size texture) (texture_pixelsb_size texture) in
  map (fun idx =>
         let ij := mk_vec2i (Z.rem idx (xi size)) (Z.quot idx (xi size)) in
         let th := ((float_of_int (yi ij) + f_half) * pif / float_of_int (yi size))%f in
         let value := lookup_texture texture ij in
         (max4 value * sinf th)%f)
    (range 0 (xi size * yi size)).

Definition triangles_cdf (shape : shape_data) : list float :=
  cumulate None (triangle_areas shape).
Definition quads_cdf (shape : shape_data) : list float :=
  cumulate None (quad_areas shape).
Definition texture_cdf (texture : texture_data) : list float :=
  cumulate None (texel_weights texture).

(** The body of the loop over the instances: [continue], or a light
    added at the end. *)
Definition add_instance_light (scene : scene_data) (lights : list trace_light)
    (handle : Z) : list trace_light :=
  let instance := scene_instances_at scene handle in
  if (material_emission scene (instance_material instance) ==? zero3)%v then lights else
  let shape := scene_shapes_at scene (instance_shape instance) in
  if shape_triangles_empty shape && shape_quads_empty shape then lights else
  let cdf := elements_cdf no_light in
  let cdf := if negb (shape_triangles_empty shape) then triangles_cdf shape else cdf in
  let cdf := if negb (shape_quads_empty shape) then quads_cdf shape else cdf in
  lights ++ [mk_trace_light handle invalidid cdf].

(** The body of the loop over the environments. *)
Definition add_environment_light (scene : scene_data) (lights : list trace_light)
    (handle : Z) : list trace_light :=
  let environment := scene_environments_at scene handle in
  if (environment_emission environment ==? zero3)%v then lights else
  let cdf := elements_cdf no_light in
  let cdf :=
    if negb (environment_emission_tex environment =? invalidid)
    then texture_cdf (scene_textures_at scene (environment_emission_tex environment))
    else cdf in
  lights ++ [mk_trace_light invalidid handle cdf].

(** Init trace lights *)
Definition make_trace_lights (scene : scene_data) (params : trace_params) : trace_lights :=
  let lights := fold_left (add_instance_light scene)
                  (range 0 (scene_instances_size scene)) [] in
  let lights := fold_left (add_environment_light scene)
                  (range 0 (scene_environments_size scene)) lights in
  mk_trace_lights lights.

(** Progressively computes an image: [params.samples] calls of
    [trace_samples], then [get_image]; an exception of a call ends it. *)
Inductive trace_image (scene : scene_data) (params : trace_params)
    : result (image vec4f) -> Prop :=
| trace_image_rendered (state : trace_state) :
    render_run scene (make_trace_bvh scene params) (make_trace_lights scene params) params
      (Z.to_nat (samples params)) (state, None) ->
    trace_image scene params (get_image state)
| trace_image_threw (n : nat) (state : trace_state) (e : exn) :
    (n <= Z.to_nat (samples params))%nat ->
    render_run scene (make_trace_bvh scene params) (make_trace_lights scene params) params
      n (state, Some e) ->
    trace_image scene params (Throw e).

(** An instance light, and an environment light, as [make_trace_lights]
    makes them. *)
Definition instance_light_of (scene : scene_data) (light : trace_light) : Prop :=
  let instance := scene_instances_at scene (light_instance light) in
  let shape := scene_shapes_at scene (instance_shape instance) in
  0 <= light_instance light < scene_instances_size scene /\
  light_environment light = invalidid /\
  (material_emission scene (instance_material instance) ==? zero3)%v = false /\
  shape_triangles_empty shape && shape_quads_empty shape = false /\
  elements_cdf light =
    (if shape_quads_empty shape then triangles_cdf shape else quads_cdf shape).

Definition environment_light_of (scene : scene_data) (light : trace_light) : Prop :=
  let environment := scene_environments_at scene (light_environment light) in
  light_instance light = invalidid /\
  0 <= light_environment light < scene_environments_size scene /\
  (environment_emission environment ==? zero3)%v = false /\
  elements_cdf light =
    (if environment_emission_tex environment =? invalidid then []
     else texture_cdf (scene_textures_at scene (environment_emission_tex environment))).

(** [empty()] and [size()] of the element vectors of a shape agree. *)
Definition sizes_agree : Prop :=
  forall shape,
    (shape_triangles_empty shape = false -> 0 < shape_triangles_size shape) /\
    (shape_quads_empty shape = false -> 0 < shape_quads_size shape).

(** The elements an instance light is sampled over. *)
Definition element_areas (shape : shape_data) : list float :=
  if shape_quads_empty shape then triangle_areas shape else quad_areas shape.

(** The running sum the last entry of a cdf holds. *)
Definition running_sum (values : list float) : float :=
  match values with
  | [] => f0
  | value :: values' => fold_left (fun before value => (value + before)%f) values' value
  end.

End Setup.

(** A build of the toy scenes: one instance of one triangle of area 1,
    and one environment that does not emit; no embree. *)
Module ToyBuild.

Definition build : @SceneBuild Toy.library :=
  @Build_SceneBuild Toy.library
    (* scene_instances_size, scene_environments_size *)
    (fun _ => 1) (fun _ => 1)
    (* material_emission, environment_emission *)
    (fun sc _ => emission (Toy.material_of sc)) (fun _ => zero3)
    (* shape_quads_empty, shape_triangles_size, shape_quads_size *)
    (fun _ => true) (fun _ => 1) (fun _ => 0)
    (* shape_triangles_at, shape_quads_at, shape_positions_at *)
    (fun _ _ => mk_vec3i 0 1 2) (fun _ _ => mk_vec4i 0 1 2 3) (fun _ _ => zero3)
    (* lookup_texture, max4, triangle_area, quad_area *)
    (fun _ _ => zero4) (fun v => wx v) (fun _ _ _ => f1) (fun _ _ _ _ => f1)
    (* embree_supported, empty_bvh, empty_ebvh, make_scene_bvh, make_scene_ebvh *)
    false tt tt (fun _ _ _ => tt) (fun _ _ _ => tt).

End ToyBuild.

(** The toy platform without a hardware thread:
    [std::thread::hardware_concurrency()] answers 0, as it may when the
    number is not computable.  Everything else is as in [Toy.library]. *)
Module ToyIdle.

Definition library : Library :=
  Build_Library
    (@args_order Toy.library) 0 (@oidn_denoise Toy.library) (@cosf Toy.library)
    (@sinf Toy.library) (@acosf Toy.library) (@atan2f Toy.library) (@fmodf Toy.library)
    (@roundf Toy.library) (@pow3 Toy.library) (@std_hash Toy.library) (@frame3f Toy.library)
    (@normalize Toy.library) (@transform_direction Toy.library) (@inverse Toy.library)
    (@rng_state Toy.library) (@default_rng Toy.library) (@make_rng Toy.library)
    (@make_rng_default Toy.library) (@rand1f Toy.library) (@rand2f Toy.library)
    (@rand3f Toy.library) (@rand1i Toy.library) (@sample_uniform Toy.library)
    (@sample_uniform_pdf Toy.library) (@sample_discrete Toy.library)
    (@sample_discrete_pdf Toy.library) (@sample_triangle Toy.library)
    (@sample_sphere Toy.library) (@sample_disk Toy.library) (@srgb_to_rgb Toy.library)
    (@scene_data Toy.library) (@instance_data Toy.library) (@shape_data Toy.library)
    (@environment_data Toy.library) (@texture_data Toy.library) (@camera_data Toy.library)
    (@scene_cameras_at Toy.library) (@scene_instances_at Toy.library)
    (@scene_shapes_at Toy.library) (@scene_textures_at Toy.library)
    (@scene_environments_at Toy.library) (@scene_environments_empty Toy.library)
    (@camera_aspect Toy.library) (@instance_shape Toy.library)
    (@instance_material Toy.library) (@shape_triangles_empty Toy.library)
    (@environment_frame Toy.library) (@environment_emission_tex Toy.library)
    (@texture_pixelsf_size Toy.library) (@texture_pixelsb_size Toy.library)
    (@material_type_to_int Toy.library) (@eval_camera Toy.library)
    (@eval_position Toy.library) (@eval_element_normal Toy.library)
    (@eval_element_normal_at Toy.library) (@eval_shading_position Toy.library)
    (@eval_shading_normal Toy.library) (@eval_shading_normal_at Toy.library)
    (@eval_texcoord Toy.library) (@eval_material Toy.library)
    (@eval_material_at Toy.library) (@eval_environment Toy.library) (@is_delta Toy.library)
    (@is_volumetric Toy.library) (@scene_bvh Toy.library) (@scene_ebvh Toy.library)
    (@ebvh_present Toy.library) (@intersect_scene_bvh Toy.library)
    (@intersect_scene_ebvh Toy.library) (@intersect_instance_bvh Toy.library)
    (@intersect_instance_ebvh Toy.library) (@eval_matte Toy.library)
    (@eval_glossy Toy.library) (@eval_reflective Toy.library)
    (@eval_reflective_delta Toy.library) (@eval_transparent Toy.library)
    (@eval_transparent_delta Toy.library) (@eval_refractive Toy.library)
    (@eval_refractive_delta Toy.library) (@eval_gltfpbr Toy.library)
    (@eval_passthrough Toy.library) (@sample_matte Toy.library) (@sample_glossy Toy.library)
    (@sample_reflective Toy.library) (@sample_reflective_delta Toy.library)
    (@sample_transparent Toy.library) (@sample_transparent_delta Toy.library)
    (@sample_refractive Toy.library) (@sample_refractive_delta Toy.library)
    (@sample_gltfpbr Toy.library) (@sample_passthrough Toy.library)
    (@sample_matte_pdf Toy.library) (@sample_glossy_pdf Toy.library)
    (@sample_reflective_pdf Toy.library) (@sample_reflective_delta_pdf Toy.library)
    (@sample_tranparent_pdf Toy.library) (@sample_tranparent_delta_pdf Toy.library)
    (@sample_refractive_pdf Toy.library) (@sample_refractive_delta_pdf Toy.library)
    (@sample_gltfpbr_pdf Toy.library) (@sample_passthrough_pdf Toy.library)
    (@eval_phasefunction Toy.library) (@sample_phasefunction Toy.library)
    (@sample_phasefunction_pdf Toy.library) (@eval_transmittance Toy.library)
    (@sample_transmittance Toy.library) (@sample_transmittance_pdf Toy.library)
    (@trace_default_seed Toy.library).

End ToyIdle.

(** ** Bounds of the buffers, and the preview *)

Section Bounds.
Context `{L : Library}.

(** [img[ij]] is an entry of the image. *)
Definition in_bounds {T : Type} (img : image T) (ij : vec2i) : Prop :=
  0 <= pixel_index img ij < Z.of_nat (length (pixels img)).

(** An image holds [size.x * size.y] entries. *)
Definition full {T : Type} (img : image T) : Prop :=
  length (pixels img) = Z.to_nat (xi (extents img) * yi (extents img)).

(** The five buffers a sample writes are full and of one size. *)
Definition buffers_full (state : trace_state) : Prop :=
  (full (s_render state) /\ full (s_albedo state) /\ full (s_normal state) /\
   full (s_hits state) /\ full (s_rngs state)) /\
  (extents (s_albedo state) = extents (s_render state) /\
   extents (s_normal state) = extents (s_render state) /\
   extents (s_hits state) = extents (s_render state) /\
   extents (s_rngs state) = extents (s_render state)).

(** [pparams = params; pparams.resolution /= params.pratio;
     pparams.samples = 1;] *)
Definition preview_params (params : trace_params) : trace_params :=
  mk_trace_params (camera params) (Z.quot (resolution params) (pratio params))
    (sampler params) (falsecolor params) 1 (bounces params) (clamp params)
    (nocaustics params) (envhidden params) (tentfilter params) (seed params)
    (embreebvh params) (highqualitybvh params) (noparallel params) (pratio params)
    (denoise params) (batch params).

(** [clamp(ij / params.pratio, vec2i{0, 0}, preview.size() - 1)] *)
Definition preview_pixel (params : trace_params) (preview : image vec4f) (ij : vec2i)
    : vec2i :=
  mk_vec2i (clampi (Z.quot (xi ij) (pratio params)) 0 (xi (extents preview) - 1))
           (clampi (Z.quot (yi ij) (pratio params)) 0 (yi (extents preview) - 1)).

(** [for (auto ij : range(size)) image[ij] = preview[pij];] *)
Definition upsample (params : trace_params) (preview img : image vec4f) (size : vec2i)
    : image vec4f :=
  fold_left
    (fun img ij => image_set img ij (image_at zero4 preview (preview_pixel params preview ij)))
    (range2 size) img.

(** The preview written into [img]; [size] is what [state.size()]
    answers for the state of the full render. *)
Inductive trace_preview (img : image vec4f) (size : vec2i) (scene : scene_data)
    (b : trace_bvh) (ls : trace_lights) (params : trace_params)
    : result (image vec4f) -> Prop :=
| trace_preview_shown (pstate : trace_state) (preview : image vec4f) :
    trace_samples scene b ls (preview_params params)
      (make_trace_state scene (preview_params params)) (pstate, None) ->
    get_image pstate = Ok preview ->
    trace_preview img size scene b ls params (Ok (upsample params preview img size))
| trace_preview_threw (pstate : trace_state) (e : exn) :
    trace_samples scene b ls (preview_params params)
      (make_trace_state scene (preview_params params)) (pstate, Some e) ->
    trace_preview img size scene b ls params (Throw e)
| trace_preview_unread (pstate : trace_state) (e : exn) :
    trace_samples scene b ls (preview_params params)
      (make_trace_state scene (preview_params params)) (pstate, None) ->
    get_image pstate = Throw e ->
    trace_preview img size scene b ls params (Throw e).

End Bounds.

(** ** Floats that are not finite stay so *)

Lemma fdiv_by_zero_nonfinite (x d : float) :
  (d ==? f0)%f = true -> fnonfinite (x / d)%f.
Proof.
  unfold fnonfinite, feq, SFeqb, fdiv.
  destruct d as [sd | sd | | sd md ed]; simpl; try discriminate.
  - intros _. destruct x; reflexivity.
  - destruct sd; discriminate.
  - destruct sd; discriminate.
Qed.

Lemma fadd_nonfinite_l (a b : float) : fnonfinite a -> fnonfinite (a + b)%f.
Proof.
  unfold fnonfinite, fadd.
  destruct a as [sa | sa | | sa ma ea]; simpl; try discriminate; intros _.
  - destruct b as [sb | sb | | sb mb eb]; simpl; try reflexivity.
    destruct sa, sb; reflexivity.
  - destruct b; reflexivity.
Qed.

Lemma fadd_nonfinite_r (a b : float) : fnonfinite b -> fnonfinite (a + b)%f.
Proof.
  unfold fnonfinite, fadd.
  destruct b as [sb | sb | | sb mb eb]; simpl; try discriminate; intros _.
  - destruct a as [sa | sa | | sa ma ea]; simpl; try reflexivity.
    destruct sa, sb; reflexivity.
  - destruct a; reflexivity.
Qed.

Lemma fmul_nonfinite_l (a b : float) : fnonfinite a -> fnonfinite (a * b)%f.
Proof.
  unfold fnonfinite, fmul.
  destruct a as [sa | sa | | sa ma ea]; simpl; try discriminate; intros _.
  - destruct b; reflexivity.
  - destruct b; reflexivity.
Qed.

(** ** The bounce loop terminates *)

Section Loop.
Context `{L : Library}.

Lemma run_loop_bounded (body : Z -> path_state -> Rng loop_step) (limit : Z) :
  counts_opacity body ->
  forall (m : nat) (bounce : Z) (st : path_state) (its conts : Z) (rng : rng_state),
    0 <= l_opbounce st <= 129 ->
    (Z.to_nat (limit - bounce) + Z.to_nat (129 - l_opbounce st) <= m)%nat ->
    exists run rng',
      (forall fuel, (m + 1 <= fuel)%nat ->
         run_loop fuel body limit bounce st its conts rng = (Some run, rng')) /\
      (iterations run - its) - (continuations run - conts) <= Z.max (limit - bounce) 0 /\
      conts <= continuations run <= conts + (129 - l_opbounce st).
Proof.
  intros Hbody m.
  induction m as [| m IH]; intros bounce st its conts rng Hop Hm.
  - (* no budget left: the loop condition fails *)
    exists (mk_loop_run st its conts), rng. split.
    + intros [| fuel] Hfuel; [lia |]. simpl.
      destruct (bounce <? limit) eqn:Hlt; [apply Z.ltb_lt in Hlt; lia | reflexivity].
    + simpl. lia.
  - destruct (bounce <? limit) eqn:Hlt.
    + apply Z.ltb_lt in Hlt.
      pose proof (Hbody bounce st rng) as Hstep.
      destruct (body bounce st rng) as [step rng1] eqn:Hrun.
      unfold step_post in Hstep. simpl in Hstep.
      destruct step as [st' | st' | st'].
      * (* break *)
        exists (mk_loop_run st' (its + 1) conts), rng1. split.
        -- intros [| fuel] Hfuel; [lia |]. simpl.
           assert ((bounce <? limit) = true) as -> by (apply Z.ltb_lt; lia).
           unfold bind; rewrite Hrun; reflexivity.
        -- simpl. lia.
      * (* the opacity branch: same index, counter one up *)
        destruct Hstep as [Hle Hinc].
        destruct (IH (bounce - 1 + 1) st' (its + 1) (conts + 1) rng1)
          as (run & rng' & Hfuel & Hits & Hconts); [lia | lia |].
        exists run, rng'. split.
        -- intros [| fuel] Hge; [lia |]. simpl.
           assert ((bounce <? limit) = true) as -> by (apply Z.ltb_lt; lia).
           unfold bind. rewrite Hrun. apply Hfuel. lia.
        -- replace (bounce - 1 + 1) with bounce in Hits by lia. lia.
      * (* the next index *)
        destruct (IH (bounce + 1) st' (its + 1) conts rng1)
          as (run & rng' & Hfuel & Hits & Hconts); [lia | lia |].
        exists run, rng'. split.
        -- intros [| fuel] Hge; [lia |]. simpl.
           assert ((bounce <? limit) = true) as -> by (apply Z.ltb_lt; lia).
           unfold bind. rewrite Hrun. apply Hfuel. lia.
        -- lia.
    + exists (mk_loop_run st its conts), rng. split.
      * intros [| fuel] Hfuel; [lia |]. simpl. rewrite Hlt. reflexivity.
      * simpl. lia.
Qed.

Lemma counts_opacity_terminates (body : Z -> path_state -> Rng loop_step) (limit : Z) :
  counts_opacity body -> terminates_within body limit.
Proof.
  intros Hbody ray rng.
  destruct (run_loop_bounded body limit Hbody (Z.to_nat limit + 129) 0
              (initial_state ray) 0 0 rng) as (run & rng' & Hfuel & Hits & Hconts).
  - simpl. lia.
  - simpl. replace (limit - 0) with limit by lia. lia.
  - exists run, rng'. split.
    + intros fuel Hge. apply Hfuel. unfold loop_fuel in Hge. lia.
    + simpl in Hconts. replace (limit - 0) with limit in Hits by lia. lia.
Qed.

(** The tail shared by the integrators with a roulette keeps the counter. *)
Lemma end_of_bounce_counts (shade : Z -> path_state -> Rng shade_step) :
  shade_counts_opacity shade ->
  counts_opacity (fun bounce st => bind (shade bounce st) (end_of_bounce bounce)).
Proof.
  intros Hshade bounce st rng. specialize (Hshade bounce st rng).
  unfold shade_post in Hshade. unfold step_post, bind. destruct (shade bounce st rng) as [s rng1]. simpl in Hshade.
  destruct s as [st' | st' | st' setup_next]; simpl; auto.
  destruct Hshade as [Hkeep Hsetup].
  unfold ret.
  destruct (weight_dead (l_weight st')); simpl; auto.
  destruct (3 <? bounce); simpl.
  - unfold bind. destruct (rand1f rng1) as [r rng2].
    destruct (r >=? fmin f_099 (v3max (l_weight st')))%f; simpl; auto.
    rewrite Hsetup. simpl. exact Hkeep.
  - rewrite Hsetup. exact Hkeep.
Qed.

End Loop.

(** ** Every integrator counts its opacity continuations *)

Section Opacity.
Context `{L : Library}.

Lemma always_ret {A : Type} (a : A) (Q : A -> Prop) : Q a -> always (ret a) Q.
Proof. intros H rng. exact H. Qed.

Lemma always_bind {A B : Type} (c : Rng A) (k : A -> Rng B) (R : A -> Prop) (Q : B -> Prop) :
  always c R -> (forall a, R a -> always (k a) Q) -> always (bind c k) Q.
Proof.
  intros Hc Hk rng. unfold bind.
  specialize (Hc rng). destruct (c rng) as [a rng1]. simpl in Hc.
  apply (Hk a Hc rng1).
Qed.

Lemma always_any {A : Type} (c : Rng A) : always c (fun _ => True).
Proof. intros rng. exact I. Qed.

Lemma always_bind_ret {A B : Type} (a : A) (k : A -> Rng B) (Q : B -> Prop) :
  always (k a) Q -> always (bind (ret a) k) Q.
Proof. intros H rng. exact (H rng). Qed.

Lemma always_bind_assoc {A B C : Type} (c : Rng A) (k1 : A -> Rng B) (k2 : B -> Rng C)
    (Q : C -> Prop) :
  always (bind c (fun a => bind (k1 a) k2)) Q -> always (bind (bind c k1) k2) Q.
Proof.
  intros H rng. specialize (H rng). unfold bind in *.
  destruct (c rng) as [a rng1]. destruct (k1 a rng1) as [x rng2]. exact H.
Qed.

(** The blocks shared by the integrators. *)

Lemma volume_transmission_keeps st intersection :
  always (volume_transmission st intersection)
    (fun r => keeps_opbounce st (fst (fst r))).
Proof.
  unfold volume_transmission. destruct (l_volume_stack st) as [| vsdf stack].
  - apply always_ret. reflexivity.
  - eapply always_bind; [apply always_any |]. intros [r1 r2] _.
    apply always_ret. reflexivity.
Qed.

Lemma correct_roughness_keeps params st material :
  keeps_opbounce st (fst (correct_roughness params st material)).
Proof. unfold correct_roughness. destruct (nocaustics params); reflexivity. Qed.

Lemma set_hit_variables_keeps bounce st material normal :
  keeps_opbounce st (set_hit_variables bounce st material normal).
Proof. unfold set_hit_variables. destruct (bounce =? 0); reflexivity. Qed.

Lemma update_volume_stack_keeps scene intersection normal outgoing incoming st :
  keeps_opbounce st (update_volume_stack scene intersection normal outgoing incoming st).
Proof.
  unfold update_volume_stack.
  destruct (is_volumetric scene intersection && _); [| reflexivity].
  destruct (l_volume_stack st); reflexivity.
Qed.

Lemma direct_lighting_keeps scene b ls material position normal outgoing st :
  always (direct_lighting scene b ls material position normal outgoing st)
    (keeps_opbounce st).
Proof.
  unfold direct_lighting. destruct (negb (is_delta material)).
  - eapply always_bind; [apply always_any |]. intros incoming _.
    apply always_ret. destruct (_ && _); reflexivity.
  - apply always_ret. reflexivity.
Qed.

Lemma mis_sample_keeps scene b ls material position normal outgoing sample_light st :
  always (mis_sample scene b ls material position normal outgoing sample_light st)
    (fun r => keeps_opbounce st (snd r)).
Proof.
  unfold mis_sample. eapply always_bind; [apply always_any |]. intros incoming _.
  destruct (incoming ==? zero3)%v; [apply always_ret; reflexivity |].
  destruct (_ && _); apply always_ret; [| reflexivity].
  destruct (negb sample_light); reflexivity.
Qed.

Lemma opacity_skip_post st position :
  shade_post (l_opbounce st) (opacity_skip st position).
Proof.
  unfold opacity_skip. destruct (128 <? l_opbounce st) eqn:Hgt; simpl; [exact I | lia].
Qed.

Lemma shade_volume_post scene b ls st intersection vsdf :
  always (shade_volume scene b ls st intersection vsdf) (shade_post (l_opbounce st)).
Proof.
  unfold shade_volume.
  eapply always_bind; [apply always_any |]. intros u _.
  eapply always_bind; [apply always_any |]. intros incoming _.
  destruct (incoming ==? zero3)%v; apply always_ret; simpl; auto.
Qed.

Lemma opacity_skip_post_at n st position :
  l_opbounce st = n -> shade_post n (opacity_skip st position).
Proof. intros <-. apply opacity_skip_post. Qed.

(** Proof steps for a loop body: one rule per construct of the body. *)

Ltac block :=
  first [ apply volume_transmission_keeps
        | apply direct_lighting_keeps
        | apply mis_sample_keeps
        | apply always_any ].

Ltac keep_step :=
  match goal with
  | |- context [l_opbounce (set_hit_variables ?b ?s ?m ?n)] =>
      rewrite (set_hit_variables_keeps b s m n : l_opbounce _ = _)
  | |- context [l_opbounce (update_volume_stack ?a ?b ?c ?d ?e ?s)] =>
      rewrite (update_volume_stack_keeps a b c d e s : l_opbounce _ = _)
  | |- context [l_opbounce (fst (correct_roughness ?p ?s ?m))] =>
      rewrite (correct_roughness_keeps p s m : l_opbounce _ = _)
  | |- context [l_opbounce (if ?c then _ else _)] => destruct c
  | H : context [l_opbounce (set_hit_variables ?b ?s ?m ?n)] |- _ =>
      rewrite (set_hit_variables_keeps b s m n : l_opbounce _ = _) in H
  | H : context [l_opbounce (update_volume_stack ?a ?b ?c ?d ?e ?s)] |- _ =>
      rewrite (update_volume_stack_keeps a b c d e s : l_opbounce _ = _) in H
  | H : context [l_opbounce (fst (correct_roughness ?p ?s ?m))] |- _ =>
      rewrite (correct_roughness_keeps p s m : l_opbounce _ = _) in H
  | H : context [l_opbounce (if ?c then _ else _)] |- _ => destruct c
  | H : correct_roughness ?p ?s ?m = (_, _) |- _ =>
      let K := fresh in
      pose proof (correct_roughness_keeps p s m) as K;
      rewrite H in K; unfold keeps_opbounce in K; simpl in K; clear H
  end.

Ltac keep_tac :=
  unfold keeps_opbounce, mul_weight, add_radiance in *; simpl in *;
  repeat (keep_step; simpl in * );
  try congruence; try lia.

Ltac wp :=
  lazymatch goal with
  | |- always (ret _) _ => apply always_ret; simpl
  | |- always (bind (ret _) _) _ => apply always_bind_ret
  | |- always (bind (bind _ _) _) _ => apply always_bind_assoc
  | |- always (bind (if ?c then _ else _) _) _ => destruct c eqn:?
  | |- always (bind (match ?x with _ => _ end) _) _ =>
      first [ is_var x; destruct x | destruct x eqn:? ]
  | |- always (bind _ _) _ => eapply always_bind; [block | intros ? ?]
  | |- always (shade_volume _ _ _ ?s _ _) (shade_post ?n) =>
      replace n with (l_opbounce s) by keep_tac; apply shade_volume_post
  | |- always (if ?c then _ else _) _ => destruct c eqn:?
  | |- always (match ?x with _ => _ end) _ =>
      first [ is_var x; destruct x | destruct x eqn:? ]
  | |- always (let _ := _ in _) _ => cbv zeta
  end.

Ltac finish :=
  first [ exact I
        | apply opacity_skip_post_at; keep_tac
        | split; [keep_tac | intros; keep_tac]
        | keep_tac ].

Ltac by_blocks := repeat wp; finish.

Lemma trace_naive_shade_counts scene b ls params :
  shade_counts_opacity (trace_naive_shade scene b ls params).
Proof.
  intros bounce st.
  unfold trace_naive_shade, opacity_test, draw_bsdfcos, draw_delta. by_blocks.
Qed.

Lemma trace_lightsampling_shade_counts scene b ls params :
  shade_counts_opacity (trace_lightsampling_shade scene b ls params).
Proof.
  intros bounce st.
  unfold trace_lightsampling_shade, opacity_test, draw_bsdfcos, draw_delta. by_blocks.
Qed.

Lemma trace_furnace_shade_counts scene b ls params :
  shade_counts_opacity (trace_furnace_shade scene b ls params).
Proof.
  intros bounce st.
  unfold trace_furnace_shade, opacity_test, draw_bsdfcos, draw_delta. by_blocks.
Qed.

Lemma trace_pathtest_shade_counts scene b ls params :
  shade_counts_opacity (trace_pathtest_shade scene b ls params).
Proof.
  intros bounce st.
  unfold trace_pathtest_shade, draw_mixture, draw_bsdfcos, draw_lights, draw_delta.
  by_blocks.
Qed.

Lemma trace_path_shade_counts scene b ls params :
  shade_counts_opacity (trace_path_shade scene b ls params).
Proof.
  intros bounce st.
  unfold trace_path_shade, opacity_test, draw_mixture, draw_bsdfcos, draw_lights, draw_delta.
  by_blocks.
Qed.

Lemma trace_pathdirect_shade_counts scene b ls params :
  shade_counts_opacity (trace_pathdirect_shade scene b ls params).
Proof.
  intros bounce st.
  unfold trace_pathdirect_shade, opacity_test, draw_mixture, draw_bsdfcos, draw_lights,
    draw_delta.
  by_blocks.
Qed.

Lemma trace_pathmis_shade_counts scene b ls params :
  shade_counts_opacity (trace_pathmis_shade scene b ls params).
Proof.
  intros bounce st.
  unfold trace_pathmis_shade, opacity_test, draw_scattering, draw_bsdfcos, draw_lights,
    draw_delta.
  by_blocks.
Qed.

Lemma trace_eyelight_body_counts scene b ls params :
  counts_opacity (trace_eyelight_body scene b ls params).
Proof.
  intros bounce st. unfold trace_eyelight_body, opacity_test, draw_delta.
  repeat wp; try exact I; try (unfold step_post; keep_tac; fail).
  unfold opacity_skip. destruct (128 <? l_opbounce st) eqn:Hgt; simpl; [exact I | lia].
Qed.

(** An integrator built on a loop that counts its opacity continuations
    returns what the loop leaves, within the bounds. *)
Lemma integrator_returns (body : trace_params -> Z -> path_state -> Rng loop_step)
    (limit : trace_params -> Z) :
  (forall params, counts_opacity (body params)) ->
  returns_bounded (integrator body limit) body limit.
Proof.
  intros Hbody params ray rng.
  destruct (counts_opacity_terminates (body params) (limit params) (Hbody params) ray rng)
    as (run & rng' & Hfuel & Hits & Hconts).
  exists run, rng'. repeat split; try lia; try exact Hfuel.
  unfold integrator, bind. rewrite (Hfuel (loop_fuel (limit params))) by lia.
  reflexivity.
Qed.

End Opacity.

(** ** C1: termination of the integrators *)

Section Termination.
Context `{L : Library}.

(** C1, as amended.  Each of the integrators [trace_path],
    [trace_pathdirect], [trace_pathmis], [trace_naive],
    [trace_lightsampling], [trace_furnace] and [trace_eyelight] returns for
    every scene, bounce limit, camera ray and generator state: its loop
    runs at most [N = params.bounces] iterations that are not opacity
    continuations ([max(N, 4)] for [trace_eyelight]) and at most 129
    opacity continuations, and the integrator returns the locals the loop
    leaves. *)
Theorem integrators_terminate (scene : scene_data) (b : trace_bvh) (ls : trace_lights) :
  returns_bounded (trace_path scene b ls) (trace_path_body scene b ls) bounces /\
  returns_bounded (trace_pathdirect scene b ls) (trace_pathdirect_body scene b ls) bounces /\
  returns_bounded (trace_pathmis scene b ls) (trace_pathmis_body scene b ls) bounces /\
  returns_bounded (trace_naive scene b ls) (trace_naive_body scene b ls) bounces /\
  returns_bounded (trace_lightsampling scene b ls)
    (trace_lightsampling_body scene b ls) bounces /\
  returns_bounded (trace_furnace scene b ls) (trace_furnace_body scene b ls) bounces /\
  returns_bounded (trace_eyelight scene b ls) (trace_eyelight_body scene b ls)
    (fun params => Z.max (bounces params) 4).
Proof.
  repeat split.
  - apply integrator_returns. intros params.
    apply (end_of_bounce_counts _ (trace_path_shade_counts scene b ls params)).
  - apply integrator_returns. intros params.
    apply (end_of_bounce_counts _ (trace_pathdirect_shade_counts scene b ls params)).
  - apply integrator_returns. intros params.
    apply (end_of_bounce_counts _ (trace_pathmis_shade_counts scene b ls params)).
  - apply integrator_returns. intros params.
    apply (end_of_bounce_counts _ (trace_naive_shade_counts scene b ls params)).
  - apply integrator_returns. intros params.
    apply (end_of_bounce_counts _ (trace_lightsampling_shade_counts scene b ls params)).
  - apply integrator_returns. intros params.
    apply (end_of_bounce_counts _ (trace_furnace_shade_counts scene b ls params)).
  - apply (integrator_returns (trace_eyelight_body scene b ls) eyelight_limit).
    intros params. apply trace_eyelight_body_counts.
Qed.

(** The integrator left out of the claim has no opacity branch at all. *)
Lemma trace_pathtest_terminates (scene : scene_data) (b : trace_bvh) (ls : trace_lights) :
  returns_bounded (trace_pathtest scene b ls) (trace_pathtest_body scene b ls) bounces.
Proof.
  apply integrator_returns. intros params.
  apply (end_of_bounce_counts _ (trace_pathtest_shade_counts scene b ls params)).
Qed.

End Termination.

Section TerminationExamples.
#[local] Existing Instance Toy.library.

(** C1, the claim as stated fails twice.  Before a stack of fully
    transparent surfaces [trace_naive] takes 129 opacity continuations
    (the guard [opbounce++ > 128] lets the counter values 0 to 128
    through), more than the 128 of the claim; and with [bounces = 0]
    [trace_eyelight] still shades one surface, more than [N = 0]. *)
Lemma opacity_steps_exceed_claim :
  (exists run rng',
     trace_loop (loop_fuel 1)
       (trace_naive_body Toy.veils Toy.accel Toy.one_emitter
          (Toy.params trace_sampler_type.naive 1))
       (bounces (Toy.params trace_sampler_type.naive 1))
       (mk_ray zero3 (- Toy.up)%v) 0 = (Some run, rng') /\
     128 < continuations run) /\
  (exists run rng',
     trace_loop (loop_fuel 4)
       (trace_eyelight_body (Toy.wall zero3) Toy.accel Toy.one_emitter
          (Toy.params trace_sampler_type.eyelight 0))
       (eyelight_limit (Toy.params trace_sampler_type.eyelight 0))
       (mk_ray zero3 (- Toy.up)%v) 0 = (Some run, rng') /\
     bounces (Toy.params trace_sampler_type.eyelight 0)
       < iterations run - continuations run /\
     l_hit (final run) = true).
Proof.
  split.
  - eexists. eexists. split; [vm_compute; reflexivity | vm_compute; reflexivity].
  - eexists. eexists. split; [vm_compute; reflexivity |].
    split; vm_compute; reflexivity.
Qed.

End TerminationExamples.

(** ** C4: Russian roulette *)

Section Roulette.
Context `{L : Library}.

Lemma end_of_bounce_roulette (shade : Z -> path_state -> Rng shade_step) :
  roulette_policy shade (fun bounce st => bind (shade bounce st) (end_of_bounce bounce)).
Proof.
  intros bounce st rng st1 setup_next rng1 Hshade Hlive.
  unfold bind. rewrite Hshade. simpl. rewrite Hlive.
  destruct (bounce <=? 3) eqn:Hwarm.
  - assert ((3 <? bounce) = false) as -> by lia. reflexivity.
  - assert ((3 <? bounce) = true) as -> by lia.
    unfold bind, ret. destruct (rand1f rng1) as [r rng2].
    destruct (r >=? fmin f_099 (v3max (l_weight st1)))%f; reflexivity.
Qed.

(** C4.  In each integrator that has a roulette ([trace_path],
    [trace_pathdirect], [trace_pathmis], [trace_pathtest],
    [trace_lightsampling], [trace_naive], [trace_furnace]) it applies only
    at a bounce index greater than 3: up to index 3 nothing is drawn and
    the weight is kept; from index 4 on the path goes on exactly when the
    number drawn is below [min(0.99, max(weight))], and the weight is then
    multiplied by the reciprocal of that probability; otherwise the path
    ends. *)
Theorem russian_roulette_policy (scene : scene_data) (b : trace_bvh) (ls : trace_lights)
    (params : trace_params) :
  roulette_policy (trace_path_shade scene b ls params) (trace_path_body scene b ls params) /\
  roulette_policy (trace_pathdirect_shade scene b ls params)
    (trace_pathdirect_body scene b ls params) /\
  roulette_policy (trace_pathmis_shade scene b ls params)
    (trace_pathmis_body scene b ls params) /\
  roulette_policy (trace_pathtest_shade scene b ls params)
    (trace_pathtest_body scene b ls params) /\
  roulette_policy (trace_lightsampling_shade scene b ls params)
    (trace_lightsampling_body scene b ls params) /\
  roulette_policy (trace_naive_shade scene b ls params) (trace_naive_body scene b ls params) /\
  roulette_policy (trace_furnace_shade scene b ls params)
    (trace_furnace_body scene b ls params).
Proof.
  repeat split; apply end_of_bounce_roulette.
Qed.


End Roulette.

(** ** C6: the guards on radiance and weight *)

Section Guards.
Context `{L : Library}.







End Guards.

(** ** C8: the eyelight integrator *)

Section Eyelight.
Context `{L : Library}.




End Eyelight.

(** ** C5: delta materials *)

Section Delta.
Context `{L : Library}.

(** C5.  A material point of roughness 0 has a zero [eval_bsdfcos] for
    all directions; and for a reflective material of roughness 0
    [sample_delta] is the mirror direction the shading library computes
    from the normal and the outgoing direction, whatever the random
    input [rnl]. *)
Theorem delta_correctness (material : material_point) (n outgoing : vec3f) :
  (roughness material ==? f0)%f = true ->
  (forall incoming, eval_bsdfcos material n outgoing incoming = zero3) /\
  (type material = material_type.reflective ->
   forall rnl rnl',
     sample_delta material n outgoing rnl =
       sample_reflective_delta (color material) n outgoing /\
     sample_delta material n outgoing rnl = sample_delta material n outgoing rnl').
Proof.
  intros Hsmooth. split.
  - intros incoming. unfold eval_bsdfcos. rewrite Hsmooth. reflexivity.
  - intros Hmirror rnl rnl'. unfold sample_delta, fne.
    unfold feq in Hsmooth. rewrite Hsmooth, Hmirror. split; reflexivity.
Qed.

End Delta.

(** ** C10 and C2: the two dispatchers *)

Section Dispatch.
Context `{L : Library}.

(** C10.  [is_sampler_lit] throws "sampler unknown" for [lightsampling]
    and [pathtest], both of which [get_trace_sampler_func] maps to an
    integrator; it answers true for [path], [pathdirect], [pathmis],
    [naive] and [furnace], and false for [eyelight] and [falsecolor]. *)
Theorem is_sampler_lit_cases (params : trace_params) :
  is_sampler_lit (with_sampler params trace_sampler_type.lightsampling)
    = Throw (runtime_error "sampler unknown") /\
  is_sampler_lit (with_sampler params trace_sampler_type.pathtest)
    = Throw (runtime_error "sampler unknown") /\
  get_trace_sampler_func (with_sampler params trace_sampler_type.lightsampling)
    = Ok trace_lightsampling /\
  get_trace_sampler_func (with_sampler params trace_sampler_type.pathtest)
    = Ok trace_pathtest /\
  is_sampler_lit (with_sampler params trace_sampler_type.path) = Ok true /\
  is_sampler_lit (with_sampler params trace_sampler_type.pathdirect) = Ok true /\
  is_sampler_lit (with_sampler params trace_sampler_type.pathmis) = Ok true /\
  is_sampler_lit (with_sampler params trace_sampler_type.naive) = Ok true /\
  is_sampler_lit (with_sampler params trace_sampler_type.furnace) = Ok true /\
  is_sampler_lit (with_sampler params trace_sampler_type.eyelight) = Ok false /\
  is_sampler_lit (with_sampler params trace_sampler_type.falsecolor) = Ok false.
Proof. repeat split. Qed.

(** C2, as amended.  An unrecognized sampler value raises "sampler
    unknown" at dispatch: in [get_trace_sampler_func], hence in every
    [trace_sample], and in [is_sampler_lit].  An unrecognized false-color
    value raises nothing: the falsecolor sampler is dispatched as usual,
    and [trace_falsecolor] takes its default branch, giving the color
    [srgb_to_rgb] of black with [hit = true] for a ray that meets the
    scene, and the empty result for one that misses. *)
Theorem unrecognized_enums (scene : scene_data) (b : trace_bvh) (ls : trace_lights)
    (params : trace_params) (v : Z) :
  (sampler params = trace_sampler_type.unrecognized v ->
   get_trace_sampler_func params = Throw (runtime_error "sampler unknown") /\
   is_sampler_lit params = Throw (runtime_error "sampler unknown") /\
   forall state ij sample,
     trace_sample state scene b ls ij sample params
       = Throw (runtime_error "sampler unknown")) /\
  (sampler params = trace_sampler_type.falsecolor ->
   falsecolor params = trace_falsecolor_type.unrecognized v ->
   get_trace_sampler_func params = Ok trace_falsecolor /\
   forall ray rng,
     trace_falsecolor scene b ls ray params rng =
       (let intersection := intersect_scene b scene ray false in
        if isec_hit intersection
        then mk_trace_result (srgb_to_rgb zero3) true
               (color (eval_material scene intersection))
               (eval_shading_normal scene intersection (- ray_d ray)%v)
        else empty_result,
        rng)).
Proof.
  split.
  - intros Hsampler. unfold get_trace_sampler_func, is_sampler_lit, trace_sample.
    unfold get_trace_sampler_func. rewrite Hsampler. repeat split.
  - intros Hsampler Hfalse. unfold get_trace_sampler_func. rewrite Hsampler.
    split; [reflexivity |]. intros ray rng.
    unfold trace_falsecolor, falsecolor_result, ret. rewrite Hfalse. cbv zeta.
    destruct (isec_hit (intersect_scene b scene ray false)); reflexivity.
Qed.

End Dispatch.

(** ** C3: the light pdf in degenerate configurations *)

Section LightsPdf.
Context `{L : Library}.

Lemma instance_light_pdf_nonfinite n scene b light position direction next_position lpdf :
  fnonfinite lpdf ->
  fnonfinite (instance_light_pdf n scene b light position direction next_position lpdf).
Proof.
  revert next_position lpdf.
  induction n as [| n IH]; intros next_position lpdf Hlpdf; simpl; [exact Hlpdf |].
  destruct (negb (isec_hit _)); [exact Hlpdf |].
  apply IH. apply fadd_nonfinite_l. exact Hlpdf.
Qed.

Lemma light_pdf_nonfinite scene b position direction light pdf :
  fnonfinite pdf -> fnonfinite (light_pdf scene b position direction light pdf).
Proof.
  intros Hpdf. unfold light_pdf.
  destruct (negb (light_instance light =? invalidid)).
  - apply fadd_nonfinite_l. exact Hpdf.
  - destruct (negb (light_environment light =? invalidid)); [| exact Hpdf].
    destruct (negb (environment_emission_tex _ =? invalidid));
      apply fadd_nonfinite_l; exact Hpdf.
Qed.

Lemma lights_pdf_nonfinite scene b position direction ls pdf :
  fnonfinite pdf ->
  fnonfinite (fold_left (fun pdf light => light_pdf scene b position direction light pdf)
                ls pdf).
Proof.
  revert pdf. induction ls as [| light ls IH]; intros pdf Hpdf; simpl; [exact Hpdf |].
  apply IH. apply light_pdf_nonfinite. exact Hpdf.
Qed.

Lemma instance_light_pdf_step n scene b light position direction next_position lpdf :
  instance_light_pdf (S n) scene b light position direction next_position lpdf =
    let instance := scene_instances_at scene (light_instance light) in
    let intersection :=
      intersect_instance b scene (light_instance light)
        (mk_ray next_position direction) false in
    if negb (isec_hit intersection) then lpdf else
    let lposition :=
      eval_position scene instance (isec_element intersection) (isec_uv intersection) in
    let lnormal := eval_element_normal_at scene instance (isec_element intersection) in
    let area := back (elements_cdf light) in
    instance_light_pdf n scene b light position direction
      (lposition + direction ^* f_1em3)%v
      (lpdf + distance_squared lposition position
              / (fabs (dot lnormal direction) * area))%f.
Proof. reflexivity. Qed.

(** One light whose first intersection has a zero denominator. *)
Lemma light_pdf_degenerate scene b position direction light pdf :
  light_instance light <> invalidid ->
  let intersection :=
    intersect_instance b scene (light_instance light) (mk_ray position direction) false in
  let instance := scene_instances_at scene (light_instance light) in
  let lnormal := eval_element_normal_at scene instance (isec_element intersection) in
  isec_hit intersection = true ->
  (fabs (dot lnormal direction) * back (elements_cdf light) ==? f0)%f = true ->
  fnonfinite (light_pdf scene b position direction light pdf).
Proof.
  intros Hinstance intersection instance lnormal Hhit Hzero.
  unfold light_pdf.
  assert ((light_instance light =? invalidid) = false) as -> by lia.
  cbn [negb]. cbv iota zeta.
  apply fadd_nonfinite_r.
  change 100%nat with (S 99). rewrite instance_light_pdf_step.
  cbv zeta. fold intersection. rewrite Hhit. cbn [negb]. cbv iota.
  apply instance_light_pdf_nonfinite. apply fadd_nonfinite_r.
  apply fdiv_by_zero_nonfinite. exact Hzero.
Qed.

(** C3, as amended.  [sample_lights_pdf] has no guard of its own: when
    the ray from [position] along [direction] meets an emitting instance
    of the light set at an element whose denominator
    [abs(dot(lnormal, direction)) * area] is zero (a zero area, or a
    normal perpendicular to the direction), the quotient is taken all the
    same and the value returned is an infinity or a NaN, never 0. *)
Theorem sample_lights_pdf_degenerate (scene : scene_data) (b : trace_bvh)
    (ls : trace_lights) (position direction : vec3f) (light : trace_light) :
  In light (lights ls) ->
  light_instance light <> invalidid ->
  let intersection :=
    intersect_instance b scene (light_instance light) (mk_ray position direction) false in
  let instance := scene_instances_at scene (light_instance light) in
  let lnormal := eval_element_normal_at scene instance (isec_element intersection) in
  isec_hit intersection = true ->
  (fabs (dot lnormal direction) * back (elements_cdf light) ==? f0)%f = true ->
  fnonfinite (sample_lights_pdf scene b ls position direction) /\
  sample_lights_pdf scene b ls position direction <> f0.
Proof.
  intros Hin Hinstance intersection instance lnormal Hhit Hzero.
  assert (fnonfinite (sample_lights_pdf scene b ls position direction)) as Hnon.
  { unfold sample_lights_pdf. apply fmul_nonfinite_l.
    generalize f0 as pdf.
    induction (lights ls) as [| light' rest IH]; intros pdf; [destruct Hin |].
    simpl. destruct Hin as [-> | Hin].
    - apply lights_pdf_nonfinite.
      apply light_pdf_degenerate; assumption.
    - apply IH. exact Hin. }
  split; [exact Hnon |].
  intros Hzero'. unfold fnonfinite in Hnon. rewrite Hzero' in Hnon. discriminate.
Qed.

End LightsPdf.

(** ** C9 and C7: the render state *)

Section Progressive.
Context `{L : Library}.

(** C9.  Once the sample count of the state has reached
    [params.samples], [trace_samples] returns at once with the state as
    it was (accumulators, sample count, generators) and without an
    exception, and [trace_start] leaves the context as it was and
    launches no task. *)
Theorem samples_reached_is_noop (scene : scene_data) (b : trace_bvh) (ls : trace_lights)
    (params : trace_params) (state : trace_state) (context : trace_context) :
  s_samples state >= samples params ->
  trace_samples scene b ls params state (state, None) /\
  (forall out, trace_samples scene b ls params state out -> out = (state, None)) /\
  trace_start context state scene b ls params = (context, None).
Proof.
  intros Hreached. split; [| split].
  - apply trace_samples_return. exact Hreached.
  - intros out Hrun. inversion Hrun; subst; [reflexivity | lia | lia].
  - unfold trace_start.
    assert ((s_samples state >=? samples params) = true) as -> by lia.
    reflexivity.
Qed.

(** Without parallelism a call of [trace_samples] has one outcome. *)
Lemma trace_samples_noparallel_functional scene b ls params state out1 out2 :
  noparallel params = true ->
  trace_samples scene b ls params state out1 ->
  trace_samples scene b ls params state out2 ->
  out1 = out2.
Proof.
  intros Hseq Hrun1 Hrun2.
  inversion Hrun1; subst; inversion Hrun2; subst;
    try reflexivity; try lia; congruence.
Qed.

(** C7.  With [noparallel = true], two complete runs of
    [make_trace_state] followed by the same number of [trace_samples]
    calls, for the same scene and parameters (seed and sample count
    among them), end in the same outcome; the render, albedo and normal
    buffers are equal bit for bit. *)
Theorem noparallel_is_deterministic (scene : scene_data) (b : trace_bvh)
    (ls : trace_lights) (params : trace_params) (n : nat)
    (out1 out2 : trace_state * option exn) :
  noparallel params = true ->
  render_run scene b ls params n out1 ->
  render_run scene b ls params n out2 ->
  out1 = out2 /\
  s_render (fst out1) = s_render (fst out2) /\
  s_albedo (fst out1) = s_albedo (fst out2) /\
  s_normal (fst out1) = s_normal (fst out2).
Proof.
  intros Hseq Hrun1 Hrun2.
  assert (out1 = out2) as ->; [| repeat split].
  revert out2 Hrun2.
  induction Hrun1 as [| n state1 out1 Hprev1 IH Hstep1]; intros out2 Hrun2.
  - inversion Hrun2; subst. reflexivity.
  - inversion Hrun2 as [| n' state2 out2' Hprev2 Hstep2]; subst.
    specialize (IH _ Hprev2). injection IH as ->.
    exact (trace_samples_noparallel_functional _ _ _ _ _ _ _ Hseq Hstep1 Hstep2).
Qed.

End Progressive.

(** ** Concrete scenes *)

Section Examples.
#[local] Existing Instance Toy.library.

Definition camera_ray : ray3f := mk_ray zero3 (- Toy.up)%v.
Definition naive6 : trace_params := Toy.params trace_sampler_type.naive 6.
Definition naive1 : trace_params := Toy.params trace_sampler_type.naive 1.
Definition bright : path_state := set_weight (initial_state camera_ray) (mk_vec3f f4 f4 f4).
Definition glowing : Toy.scene := Toy.wall (mk_vec3f (float_of_int 39) f0 f0).
Definition grazing : Toy.scene := Toy.mk_scene None Toy.up zero3.
Definition facing : Toy.scene := Toy.mk_scene None Toy.ahead zero3.
Definition flat_emitter : trace_lights := mk_trace_lights [mk_trace_light 0 invalidid [f0]].
Definition with_falsecolor (fc : trace_falsecolor_type.t) : trace_params :=
  mk_trace_params 0 1 trace_sampler_type.falsecolor fc 1 1 (float_of_int 10)
    false false false 0 false false true 1 false 1.
Definition pixel00 : vec2i := mk_vec2i 0 0.

(** C4 at work: at bounce 4, with a weight of 2 after shading, the
    probability is 0.99, the draw 0.5 lets the path go on, and the weight
    is scaled by [1 / 0.99]. *)
Lemma russian_roulette_witness :
  exists st1 setup_next rng1,
    trace_naive_shade (Toy.wall zero3) Toy.accel Toy.one_emitter naive6 4 bright 0
      = (Shaded st1 setup_next, rng1) /\
    weight_dead (l_weight st1) = false /\
    trace_naive_body (Toy.wall zero3) Toy.accel Toy.one_emitter naive6 4 bright 0 =
      (Next (setup_next (set_weight st1 (l_weight st1 ^* (f1 / f_099))%v)), rng1 + 1).
Proof.
  eexists _, _, _. split; [vm_compute; reflexivity |].
  split; [vm_compute; reflexivity |].
  exact (proj1 (proj2 (proj2 (proj2 (proj2 (proj2
           (russian_roulette_policy (L := Toy.library) (Toy.wall zero3) Toy.accel Toy.one_emitter naive6))))))
           4 bright 0 _ _ _ eq_refl eq_refl).
Defined.

(** C5 at work on a perfect mirror. *)
Lemma delta_correctness_witness :
  (roughness Toy.mirror ==? f0)%f = true /\
  (forall incoming, eval_bsdfcos Toy.mirror Toy.up Toy.up incoming = zero3) /\
  forall rnl rnl',
    sample_delta Toy.mirror Toy.up Toy.up rnl = sample_delta Toy.mirror Toy.up Toy.up rnl'.
Proof.
  split; [reflexivity |].
  destruct (delta_correctness (L := Toy.library) Toy.mirror Toy.up Toy.up eq_refl) as [Heval Hsample].
  split; [exact Heval |].
  intros rnl rnl'. exact (proj2 (Hsample eq_refl rnl rnl')).
Defined.


(** C9 at work: a state that already holds the one sample asked for. *)
Lemma samples_reached_witness :
  let state := set_samples (make_trace_state glowing naive1) 1 in
  let context := make_trace_context naive1 in
  trace_samples glowing Toy.accel Toy.one_emitter naive1 state (state, None) /\
  trace_start context state glowing Toy.accel Toy.one_emitter naive1 = (context, None).
Proof.
  intros state context.
  destruct (samples_reached_is_noop (L := Toy.library) glowing Toy.accel Toy.one_emitter naive1 state context
              ltac:(vm_compute; discriminate)) as (Hrun & _ & Hstart).
  split; [exact Hrun | exact Hstart].
Defined.

(** C7 at work: one batch from a fresh state, derived twice. *)
Lemma noparallel_witness :
  let state := make_trace_state glowing naive1 in
  let out := after_batch naive1
               (trace_batch_sequential glowing Toy.accel Toy.one_emitter naive1 state) in
  render_run glowing Toy.accel Toy.one_emitter naive1 1 out /\
  s_render (fst out) = s_render (fst out).
Proof.
  intros state out.
  assert (render_run glowing Toy.accel Toy.one_emitter naive1 1 out) as Hrun.
  { apply (render_step _ _ _ _ 0 state out); [apply render_start |].
    apply trace_samples_noparallel; [vm_compute; reflexivity | reflexivity]. }
  split; [exact Hrun |].
  exact (proj1 (proj2 (noparallel_is_deterministic (L := Toy.library) glowing Toy.accel Toy.one_emitter
                         naive1 1 out out eq_refl Hrun Hrun))).
Defined.

(** C3, the claim as stated fails: an emitter met at a grazing angle
    (normal perpendicular to the direction), and an emitter of area zero
    met head-on, both give a pdf of plus infinity, not 0. *)
Lemma degenerate_light_pdf_is_infinite :
  (dot Toy.up Toy.ahead ==? f0)%f = true /\
  sample_lights_pdf grazing Toy.accel Toy.one_emitter zero3 Toy.ahead
    = S754_infinity false /\
  back (elements_cdf (mk_trace_light 0 invalidid [f0])) = f0 /\
  sample_lights_pdf facing Toy.accel flat_emitter zero3 Toy.ahead
    = S754_infinity false /\
  S754_infinity false <> f0.
Proof.
  split; [reflexivity |]. split; [vm_compute; reflexivity |].
  split; [reflexivity |]. split; [vm_compute; reflexivity |]. discriminate.
Qed.

(** C3 at work on the grazing emitter. *)
Lemma sample_lights_pdf_degenerate_witness :
  fnonfinite (sample_lights_pdf grazing Toy.accel Toy.one_emitter zero3 Toy.ahead) /\
  sample_lights_pdf grazing Toy.accel Toy.one_emitter zero3 Toy.ahead <> f0.
Proof.
  exact (sample_lights_pdf_degenerate (L := Toy.library) grazing Toy.accel Toy.one_emitter zero3 Toy.ahead
           (mk_trace_light 0 invalidid [f1])
           (or_introl eq_refl) ltac:(discriminate) eq_refl eq_refl).
Defined.

(** C2, the claim as stated fails: with the falsecolor sampler and a
    false-color value that names no enumerator, the sample is traced and
    accumulated without any error, and the color returned is black. *)
Lemma unrecognized_falsecolor_renders_black :
  let params := with_falsecolor (trace_falsecolor_type.unrecognized 99) in
  get_trace_sampler_func params = Ok trace_falsecolor /\
  radiance (fst (trace_falsecolor glowing Toy.accel Toy.one_emitter camera_ray params 0))
    = zero3 /\
  hit (fst (trace_falsecolor glowing Toy.accel Toy.one_emitter camera_ray params 0))
    = true /\
  option_map (fun state' => image_at zero4 (s_render state') pixel00)
    (ok_value (trace_sample (make_trace_state glowing params) glowing Toy.accel
                 Toy.one_emitter pixel00 0 params))
    = Some (mk_vec4f f0 f0 f0 f1).
Proof.
  intros params. split; [reflexivity |]. split; [vm_compute; reflexivity |].
  split; vm_compute; reflexivity.
Qed.

(** C2 at work: an unknown sampler, and an unknown false color. *)
Lemma unrecognized_enums_witness :
  get_trace_sampler_func (Toy.params (trace_sampler_type.unrecognized 7) 1)
    = Throw (runtime_error "sampler unknown") /\
  get_trace_sampler_func (with_falsecolor (trace_falsecolor_type.unrecognized 99))
    = Ok trace_falsecolor.
Proof.
  split.
  - exact (proj1 (proj1 (unrecognized_enums (L := Toy.library) glowing Toy.accel Toy.one_emitter
                           (Toy.params (trace_sampler_type.unrecognized 7) 1) 7) eq_refl)).
  - exact (proj1 (proj2 (unrecognized_enums (L := Toy.library) glowing Toy.accel Toy.one_emitter
                           (with_falsecolor (trace_falsecolor_type.unrecognized 99)) 99)
                    eq_refl eq_refl)).
Defined.



End Examples.

(** * Further properties of the tracer *)

(** ** Edge cases of the integrators *)

Section IntegratorEdges.
Context `{L : Library}.

Lemma integrator_no_bounces (body : trace_params -> Z -> path_state -> Rng loop_step)
    (limit : trace_params -> Z) (ray : ray3f) (params : trace_params) (rng : rng_state) :
  limit params <= 0 ->
  integrator body limit ray params rng = (empty_result, rng).
Proof.
  intros Hlimit. unfold integrator, trace_loop, bind, ret.
  destruct (loop_fuel (limit params)) as [| fuel] eqn:Hfuel;
    [unfold loop_fuel in Hfuel; lia |].
  simpl. assert ((0 <? limit params) = false) as -> by lia. reflexivity.
Qed.

(** X1.  With a bounce limit of zero or less, every integrator whose loop is
    bounded by [params.bounces] returns the empty result (black, no hit)
    without intersecting the scene and without drawing a random number. *)
Theorem no_bounces_is_black (scene : scene_data) (b : trace_bvh) (ls : trace_lights)
    (ray : ray3f) (params : trace_params) (rng : rng_state) :
  bounces params <= 0 ->
  trace_path scene b ls ray params rng = (empty_result, rng) /\
  trace_pathdirect scene b ls ray params rng = (empty_result, rng) /\
  trace_pathmis scene b ls ray params rng = (empty_result, rng) /\
  trace_pathtest scene b ls ray params rng = (empty_result, rng) /\
  trace_lightsampling scene b ls ray params rng = (empty_result, rng) /\
  trace_naive scene b ls ray params rng = (empty_result, rng) /\
  trace_furnace scene b ls ray params rng = (empty_result, rng).
Proof.
  intros Hnone. repeat split; apply integrator_no_bounces; exact Hnone.
Qed.

Lemma integrator_first_break (body : trace_params -> Z -> path_state -> Rng loop_step)
    (limit : trace_params -> Z) (ray : ray3f) (params : trace_params)
    (rng rng' : rng_state) (st' : path_state) :
  0 < limit params ->
  body params 0 (initial_state ray) rng = (Break st', rng') ->
  integrator body limit ray params rng = (result_of st', rng').
Proof.
  intros Hlimit Hbody. unfold integrator, trace_loop, bind, ret.
  destruct (loop_fuel (limit params)) as [| fuel] eqn:Hfuel;
    [unfold loop_fuel in Hfuel; lia |].
  simpl. assert ((0 <? limit params) = true) as -> by lia.
  unfold bind. rewrite Hbody. reflexivity.
Qed.

Lemma result_of_missed scene params ray :
  result_of (if (0 <? 0) || negb (envhidden params)
             then add_radiance (initial_state ray)
                    (l_weight (initial_state ray) * eval_environment scene (ray_d ray))%v
             else initial_state ray) = missed_result scene params ray.
Proof. unfold missed_result. destruct (envhidden params); reflexivity. Qed.

(** X2.  A camera ray that meets nothing ends every integrator in its first
    iteration: the result is the environment radiance along the ray
    (black when the environment is hidden) with [hit = false], and no
    random number is drawn.  The integrators bounded by [params.bounces]
    need one bounce for it; [trace_eyelight] always has four. *)
Theorem camera_ray_miss (scene : scene_data) (b : trace_bvh) (ls : trace_lights)
    (ray : ray3f) (params : trace_params) (rng : rng_state) :
  isec_hit (intersect_scene b scene ray false) = false ->
  trace_eyelight scene b ls ray params rng = (missed_result scene params ray, rng) /\
  (0 < bounces params ->
   trace_path scene b ls ray params rng = (missed_result scene params ray, rng) /\
   trace_pathdirect scene b ls ray params rng = (missed_result scene params ray, rng) /\
   trace_pathmis scene b ls ray params rng = (missed_result scene params ray, rng) /\
   trace_pathtest scene b ls ray params rng = (missed_result scene params ray, rng) /\
   trace_lightsampling scene b ls ray params rng = (missed_result scene params ray, rng) /\
   trace_naive scene b ls ray params rng = (missed_result scene params ray, rng) /\
   trace_furnace scene b ls ray params rng = (missed_result scene params ray, rng)).
Proof.
  intros Hmiss.
  pose proof (result_of_missed scene params ray) as Hresult.
  split; [| intros Hbounces; repeat split].
  - rewrite <- Hresult.
    apply (integrator_first_break (trace_eyelight_body scene b ls) eyelight_limit);
      [unfold eyelight_limit; lia |].
    unfold trace_eyelight_body, bind, ret. simpl. rewrite Hmiss. reflexivity.
  - rewrite <- Hresult. apply integrator_first_break; [exact Hbounces |].
    unfold trace_path_body, trace_path_shade, bind, ret. simpl. rewrite Hmiss. reflexivity.
  - rewrite <- Hresult. apply integrator_first_break; [exact Hbounces |].
    unfold trace_pathdirect_body, trace_pathdirect_shade, bind, ret. simpl.
    rewrite Hmiss. simpl. rewrite andb_true_r. reflexivity.
  - rewrite <- Hresult. apply integrator_first_break; [exact Hbounces |].
    unfold trace_pathmis_body, trace_pathmis_shade, bind, ret. simpl.
    rewrite Hmiss. simpl. rewrite andb_true_r. reflexivity.
  - rewrite <- Hresult. apply integrator_first_break; [exact Hbounces |].
    unfold trace_pathtest_body, trace_pathtest_shade, bind, ret. simpl.
    rewrite Hmiss. reflexivity.
  - rewrite <- Hresult. apply integrator_first_break; [exact Hbounces |].
    unfold trace_lightsampling_body, trace_lightsampling_shade, bind, ret. simpl.
    rewrite Hmiss. simpl. rewrite andb_true_r. reflexivity.
  - rewrite <- Hresult. apply integrator_first_break; [exact Hbounces |].
    unfold trace_naive_body, trace_naive_shade, bind, ret. simpl.
    rewrite Hmiss. reflexivity.
  - rewrite <- Hresult. apply integrator_first_break; [exact Hbounces |].
    unfold trace_furnace_body, trace_furnace_shade, bind, ret. simpl.
    rewrite Hmiss. reflexivity.
Qed.

Lemma run_loop_never_continues (body : Z -> path_state -> Rng loop_step) (limit : Z) :
  never_continues body ->
  forall (fuel : nat) (bounce : Z) (st : path_state) (its conts : Z)
         (rng rng' : rng_state) (run : loop_run),
    run_loop fuel body limit bounce st its conts rng = (Some run, rng') ->
    continuations run = conts /\
    iterations run - its <= Z.max (limit - bounce) 0.
Proof.
  intros Hbody fuel.
  induction fuel as [| fuel IH]; intros bounce st its conts rng rng' run Hrun;
    [discriminate |].
  simpl in Hrun. destruct (bounce <? limit) eqn:Hlt.
  - unfold bind in Hrun. pose proof (Hbody bounce st rng) as Hstep.
    destruct (body bounce st rng) as [step rng1]. simpl in Hstep.
    destruct step as [st' | st' | st'].
    + injection Hrun as <- <-. simpl. lia.
    + destruct Hstep.
    + apply IH in Hrun. lia.
  - injection Hrun as <- <-. simpl. lia.
Qed.

Lemma trace_pathtest_never_continues scene b ls params :
  never_continues (trace_pathtest_body scene b ls params).
Proof.
  intros bounce st.
  unfold trace_pathtest_body, trace_pathtest_shade, draw_mixture, draw_bsdfcos,
    draw_lights, draw_delta.
  repeat (lazymatch goal with
          | |- always (ret _) _ => apply always_ret
          | |- always (bind (ret _) _) _ => apply always_bind_ret
          | |- always (bind (bind _ _) _) _ => apply always_bind_assoc
          | |- always (bind (if ?c then _ else _) _) _ => destruct c eqn:?
          | |- always (bind (match ?x with _ => _ end) _) _ => destruct x
          | |- always (bind _ _) _ => eapply always_bind; [apply always_any | intros ? _]
          | |- always (if ?c then _ else _) _ => destruct c eqn:?
          | |- always (match ?x with _ => _ end) _ => destruct x
          | |- always (end_of_bounce _ _) _ => unfold end_of_bounce
          | |- always (let _ := _ in _) _ => cbv zeta
          end); exact I.
Qed.

(** X3.  [trace_pathtest] has no opacity branch: it returns after at most
    [params.bounces] iterations of its loop, none of them a continuation,
    whatever the opacity of the surfaces it meets. *)
Theorem trace_pathtest_bounded (scene : scene_data) (b : trace_bvh) (ls : trace_lights)
    (ray : ray3f) (params : trace_params) (rng : rng_state) :
  exists run rng',
    trace_loop (loop_fuel (bounces params)) (trace_pathtest_body scene b ls params)
      (bounces params) ray rng = (Some run, rng') /\
    trace_pathtest scene b ls ray params rng = (result_of (final run), rng') /\
    continuations run = 0 /\
    iterations run <= Z.max (bounces params) 0.
Proof.
  destruct (integrator_returns (trace_pathtest_body scene b ls) bounces
              (fun p => end_of_bounce_counts _ (trace_pathtest_shade_counts scene b ls p))
              params ray rng) as (run & rng' & Hfuel & Htrace & _).
  exists run, rng'.
  specialize (Hfuel (loop_fuel (bounces params)) (Nat.le_refl _)).
  split; [exact Hfuel |]. split; [exact Htrace |].
  destruct (run_loop_never_continues _ _ (trace_pathtest_never_continues scene b ls params)
              _ _ _ _ _ _ _ _ Hfuel) as [Hconts Hits].
  split; [exact Hconts |]. lia.
Qed.

End IntegratorEdges.

(** ** The two BSDF families *)

Section Families.
Context `{L : Library}.

(** X4.  The rough and the delta entry points never both answer: for every
    material and all directions, one of [eval_bsdfcos] and [eval_delta] is
    zero, one of [sample_bsdfcos] and [sample_delta] is the zero
    direction, and one of the two pdfs is zero.  A material that is
    matte, glossy, subsurface or gltfpbr gets nothing from the delta
    family, whatever its roughness, and a volumetric one nothing from the
    rough family. *)
Theorem bsdf_families_exclusive (material : material_point)
    (n outgoing incoming : vec3f) (rnl : float) (rn : vec2f) :
  (eval_bsdfcos material n outgoing incoming = zero3 \/
   eval_delta material n outgoing incoming = zero3) /\
  (sample_bsdfcos material n outgoing rnl rn = zero3 \/
   sample_delta material n outgoing rnl = zero3) /\
  (sample_bsdfcos_pdf material n outgoing incoming = f0 \/
   sample_delta_pdf material n outgoing incoming = f0) /\
  (In (type material) [material_type.matte; material_type.glossy;
                       material_type.subsurface; material_type.gltfpbr] ->
   eval_delta material n outgoing incoming = zero3 /\
   sample_delta material n outgoing rnl = zero3 /\
   sample_delta_pdf material n outgoing incoming = f0) /\
  (type material = material_type.volumetric ->
   eval_bsdfcos material n outgoing incoming = zero3 /\
   sample_bsdfcos material n outgoing rnl rn = zero3 /\
   sample_bsdfcos_pdf material n outgoing incoming = f0).
Proof.
  unfold eval_bsdfcos, eval_delta, sample_bsdfcos, sample_delta, sample_bsdfcos_pdf,
    sample_delta_pdf, fne, feq.
  destruct (SFeqb (roughness material) f0) eqn:Hsmooth; cbn [negb];
    repeat split; auto;
    try (match goal with
         | H : In _ _ |- _ =>
             simpl in H; destruct H as [<- | [<- | [<- | [<- | []]]]]
         | H : type _ = _ |- _ => rewrite H
         end; reflexivity).
Qed.

End Families.

(** ** The light pdf away from the lights *)

Section LightsPdfMiss.
Context `{L : Library}.

Lemma light_pdf_miss scene b position direction light :
  light_instance light <> invalidid ->
  isec_hit (intersect_instance b scene (light_instance light)
              (mk_ray position direction) false) = false ->
  light_pdf scene b position direction light f0 = f0.
Proof.
  intros Hinstance Hmiss. unfold light_pdf.
  assert ((light_instance light =? invalidid) = false) as -> by lia.
  cbn [negb]. cbv iota zeta.
  change 100%nat with (S 99). rewrite instance_light_pdf_step. cbv zeta.
  rewrite Hmiss. reflexivity.
Qed.

(** X5.  For a light set made of emitting instances only, none of which the
    ray from [position] along [direction] meets, no quotient is formed:
    the sum is zero and [sample_lights_pdf] is [0 * sample_uniform_pdf(n)]
    for the [n] lights of the set, the empty set included. *)
Theorem sample_lights_pdf_miss (scene : scene_data) (b : trace_bvh) (ls : trace_lights)
    (position direction : vec3f) :
  (forall light, In light (lights ls) ->
     light_instance light <> invalidid /\
     isec_hit (intersect_instance b scene (light_instance light)
                 (mk_ray position direction) false) = false) ->
  sample_lights_pdf scene b ls position direction =
    (f0 * sample_uniform_pdf (Z.of_nat (length (lights ls))))%f.
Proof.
  intros Hmiss. unfold sample_lights_pdf. f_equal.
  induction (lights ls) as [| light rest IH]; [reflexivity |].
  simpl. destruct (Hmiss light (or_introl eq_refl)) as [Hinstance Hray].
  rewrite (light_pdf_miss _ _ _ _ _ Hinstance Hray).
  apply IH. intros light' Hin. apply Hmiss. right. exact Hin.
Qed.

End LightsPdfMiss.

(** ** Further concrete scenes *)

Section FurtherExamples.
#[local] Existing Instance Toy.library.

Definition naive0 : trace_params := Toy.params trace_sampler_type.naive 0.
Definition matte_point : material_point := Toy.dull material_type.matte zero3 f1 f0.

Lemma no_bounces_witness :
  trace_naive glowing Toy.accel Toy.one_emitter camera_ray naive0 7 = (empty_result, 7) /\
  trace_furnace glowing Toy.accel Toy.one_emitter camera_ray naive0 7 = (empty_result, 7).
Proof.
  pose proof (no_bounces_is_black (L := Toy.library) glowing Toy.accel Toy.one_emitter
                camera_ray naive0 7 ltac:(vm_compute; discriminate))
    as (_ & _ & _ & _ & _ & Hnaive & Hfurnace).
  split; [exact Hnaive | exact Hfurnace].
Defined.

Lemma camera_ray_miss_witness :
  trace_eyelight grazing Toy.accel Toy.one_emitter camera_ray naive0 7
    = (missed_result grazing naive0 camera_ray, 7) /\
  trace_pathmis grazing Toy.accel Toy.one_emitter camera_ray naive1 7
    = (missed_result grazing naive1 camera_ray, 7).
Proof.
  split.
  - exact (proj1 (camera_ray_miss (L := Toy.library) grazing Toy.accel Toy.one_emitter
                    camera_ray naive0 7 eq_refl)).
  - exact (proj1 (proj2 (proj2 (proj2 (camera_ray_miss (L := Toy.library) grazing Toy.accel
                    Toy.one_emitter camera_ray naive1 7 eq_refl)
                    ltac:(vm_compute; reflexivity))))).
Defined.

Lemma bsdf_families_witness :
  eval_delta matte_point Toy.up Toy.up Toy.up = zero3 /\
  sample_delta matte_point Toy.up Toy.up f_half = zero3 /\
  sample_delta_pdf matte_point Toy.up Toy.up Toy.up = f0.
Proof.
  exact (proj1 (proj2 (proj2 (proj2
           (bsdf_families_exclusive (L := Toy.library) matte_point Toy.up Toy.up Toy.up
              f_half zero2))))
           (or_introl eq_refl)).
Defined.

Lemma sample_lights_pdf_miss_witness :
  sample_lights_pdf grazing Toy.accel Toy.one_emitter Toy.ahead Toy.ahead =
    (f0 * sample_uniform_pdf 1)%f.
Proof.
  apply (sample_lights_pdf_miss (L := Toy.library) grazing Toy.accel Toy.one_emitter
           Toy.ahead Toy.ahead).
  intros light [<- | []]. split; [discriminate | reflexivity].
Defined.

End FurtherExamples.

(** ** Invariants of the render state *)

Section StateInvariants.
Context `{L : Library}.

Lemma image_set_extents {T : Type} (img : image T) (ij : vec2i) (v : T) :
  extents (image_set img ij v) = extents img.
Proof. unfold image_set. destruct (pixel_index img ij <? 0); reflexivity. Qed.

Lemma image_set_length {T : Type} (img : image T) (ij : vec2i) (v : T) :
  length (pixels (image_set img ij v)) = length (pixels img).
Proof.
  unfold image_set. destruct (pixel_index img ij <? 0); [reflexivity |].
  simpl. apply length_insert.
Qed.

(** What one sample leaves alone. *)
Lemma trace_sample_frame scene b ls params state ij sample state' :
  trace_sample state scene b ls ij sample params = Ok state' ->
  s_samples state' = s_samples state /\
  s_denoised state' = s_denoised state /\
  extents (s_render state') = extents (s_render state) /\
  extents (s_albedo state') = extents (s_albedo state) /\
  extents (s_normal state') = extents (s_normal state) /\
  extents (s_hits state') = extents (s_hits state) /\
  extents (s_rngs state') = extents (s_rngs state).
Proof.
  unfold trace_sample.
  destruct (get_trace_sampler_func params) as [sampler | e]; [| discriminate].
  destruct (args2 rand2f rand2f _) as [[puv luv] rng].
  destruct (sampler _ _ _ _ _ _) as [traced rng'].
  destruct (hit traced); [| destruct (_ && _)];
    intros [= <-]; simpl; rewrite ?image_set_extents; repeat split.
Qed.

Lemma trace_sample_throws scene b ls params state ij sample e :
  trace_sample state scene b ls ij sample params = Throw e ->
  get_trace_sampler_func params = Throw e /\ e = runtime_error "sampler unknown".
Proof.
  unfold trace_sample.
  destruct (get_trace_sampler_func params) as [sampler | e'] eqn:Hsampler.
  - destruct (args2 rand2f rand2f _) as [[puv luv] rng].
    destruct (sampler _ _ _ _ _ _) as [traced rng'].
    destruct (hit traced); [| destruct (_ && _)]; discriminate.
  - intros [= <-]. split; [reflexivity |].
    unfold get_trace_sampler_func in Hsampler.
    destruct (sampler params); try discriminate. injection Hsampler as <-. reflexivity.
Qed.

Lemma sized_frame state state' :
  sized state ->
  s_denoised state' = s_denoised state ->
  extents (s_render state') = extents (s_render state) ->
  extents (s_albedo state') = extents (s_albedo state) ->
  extents (s_normal state') = extents (s_normal state) ->
  extents (s_hits state') = extents (s_hits state) ->
  extents (s_rngs state') = extents (s_rngs state) ->
  sized state'.
Proof.
  unfold sized. intros (Ha & Hn & Hh & Hr & Hd) Ed Er Ea En Eh Eg.
  rewrite Ed, Er, Ea, En, Eh, Eg. repeat split; assumption.
Qed.

(** A property of states that every procedure of a list keeps is kept by
    the list, and an exception of the list is one of theirs. *)
Lemma for_each_keeps {A : Type} (f : A -> proc) (P : trace_state -> Prop)
    (E : exn -> Prop) :
  (forall a state state' thrown,
     P state -> f a state = (state', thrown) ->
     P state' /\ (forall e, thrown = Some e -> E e)) ->
  forall l state state' thrown,
    P state -> for_each f l state = (state', thrown) ->
    P state' /\ (forall e, thrown = Some e -> E e).
Proof.
  intros Hf l. induction l as [| a l IH]; intros state state' thrown HP Hrun.
  - injection Hrun as <- <-. split; [exact HP | discriminate].
  - simpl in Hrun. unfold and_then in Hrun.
    destruct (f a state) as [state1 [e1 |]] eqn:Hfa.
    + injection Hrun as <- <-. exact (Hf _ _ _ _ HP Hfa).
    + destruct (Hf _ _ _ _ HP Hfa) as [HP1 _]. exact (IH _ _ _ HP1 Hrun).
Qed.

Lemma trace_sample_proc_keeps scene b ls params ij samples0 denoised sample
    state state' thrown :
  batch_invariant samples0 denoised state ->
  trace_sample_proc scene b ls params ij sample state = (state', thrown) ->
  batch_invariant samples0 denoised state' /\
  (forall e, thrown = Some e -> e = runtime_error "sampler unknown").
Proof.
  intros (Hsized & Hsamples & Hdenoised) Hrun. unfold trace_sample_proc in Hrun.
  destruct (trace_sample state scene b ls ij sample params) as [state1 | e1] eqn:Hts.
  - injection Hrun as <- <-.
    destruct (trace_sample_frame _ _ _ _ _ _ _ _ Hts)
      as (Es & Ed & Er & Ea & En & Eh & Eg).
    split; [| discriminate]. split; [| split].
    + exact (sized_frame _ _ Hsized Ed Er Ea En Eh Eg).
    + congruence.
    + congruence.
  - injection Hrun as <- <-. split; [split; [| split]; assumption |].
    intros e [= <-]. exact (proj2 (trace_sample_throws _ _ _ _ _ _ _ _ Hts)).
Qed.

Lemma trace_pixel_keeps scene b ls params first count samples0 denoised ij
    state state' thrown :
  batch_invariant samples0 denoised state ->
  trace_pixel scene b ls params first count ij state = (state', thrown) ->
  batch_invariant samples0 denoised state' /\
  (forall e, thrown = Some e -> e = runtime_error "sampler unknown").
Proof.
  unfold trace_pixel. apply for_each_keeps.
  intros sample st st' th. apply trace_sample_proc_keeps.
Qed.

Lemma trace_pixels_keep scene b ls params first count samples0 denoised
    (order : list vec2i) state state' thrown :
  batch_invariant samples0 denoised state ->
  for_each (trace_pixel scene b ls params first count) order state = (state', thrown) ->
  batch_invariant samples0 denoised state' /\
  (forall e, thrown = Some e -> e = runtime_error "sampler unknown").
Proof.
  apply for_each_keeps. intros ij st st' th. apply trace_pixel_keeps.
Qed.

Lemma vec2i_eqb_refl (a : vec2i) : vec2i_eqb a a = true.
Proof. unfold vec2i_eqb. rewrite !Z.eqb_refl. reflexivity. Qed.

Lemma check_image_same {T : Type} (img : image T) (size : vec2i) :
  extents img = size -> check_image img size = None.
Proof. intros <-. unfold check_image. rewrite vec2i_eqb_refl. reflexivity. Qed.

(** The end of a batch throws nothing on a sized state. *)
Lemma after_batch_sized params state :
  denoiser_keeps_size -> sized state ->
  exists state', and_then (bump_samples params) (denoise_batch params) state = (state', None) /\
    sized state' /\
    s_samples state' = s_samples state + batch params /\
    s_render state' = s_render state /\
    (oidn_denoise = None ->
     s_denoised state' =
       if denoise params && negb (image_empty (s_denoised state))
       then s_render state else s_denoised state).
Proof.
  intros Hkeeps (Ha & Hn & Hh & Hr & Hd).
  unfold and_then, bump_samples, denoise_batch. cbn [s_denoised set_samples].
  destruct (denoise params && negb (image_empty (s_denoised state))) eqn:Hgo.
  - apply andb_prop in Hgo as [_ Hfull]. apply negb_true_iff in Hfull.
    unfold denoise_image. cbn [s_render s_denoised s_albedo s_normal set_samples].
    rewrite (check_image_same _ _ (Hd Hfull)), (check_image_same _ _ Ha),
      (check_image_same _ _ Hn).
    destruct oidn_denoise as [filter |] eqn:Hoidn.
    + eexists. split; [reflexivity |]. split.
      * unfold sized. cbn. repeat split; try assumption.
        intros _. apply (Hkeeps filter Hoidn).
      * cbn. repeat split. discriminate.
    + eexists. split; [reflexivity |]. split.
      * unfold sized. cbn. repeat split; assumption.
      * cbn. repeat split.
  - eexists. split; [reflexivity |]. split.
    + unfold sized. cbn. repeat split; assumption.
    + cbn. repeat split.
Qed.

End StateInvariants.

(** ** States reached by progressive rendering *)

Section Reachable.
Context `{L : Library}.

Lemma make_trace_state_sized scene params : sized (make_trace_state scene params).
Proof.
  unfold sized, make_trace_state. cbn.
  repeat split. destruct (denoise params); cbn; [reflexivity | discriminate].
Qed.

Lemma make_trace_state_denoised scene params :
  denoised_in_step params (make_trace_state scene params).
Proof.
  unfold denoised_in_step, make_trace_state. cbn.
  split; destruct (denoise params); cbn; try reflexivity; discriminate.
Qed.

(** A call of [trace_samples] returns at once, or traces a batch in some
    order of the pixels (in none, without a worker) and ends it. *)
Lemma trace_samples_cases scene b ls params state out :
  trace_samples scene b ls params state out ->
  (s_samples state >= samples params /\ out = (state, None)) \/
  (s_samples state < samples params /\
   exists traced, out = after_batch params traced /\
     (traced = (state, None) \/
      exists order : list vec2i,
        traced = for_each (trace_pixel scene b ls params (s_samples state) (batch params))
                   order state)).
Proof.
  intros Hrun. inversion Hrun as [Hge | Hlt Hseq | traced Hlt Hpar Hbatch]; subst.
  - left. split; [assumption | reflexivity].
  - right. split; [assumption |]. eexists. split; [reflexivity |].
    right. eexists. reflexivity.
  - right. split; [assumption |]. exists traced. split; [reflexivity |].
    inversion Hbatch; subst; [left; reflexivity | right; eexists; reflexivity].
Qed.

(** Whether a sample throws is decided by the parameters alone, so a
    batch that throws has written nothing. *)
Lemma batch_throw_writes_nothing scene b ls params first count (order : list vec2i)
    state state' e :
  for_each (trace_pixel scene b ls params first count) order state = (state', Some e) ->
  state' = state.
Proof.
  intros Hrun.
  destruct (get_trace_sampler_func params) as [sampler | e0] eqn:Hsampler.
  - exfalso.
    refine (proj2 (for_each_keeps _ (fun _ => True) (fun _ => False) _
                     order state state' (Some e) I Hrun) e eq_refl).
    intros ij st st' th _. unfold trace_pixel.
    apply (for_each_keeps _ (fun _ => True) (fun _ => False)); [| exact I].
    intros sample st1 st1' th1 _ Hsample. split; [exact I |].
    intros e1 ->. unfold trace_sample_proc in Hsample.
    destruct (trace_sample st1 scene b ls ij sample params) as [st2 | e2] eqn:Hts;
      [discriminate |].
    apply trace_sample_throws in Hts as [Hthrow _]. congruence.
  - refine (proj1 (for_each_keeps _ (fun st => st = state) (fun _ => True) _
                     order state state' (Some e) eq_refl Hrun)).
    intros ij st st' th -> Hpixel. split; [| auto]. revert Hpixel. unfold trace_pixel.
    intros Hpixel.
    refine (proj1 (for_each_keeps _ (fun st => st = state) (fun _ => True) _
                     _ state st' th eq_refl Hpixel)).
    intros sample st1 st1' th1 -> Hsample. split; [| auto].
    unfold trace_sample_proc, trace_sample in Hsample. rewrite Hsampler in Hsample.
    injection Hsample as <- _. reflexivity.
Qed.

Lemma denoise_batch_samples params state state' thrown :
  denoise_batch params state = (state', thrown) -> s_samples state' = s_samples state.
Proof.
  unfold denoise_batch, denoise_image.
  destruct (denoise params && negb (image_empty (s_denoised state)));
    [| intros [= <- _]; reflexivity].
  repeat (destruct (check_image _ _); [intros [= <- _]; reflexivity |]).
  destruct oidn_denoise; intros [= <- _]; reflexivity.
Qed.

(** What every sample keeps, a batch keeps. *)
Lemma trace_pixels_preserve scene b ls params first count (P : trace_state -> Prop) :
  (forall st ij sample st',
     P st -> trace_sample st scene b ls ij sample params = Ok st' -> P st') ->
  forall (order : list vec2i) state state' thrown,
    P state ->
    for_each (trace_pixel scene b ls params first count) order state = (state', thrown) ->
    P state'.
Proof.
  intros Hkeep order state state' thrown HP Hrun.
  refine (proj1 (for_each_keeps _ P (fun _ => True) _ order state state' thrown HP Hrun)).
  intros ij st st1 th HPst Hpixel. split; [| auto]. unfold trace_pixel in Hpixel.
  refine (proj1 (for_each_keeps _ P (fun _ => True) _ _ st st1 th HPst Hpixel)).
  intros sample st2 st3 th2 HP2 Hsample. split; [| auto].
  unfold trace_sample_proc in Hsample.
  destruct (trace_sample st2 scene b ls ij sample params) as [st4 | e4] eqn:Hts;
    injection Hsample as <- _; [exact (Hkeep _ _ _ _ HP2 Hts) | exact HP2].
Qed.

(** The sample count after a call that did not throw. *)
Lemma trace_samples_count scene b ls params state state' :
  trace_samples scene b ls params state (state', None) ->
  s_samples state' =
    if s_samples state >=? samples params then s_samples state
    else s_samples state + batch params.
Proof.
  intros Hrun.
  destruct (trace_samples_cases _ _ _ _ _ _ Hrun)
    as [[Hge [= ->]] | (Hlt & traced & Hout & Htraced)].
  - destruct (Z.geb_spec (s_samples state) (samples params)); [reflexivity | lia].
  - destruct (Z.geb_spec (s_samples state) (samples params)); [lia |].
    assert (exists state1, traced = (state1, None) /\ s_samples state1 = s_samples state)
      as (state1 & -> & Hsame).
    { destruct traced as [state1 [e |]]; [discriminate |].
      exists state1. split; [reflexivity |].
      destruct Htraced as [[= ->] | [order Horder]]; [reflexivity |].
      symmetry in Horder.
      refine (trace_pixels_preserve scene b ls params _ _
                (fun st => s_samples st = s_samples state) _ order _ _ _ eq_refl Horder).
      intros st ij sample st' Hst Hts.
      apply trace_sample_frame in Hts as (Hs & _). congruence. }
    unfold after_batch, and_then, bump_samples in Hout. symmetry in Hout.
    apply denoise_batch_samples in Hout. rewrite Hout. cbn. lia.
Qed.

Lemma render_run_step scene b ls params n out :
  render_run scene b ls params (S n) out ->
  exists state, render_run scene b ls params n (state, None) /\
                trace_samples scene b ls params state out.
Proof. intros Hrun. inversion Hrun; subst. eexists. split; eassumption. Qed.

Lemma render_run_start scene b ls params out :
  render_run scene b ls params 0 out -> out = (make_trace_state scene params, None).
Proof. intros Hrun. inversion Hrun. reflexivity. Qed.

Lemma batches_spec params :
  0 < batch params ->
  0 <= batches params /\
  samples params <= batches params * batch params /\
  (0 < batches params -> (batches params - 1) * batch params < samples params).
Proof.
  intros Hbatch. unfold batches.
  pose proof (Z.div_mod (samples params + batch params - 1) (batch params)
                ltac:(lia)) as Hdiv.
  pose proof (Z.mod_pos_bound (samples params + batch params - 1) (batch params) Hbatch)
    as Hmod.
  set (q := (samples params + batch params - 1) / batch params) in *.
  set (r := (samples params + batch params - 1) mod batch params) in *.
  destruct (Z.max_spec 0 q) as [[Hq ->] | [Hq ->]]; nia.
Qed.

(** One call of [trace_samples] on a sized state: what it leaves. *)
Lemma trace_samples_sized scene b ls params state out :
  denoiser_keeps_size -> sized state ->
  trace_samples scene b ls params state out ->
  sized (fst out) /\
  (snd out = None \/
   snd out = Some (runtime_error "sampler unknown") /\ fst out = state) /\
  (oidn_denoise = None -> denoised_in_step params state ->
   denoised_in_step params (fst out)).
Proof.
  intros Hkeeps Hsized Hrun.
  destruct (trace_samples_cases _ _ _ _ _ _ Hrun)
    as [[_ ->] | (_ & traced & -> & Htraced)].
  { cbn. split; [exact Hsized |]. split; [left; reflexivity | auto]. }
  assert (exists state1 thrown, traced = (state1, thrown) /\
            batch_invariant (s_samples state) (s_denoised state) state1 /\
            (forall e, thrown = Some e ->
               e = runtime_error "sampler unknown" /\ state1 = state))
    as (state1 & thrown & -> & (Hsized1 & Hsamples1 & Hdenoised1) & Hthrown).
  { destruct Htraced as [-> | [order ->]].
    - exists state, None. split; [reflexivity |].
      split; [split; [| split]; auto | discriminate].
    - destruct (for_each _ order state) as [state1 thrown] eqn:Hbatch.
      exists state1, thrown. split; [reflexivity |].
      destruct (trace_pixels_keep scene b ls params (s_samples state) (batch params)
                  (s_samples state) (s_denoised state) order state state1 thrown)
        as [Hinv He];
        [split; [| split]; auto | exact Hbatch |].
      split; [exact Hinv |]. intros e ->. split; [exact (He e eq_refl) |].
      exact (batch_throw_writes_nothing _ _ _ _ _ _ _ _ _ _ Hbatch). }
  destruct thrown as [e |].
  { destruct (Hthrown e eq_refl) as [-> ->]. cbn.
    split; [exact Hsized |]. split; [right; split; reflexivity | auto]. }
  cbn [after_batch].
  destruct (after_batch_sized params state1 Hkeeps Hsized1)
    as (state2 & -> & Hsized2 & _ & Hrender2 & Hdenoised2).
  cbn. split; [exact Hsized2 |]. split; [left; reflexivity |].
  intros Hnone [Hoff Hcopy]. specialize (Hdenoised2 Hnone).
  rewrite Hdenoised1 in Hdenoised2. unfold denoised_in_step.
  rewrite Hdenoised2, Hrender2.
  destruct (denoise params) eqn:Hdenoise; cbn [andb].
  - split; [discriminate |].
    destruct (image_empty (s_denoised state)) eqn:Hempty; cbn [negb].
    + rewrite Hempty. discriminate.
    + reflexivity.
  - split; [auto |]. rewrite (Hoff eq_refl). discriminate.
Qed.

Lemma image_at_set_other {T : Type} (dflt : T) (img : image T) (ij ij' : vec2i) (v : T) :
  pixel_index img ij' <> pixel_index img ij ->
  image_at dflt (image_set img ij v) ij' = image_at dflt img ij'.
Proof.
  intros Hne. unfold image_at, image_set, vector_at.
  destruct (Z.ltb_spec (pixel_index img ij) 0) as [Hneg | Hpos]; [reflexivity |].
  unfold pixel_index in *. cbn [extents pixels].
  destruct (Z.ltb_spec (yi ij' * xi (extents img) + xi ij') 0) as [Hneg' | Hpos'];
    [reflexivity |].
  rewrite list_lookup_insert_ne; [reflexivity | lia].
Qed.

Lemma pixel_index_extents {T U : Type} (img : image T) (img' : image U) (ij : vec2i) :
  extents img = extents img' -> pixel_index img ij = pixel_index img' ij.
Proof. unfold pixel_index. intros ->. reflexivity. Qed.

End Reachable.

Section RenderTheorems.
Context `{L : Library}.

(** X6.  The buffers of a state reached by progressive rendering
    ([make_trace_state], then any number of calls of [trace_samples], down
    either branch and whatever the order of the pixels) agree in size,
    provided the denoising library, if present, keeps the size of its
    input; and the only exception a call can throw is the runtime error
    of an unknown sampler: the size checks of [denoise_image] never
    fail. *)
Theorem render_states_sized scene b ls params n out :
  denoiser_keeps_size ->
  render_run scene b ls params n out ->
  sized (fst out) /\
  (snd out = None \/ snd out = Some (runtime_error "sampler unknown")).
Proof.
  intros Hkeeps. revert out. induction n as [| n IH]; intros out Hrun.
  - rewrite (render_run_start _ _ _ _ _ Hrun). cbn.
    split; [apply make_trace_state_sized | left; reflexivity].
  - destruct (render_run_step _ _ _ _ _ _ Hrun) as (state & Hbefore & Hcall).
    destruct (IH _ Hbefore) as [Hsized _].
    destruct (trace_samples_sized _ _ _ _ _ _ Hkeeps Hsized Hcall)
      as (Hsized' & [Hnone | [Hsome _]] & _); auto.
Qed.

(** X7.  In a build without the denoising library, [get_image] on a
    state reached by progressive rendering returns the render itself and
    never throws, with denoising on or off: the denoised buffer is empty
    or a copy of the render after every call, also after one that threw. *)
Theorem get_image_without_denoiser scene b ls params n out :
  oidn_denoise = None ->
  render_run scene b ls params n out ->
  get_image (fst out) = Ok (s_render (fst out)).
Proof.
  intros Hnone Hrun.
  assert (denoiser_keeps_size) as Hkeeps.
  { intros filter Hfilter. congruence. }
  assert (sized (fst out) /\ denoised_in_step params (fst out)) as [_ [_ Hcopy]].
  { revert out Hrun. induction n as [| n IH]; intros out Hrun.
    - rewrite (render_run_start _ _ _ _ _ Hrun). cbn.
      split; [apply make_trace_state_sized | apply make_trace_state_denoised].
    - destruct (render_run_step _ _ _ _ _ _ Hrun) as (state & Hbefore & Hcall).
      destruct (IH _ Hbefore) as [Hsized Hstep].
      destruct (trace_samples_sized _ _ _ _ _ _ Hkeeps Hsized Hcall)
        as (Hsized' & _ & Hstep').
      split; [exact Hsized' | exact (Hstep' Hnone Hstep)]. }
  unfold get_image, get_image_into.
  rewrite check_image_same by reflexivity.
  destruct (image_empty (s_denoised (fst out))) eqn:Hempty; [reflexivity |].
  rewrite (Hcopy eq_refl). reflexivity.
Qed.

(** X8.  A sample writes to its own pixel only: on a sized state,
    [trace_sample] at pixel [ij] leaves every buffer as it was at each
    pixel of another index, and leaves the sample count and the denoised
    buffer alone. *)
Theorem trace_sample_writes_one_pixel scene b ls params state ij sample state' ij' :
  sized state ->
  trace_sample state scene b ls ij sample params = Ok state' ->
  pixel_index (s_render state) ij' <> pixel_index (s_render state) ij ->
  image_at zero4 (s_render state') ij' = image_at zero4 (s_render state) ij' /\
  image_at zero3 (s_albedo state') ij' = image_at zero3 (s_albedo state) ij' /\
  image_at zero3 (s_normal state') ij' = image_at zero3 (s_normal state) ij' /\
  image_at 0 (s_hits state') ij' = image_at 0 (s_hits state) ij' /\
  image_at default_rng (s_rngs state') ij' = image_at default_rng (s_rngs state) ij' /\
  s_samples state' = s_samples state /\
  s_denoised state' = s_denoised state.
Proof.
  intros (Ha & Hn & Hh & Hr & _) Hsample Hne.
  assert (pixel_index (s_albedo state) ij' <> pixel_index (s_albedo state) ij) as Hnea.
  { rewrite !(pixel_index_extents _ _ _ Ha). exact Hne. }
  assert (pixel_index (s_normal state) ij' <> pixel_index (s_normal state) ij) as Hnen.
  { rewrite !(pixel_index_extents _ _ _ Hn). exact Hne. }
  assert (pixel_index (s_hits state) ij' <> pixel_index (s_hits state) ij) as Hneh.
  { rewrite !(pixel_index_extents _ _ _ Hh). exact Hne. }
  assert (pixel_index (s_rngs state) ij' <> pixel_index (s_rngs state) ij) as Hner.
  { rewrite !(pixel_index_extents _ _ _ Hr). exact Hne. }
  revert Hsample. unfold trace_sample.
  destruct (get_trace_sampler_func params) as [sampler | e]; [| discriminate].
  destruct (args2 rand2f rand2f _) as [[puv luv] rng].
  destruct (sampler _ _ _ _ _ _) as [traced rng'].
  destruct (hit traced); [| destruct (_ && _)];
    intros [= <-]; cbn;
    rewrite ?image_at_set_other by assumption; repeat split.
Qed.

(** X9.  The sample count of progressive rendering: with a positive
    batch, after [n] calls of [trace_samples] none of which threw the
    state holds [batch * min n k] samples, where [k] is the least number
    with [k * batch >= samples].  The count stops at the least multiple of
    the batch that reaches [samples], so it exceeds [samples] by less
    than a batch. *)
Theorem samples_after_calls scene b ls params n state :
  0 < batch params ->
  render_run scene b ls params n (state, None) ->
  s_samples state = batch params * Z.min (Z.of_nat n) (batches params) /\
  (0 < samples params -> s_samples state < samples params + batch params).
Proof.
  intros Hbatch Hrun.
  destruct (batches_spec params Hbatch) as (Hk0 & Hreach & Hleast).
  assert (s_samples state = batch params * Z.min (Z.of_nat n) (batches params)) as Hcount.
  { revert state Hrun. induction n as [| n IH]; intros state Hrun.
    - apply render_run_start in Hrun. injection Hrun as ->. cbn [make_trace_state s_samples].
      lia.
    - destruct (render_run_step _ _ _ _ _ _ Hrun) as (state0 & Hbefore & Hcall).
      specialize (IH _ Hbefore).
      rewrite (trace_samples_count _ _ _ _ _ _ Hcall), Nat2Z.inj_succ.
      destruct (Z.geb_spec (s_samples state0) (samples params)); nia. }
  split; [exact Hcount | nia].
Qed.

End RenderTheorems.

Section RenderExamples.
#[local] Existing Instance Toy.library.

(** Three samples asked for in batches of two, with denoising on; no
    bounce is traced. *)
Definition batched : trace_params :=
  mk_trace_params 0 1 trace_sampler_type.naive trace_falsecolor_type.color 3 0
    (float_of_int 10) false false false 0 false false true 1 true 2.

(** Two by two pixels. *)
Definition wide : trace_params :=
  mk_trace_params 0 2 trace_sampler_type.naive trace_falsecolor_type.color 1 0
    (float_of_int 10) false false false 0 false false true 1 false 1.

Definition one_call : trace_state * option exn :=
  after_batch batched
    (trace_batch_sequential glowing Toy.accel Toy.one_emitter batched
       (make_trace_state glowing batched)).

Definition two_calls : trace_state * option exn :=
  after_batch batched
    (trace_batch_sequential glowing Toy.accel Toy.one_emitter batched (fst one_call)).

Lemma returned {A B : Type} (out : A * option B) : snd out = None -> (fst out, None) = out.
Proof. destruct out as [a b]. cbn. intros ->. reflexivity. Qed.

Lemma one_call_returns : snd one_call = None.
Proof. vm_compute. reflexivity. Qed.

Lemma two_calls_return : snd two_calls = None.
Proof. vm_compute. reflexivity. Qed.

(** A third call finds the samples reached. *)
Lemma three_calls_run :
  render_run glowing Toy.accel Toy.one_emitter batched 3 (fst two_calls, None).
Proof.
  apply (render_step (L := Toy.library) _ _ _ _ 2 (fst two_calls)).
  - rewrite (returned two_calls two_calls_return).
    apply (render_step (L := Toy.library) _ _ _ _ 1 (fst one_call)).
    + rewrite (returned one_call one_call_returns).
      apply (render_step (L := Toy.library) _ _ _ _ 0
               (make_trace_state (L := Toy.library) glowing batched));
        [apply render_start |].
      apply trace_samples_noparallel; [vm_compute; reflexivity | reflexivity].
    + apply trace_samples_noparallel; [vm_compute; reflexivity | reflexivity].
  - apply trace_samples_return. vm_compute. discriminate.
Qed.

Lemma toy_denoiser_keeps_size : denoiser_keeps_size.
Proof. intros filter Hfilter. discriminate Hfilter. Qed.

Lemma render_states_sized_witness :
  sized (fst (fst two_calls, @None exn)) /\
  (snd (fst two_calls, @None exn) = None \/
   snd (fst two_calls, @None exn) = Some (runtime_error "sampler unknown")).
Proof.
  exact (render_states_sized (L := Toy.library) glowing Toy.accel Toy.one_emitter batched 3
           (fst two_calls, None) toy_denoiser_keeps_size three_calls_run).
Defined.

Lemma get_image_without_denoiser_witness :
  get_image (fst (fst two_calls, @None exn)) = Ok (s_render (fst (fst two_calls, @None exn))).
Proof.
  exact (get_image_without_denoiser (L := Toy.library) glowing Toy.accel Toy.one_emitter
           batched 3 (fst two_calls, None) eq_refl three_calls_run).
Defined.

Lemma samples_after_calls_witness :
  s_samples (fst two_calls) = batch batched * Z.min (Z.of_nat 3) (batches batched) /\
  batch batched * Z.min (Z.of_nat 3) (batches batched) = 4.
Proof.
  split; [| reflexivity].
  exact (proj1 (samples_after_calls (L := Toy.library) glowing Toy.accel Toy.one_emitter
                  batched 3 (fst two_calls) ltac:(reflexivity) three_calls_run)).
Defined.

Lemma trace_sample_writes_one_pixel_witness :
  let state := make_trace_state glowing wide in
  match trace_sample state glowing Toy.accel Toy.one_emitter pixel00 0 wide with
  | Ok state' =>
      image_at zero4 (s_render state') (mk_vec2i 1 1)
        = image_at zero4 (s_render state) (mk_vec2i 1 1)
  | Throw _ => False
  end.
Proof.
  intros state.
  destruct (trace_sample state glowing Toy.accel Toy.one_emitter pixel00 0 wide)
    as [state' | e] eqn:Hsample.
  - exact (proj1 (trace_sample_writes_one_pixel (L := Toy.library) glowing Toy.accel
                    Toy.one_emitter wide state pixel00 0 state' (mk_vec2i 1 1)
                    (make_trace_state_sized glowing wide) Hsample
                    ltac:(vm_compute; discriminate))).
  - apply trace_sample_throws in Hsample as [Hthrow _]. discriminate Hthrow.
Defined.

End RenderExamples.

(** ** Batches in any order of the pixels *)

Section ForEach.
Context `{L : Library}.
Context {A : Type} (f : A -> proc) (Inv : trace_state -> Prop) (key : A -> Z).
Hypothesis f_pure : forall a s, snd (f a s) = None.
Hypothesis f_inv : forall a s, Inv s -> Inv (fst (f a s)).
Hypothesis f_comm : forall a b s,
  key a <> key b -> Inv s -> fst (f b (fst (f a s))) = fst (f a (fst (f b s))).

Lemma for_each_cons_pure a l s : for_each f (a :: l) s = for_each f l (fst (f a s)).
Proof.
  cbn [for_each]. unfold and_then. specialize (f_pure a s).
  destruct (f a s) as [s' [e |]]; [discriminate | reflexivity].
Qed.

Lemma for_each_pure l s : snd (for_each f l s) = None.
Proof.
  revert s. induction l as [| a l IH]; intros s; [reflexivity |].
  rewrite for_each_cons_pure. apply IH.
Qed.

Lemma for_each_inv l s : Inv s -> Inv (fst (for_each f l s)).
Proof.
  revert s. induction l as [| a l IH]; intros s Hs; [exact Hs |].
  rewrite for_each_cons_pure. apply IH, f_inv, Hs.
Qed.

Lemma for_each_permutation l l' :
  Permutation l l' -> List.NoDup (map key l) ->
  forall s, Inv s -> for_each f l s = for_each f l' s.
Proof.
  induction 1 as [| a l l' Hperm IH | a b l | l l' l'' H1 IH1 H2 IH2];
    intros Hnodup s Hs.
  - reflexivity.
  - rewrite !for_each_cons_pure. apply IH; [| apply f_inv, Hs].
    cbn in Hnodup. apply List.NoDup_cons_iff in Hnodup as [_ Hnodup]. exact Hnodup.
  - rewrite !for_each_cons_pure. rewrite f_comm; [reflexivity | | exact Hs].
    cbn in Hnodup. apply List.NoDup_cons_iff in Hnodup as [Hnotin _].
    intros Heq. apply Hnotin. rewrite Heq. left. reflexivity.
  - rewrite IH1 by assumption. apply IH2; [| exact Hs].
    exact (Permutation_NoDup (Permutation_map key H1) Hnodup).
Qed.

End ForEach.

Section Swap.
Context `{L : Library}.
Context {B C : Type} (g : B -> proc) (h : C -> proc) (Inv : trace_state -> Prop).
Hypothesis g_pure : forall a s, snd (g a s) = None.
Hypothesis h_pure : forall a s, snd (h a s) = None.
Hypothesis g_inv : forall a s, Inv s -> Inv (fst (g a s)).
Hypothesis h_inv : forall a s, Inv s -> Inv (fst (h a s)).
Hypothesis gh_comm : forall b c s,
  Inv s -> fst (h c (fst (g b s))) = fst (g b (fst (h c s))).

Lemma for_each_swap_one b lc s :
  Inv s ->
  fst (for_each h lc (fst (g b s))) = fst (g b (fst (for_each h lc s))).
Proof.
  revert s. induction lc as [| c lc IH]; intros s Hs; [reflexivity |].
  rewrite !(for_each_cons_pure h h_pure).
  rewrite gh_comm by exact Hs. apply IH, h_inv, Hs.
Qed.

Lemma for_each_swap lb lc s :
  Inv s ->
  fst (for_each h lc (fst (for_each g lb s))) = fst (for_each g lb (fst (for_each h lc s))).
Proof.
  revert s. induction lb as [| b lb IH]; intros s Hs; [reflexivity |].
  rewrite !(for_each_cons_pure g g_pure).
  rewrite IH by (apply g_inv, Hs).
  rewrite for_each_swap_one by exact Hs. reflexivity.
Qed.

End Swap.

Section Pixels.
Context `{L : Library}.

Lemma image_set_same {T : Type} (dflt : T) (img : image T) (ij : vec2i) :
  image_set img ij (image_at dflt img ij) = img.
Proof.
  unfold image_set, image_at, vector_at.
  destruct (pixel_index img ij <? 0); [reflexivity |].
  destruct img as [size l]. cbn [extents pixels]. f_equal.
  destruct (l !! Z.to_nat _) as [x |] eqn:Hlookup; cbn [default].
  - apply list_insert_id, Hlookup.
  - apply list_insert_ge, lookup_ge_None_1, Hlookup.
Qed.

Lemma image_set_comm {T : Type} (img : image T) (ij ij' : vec2i) (v v' : T) :
  pixel_index img ij <> pixel_index img ij' ->
  image_set (image_set img ij v) ij' v' = image_set (image_set img ij' v') ij v.
Proof.
  intros Hne. unfold image_set, pixel_index in *.
  destruct (Z.ltb_spec (yi ij * xi (extents img) + xi ij) 0) as [Hneg | Hpos];
    destruct (Z.ltb_spec (yi ij' * xi (extents img) + xi ij') 0) as [Hneg' | Hpos'];
    cbn [extents pixels];
    repeat match goal with
           | |- context [?a <? 0] =>
               destruct (Z.ltb_spec a 0); [try lia | try lia]
           end; try reflexivity.
  f_equal. apply list_insert_insert_ne. lia.
Qed.

Lemma write_read_pixel state ij : write_pixel state ij (read_pixel state ij) = state.
Proof.
  unfold write_pixel, read_pixel. cbn. rewrite !image_set_same. destruct state; reflexivity.
Qed.

Lemma trace_sample_local scene b ls params sampler state ij sample :
  get_trace_sampler_func params = Ok sampler ->
  trace_sample state scene b ls ij sample params =
    Ok (write_pixel state ij
          (sample_pixel sampler scene b ls params (extents (s_render state)) ij sample
             (read_pixel state ij))).
Proof.
  intros Hsampler. unfold trace_sample, sample_pixel. rewrite Hsampler.
  cbn [read_pixel p_rng p_render p_albedo p_normal p_hits].
  destruct (args2 rand2f rand2f _) as [[puv luv] rng].
  destruct (sampler _ _ _ _ _ _) as [traced rng'].
  destruct (hit traced); [| destruct (_ && _)];
    unfold write_pixel, accumulate, set_rng; cbn; try reflexivity.
  rewrite image_set_same. reflexivity.
Qed.

Lemma pixel_key_index {T : Type} (img : image T) (size ij : vec2i) :
  extents img = size -> pixel_index img ij = pixel_key size ij.
Proof. intros <-. reflexivity. Qed.

Lemma write_pixel_sized size state ij p :
  sized_as size state -> sized_as size (write_pixel state ij p).
Proof.
  intros [(Ha & Hn & Hh & Hr & Hd) Hsize]. unfold sized_as, sized, write_pixel. cbn.
  rewrite !image_set_extents. repeat split; assumption.
Qed.

Lemma read_write_other size state ij ij' p :
  sized_as size state -> pixel_key size ij' <> pixel_key size ij ->
  read_pixel (write_pixel state ij p) ij' = read_pixel state ij'.
Proof.
  intros [(Ha & Hn & Hh & Hr & Hd) Hsize] Hne. unfold read_pixel, write_pixel. cbn.
  rewrite !image_at_set_other; [reflexivity | | | | |];
    rewrite !(pixel_key_index _ size) by congruence; exact Hne.
Qed.

Lemma write_write_other size state ij ij' p p' :
  sized_as size state -> pixel_key size ij <> pixel_key size ij' ->
  write_pixel (write_pixel state ij p) ij' p' = write_pixel (write_pixel state ij' p') ij p.
Proof.
  intros [(Ha & Hn & Hh & Hr & Hd) Hsize] Hne. unfold write_pixel. cbn.
  f_equal; apply image_set_comm; rewrite !(pixel_key_index _ size) by congruence;
    exact Hne.
Qed.

End Pixels.

Section Lists.
Context `{L : Library}.

Lemma NoDup_map_inj_in {A B : Type} (f : A -> B) (l : list A) :
  (forall x y, In x l -> In y l -> f x = f y -> x = y) ->
  List.NoDup l -> List.NoDup (map f l).
Proof.
  intros Hinj Hnodup. induction Hnodup as [| a l Hnotin Hnodup IH]; cbn.
  - constructor.
  - constructor.
    + intros Hin. apply in_map_iff in Hin as (x & Heq & Hx).
      apply Hnotin. rewrite <- (Hinj x a); [exact Hx | right; exact Hx | left; reflexivity
                                          | exact Heq].
    + apply IH. intros x y Hx Hy. apply Hinj; right; assumption.
Qed.

Lemma In_range a b x : In x (range a b) -> a <= x < b.
Proof.
  unfold range. intros Hin. apply in_map_iff in Hin as (k & <- & Hk).
  apply in_seq in Hk. lia.
Qed.

Lemma NoDup_range a b : List.NoDup (range a b).
Proof.
  unfold range. apply NoDup_map_inj_in; [intros x y _ _; lia | apply seq_NoDup].
Qed.

Lemma In_row num j ij : In ij (row num j) -> yi ij = j /\ 0 <= xi ij < xi num.
Proof.
  unfold row. intros Hin. apply in_map_iff in Hin as (i & <- & Hi).
  apply In_range in Hi. cbn. lia.
Qed.

Lemma NoDup_row num j : List.NoDup (row num j).
Proof.
  unfold row. apply NoDup_map_inj_in; [| apply NoDup_range].
  intros x y _ _ [= ->]. reflexivity.
Qed.

Lemma In_rows num js ij :
  In ij (concat (map (row num) js)) -> In (yi ij) js /\ 0 <= xi ij < xi num.
Proof.
  intros Hin. apply in_concat in Hin as (l & Hl & Hin).
  apply in_map_iff in Hl as (j & <- & Hj).
  apply In_row in Hin as [<- Hx]. split; assumption.
Qed.

Lemma NoDup_rows num js : List.NoDup js -> List.NoDup (concat (map (row num) js)).
Proof.
  intros Hnodup. induction Hnodup as [| j js Hnotin Hnodup IH]; cbn.
  - constructor.
  - apply List.NoDup_app; [apply NoDup_row | exact IH |].
    intros ij Hin Hin'. apply In_row in Hin as [<- _].
    apply In_rows in Hin' as [Hj _]. exact (Hnotin Hj).
Qed.

Lemma In_range2 num ij :
  In ij (range2 num) -> 0 <= xi ij < xi num /\ 0 <= yi ij < yi num.
Proof.
  unfold range2. intros Hin. apply In_rows in Hin as [Hj Hx].
  apply In_range in Hj. lia.
Qed.

Lemma NoDup_pixel_keys num : List.NoDup (map (pixel_key num) (range2 num)).
Proof.
  apply NoDup_map_inj_in; [| apply NoDup_rows, NoDup_range].
  intros [x1 y1] [x2 y2] H1 H2. apply In_range2 in H1, H2.
  unfold pixel_key. cbn in *. intros Heq.
  assert (y1 = y2) as -> by nia. f_equal. lia.
Qed.

Lemma filter_none {A : Type} (p : A -> bool) (l : list A) :
  (forall a, p a = false) -> List.filter p l = [].
Proof.
  intros Hp. induction l as [| a l IH]; cbn; [reflexivity |]. rewrite Hp. exact IH.
Qed.

Lemma filter_all {A : Type} (p : A -> bool) (l : list A) :
  (forall a, In a l -> p a = true) -> List.filter p l = l.
Proof.
  induction l as [| a l IH]; cbn; intros Hp; [reflexivity |].
  rewrite (Hp a) by (left; reflexivity). f_equal. apply IH. intros x Hx. apply Hp.
  right. exact Hx.
Qed.

Lemma filter_either {A : Type} (p q : A -> bool) (l : list A) :
  (forall a, p a && q a = false) ->
  Permutation (List.filter p l ++ List.filter q l) (List.filter (fun a => p a || q a) l).
Proof.
  intros Hpq. induction l as [| a l IH]; cbn; [constructor |].
  specialize (Hpq a). destruct (p a), (q a); cbn in *; try discriminate.
  - constructor. exact IH.
  - symmetry. apply Permutation_cons_app. symmetry. exact IH.
  - exact IH.
Qed.

(** The rows of a list of pixels, one after the other, hold its pixels. *)
Lemma rows_permutation (n : nat) (l : list vec2i) :
  Permutation
    (concat (map (fun j => List.filter (fun ij => yi ij =? j) l) (range 0 (Z.of_nat n))))
    (List.filter (fun ij => (0 <=? yi ij) && (yi ij <? Z.of_nat n)) l).
Proof.
  unfold range. rewrite Z.sub_0_r, Nat2Z.id.
  induction n as [| n IH].
  - cbn [seq map concat]. rewrite filter_none; [constructor |].
    intros ij. apply andb_false_iff. destruct (Z.leb_spec 0 (yi ij)); [right | left; easy].
    apply Z.ltb_ge. cbn. lia.
  - rewrite seq_S, !map_app, concat_app. cbn [map concat]. rewrite app_nil_r.
    rewrite (List.filter_ext (fun ij => (0 <=? yi ij) && (yi ij <? Z.of_nat (S n)))
               (fun ij => ((0 <=? yi ij) && (yi ij <? Z.of_nat n))
                          || (yi ij =? 0 + Z.of_nat (0 + n)))).
    2:{ intros ij. cbn [Nat.add].
        destruct (Z.leb_spec 0 (yi ij)), (Z.ltb_spec (yi ij) (Z.of_nat (S n))),
          (Z.ltb_spec (yi ij) (Z.of_nat n)), (Z.eqb_spec (yi ij) (0 + Z.of_nat n));
          cbn; try reflexivity; lia. }
    rewrite <- filter_either.
    + apply Permutation_app; [exact IH | reflexivity].
    + intros ij. cbn [Nat.add].
      destruct (Z.leb_spec 0 (yi ij)), (Z.ltb_spec (yi ij) (Z.of_nat n)),
        (Z.eqb_spec (yi ij) (0 + Z.of_nat n)); cbn; try reflexivity; lia.
Qed.

Lemma schedule_permutation num schedule :
  is_schedule num schedule -> Permutation (range2 num) schedule.
Proof.
  intros [Hrows Hrow].
  assert (range 0 (yi num) = range 0 (Z.of_nat (Z.to_nat (yi num)))) as Hrange.
  { unfold range. rewrite !Z.sub_0_r, Nat2Z.id. reflexivity. }
  unfold range2.
  rewrite (map_ext_in (row num) (fun j => List.filter (fun ij => yi ij =? j) schedule)).
  2:{ intros j Hj. apply In_range in Hj. symmetry. apply Hrow. exact Hj. }
  rewrite Hrange, rows_permutation, filter_all; [reflexivity |].
  intros ij Hin. specialize (Hrows ij Hin).
  apply andb_true_iff. split; [apply Z.leb_le | apply Z.ltb_lt]; lia.
Qed.

End Lists.

Section Batch.
Context `{L : Library}.
Variables (scene : scene_data) (b : trace_bvh) (ls : trace_lights) (params : trace_params).
Variable size : vec2i.

Section Known.
Variable sampler : sampler_func.
Hypothesis Hsampler : get_trace_sampler_func params = Ok sampler.

Lemma sample_proc_local ij sample state :
  trace_sample_proc scene b ls params ij sample state =
    (write_pixel state ij
       (sample_pixel sampler scene b ls params (extents (s_render state)) ij sample
          (read_pixel state ij)), None).
Proof.
  unfold trace_sample_proc. rewrite (trace_sample_local _ _ _ _ sampler) by exact Hsampler.
  reflexivity.
Qed.

Lemma sample_proc_pure ij sample state :
  snd (trace_sample_proc scene b ls params ij sample state) = None.
Proof. rewrite sample_proc_local. reflexivity. Qed.

Lemma sample_proc_sized ij sample state :
  sized_as size state ->
  sized_as size (fst (trace_sample_proc scene b ls params ij sample state)).
Proof. intros Hsized. rewrite sample_proc_local. apply write_pixel_sized, Hsized. Qed.

Lemma sample_proc_comm ij sample ij' sample' state :
  pixel_key size ij <> pixel_key size ij' -> sized_as size state ->
  fst (trace_sample_proc scene b ls params ij' sample'
         (fst (trace_sample_proc scene b ls params ij sample state))) =
  fst (trace_sample_proc scene b ls params ij sample
         (fst (trace_sample_proc scene b ls params ij' sample' state))).
Proof.
  intros Hne Hsized. rewrite !sample_proc_local. cbn [fst].
  rewrite !(read_write_other size) by (assumption || (intros Heq; apply Hne; congruence)).
  assert (forall ij p, extents (s_render (write_pixel state ij p)) = extents (s_render state))
    as Hextents by (intros; cbn; apply image_set_extents).
  rewrite !Hextents. apply (write_write_other size); assumption.
Qed.

Lemma trace_pixel_pure first count ij state :
  snd (trace_pixel scene b ls params first count ij state) = None.
Proof. apply for_each_pure. intros sample s. apply sample_proc_pure. Qed.

Lemma trace_pixel_sized first count ij state :
  sized_as size state ->
  sized_as size (fst (trace_pixel scene b ls params first count ij state)).
Proof.
  apply for_each_inv.
  - intros sample s. apply sample_proc_pure.
  - intros sample s. apply sample_proc_sized.
Qed.

Lemma trace_pixel_comm first count ij ij' state :
  pixel_key size ij <> pixel_key size ij' -> sized_as size state ->
  fst (trace_pixel scene b ls params first count ij'
         (fst (trace_pixel scene b ls params first count ij state))) =
  fst (trace_pixel scene b ls params first count ij
         (fst (trace_pixel scene b ls params first count ij' state))).
Proof.
  intros Hne Hsized. unfold trace_pixel.
  apply (for_each_swap _ _ (sized_as size)); try exact Hsized.
  - intros sample s. apply sample_proc_pure.
  - intros sample s. apply sample_proc_pure.
  - intros sample s. apply sample_proc_sized.
  - intros sample s. apply sample_proc_sized.
  - intros sample sample' s Hs. apply sample_proc_comm; assumption.
Qed.

Lemma batch_permutation first count order order' state :
  Permutation order order' -> List.NoDup (map (pixel_key size) order) ->
  sized_as size state ->
  for_each (trace_pixel scene b ls params first count) order state =
  for_each (trace_pixel scene b ls params first count) order' state.
Proof.
  intros Hperm Hnodup Hsized.
  apply (for_each_permutation _ (sized_as size) (pixel_key size)); try assumption.
  - intros ij s. apply trace_pixel_pure.
  - intros ij s. apply trace_pixel_sized.
  - intros ij ij' s. apply trace_pixel_comm.
Qed.

End Known.

Section Unknown.
Variable e : exn.
Hypothesis Hthrow : get_trace_sampler_func params = Throw e.

Lemma trace_pixel_unknown first count :
  exists thrown, forall ij state,
    trace_pixel scene b ls params first count ij state = (state, thrown).
Proof.
  unfold trace_pixel.
  destruct (range first (first + count)) as [| sample samples].
  - exists None. reflexivity.
  - exists (Some e). intros ij state. cbn [for_each]. unfold and_then, trace_sample_proc,
      trace_sample. rewrite Hthrow. reflexivity.
Qed.

Lemma batch_unknown first count (order order' : list vec2i) state :
  length order = length order' ->
  for_each (trace_pixel scene b ls params first count) order state =
  for_each (trace_pixel scene b ls params first count) order' state.
Proof.
  destruct (trace_pixel_unknown first count) as [thrown Hpixel].
  assert (forall l : list vec2i,
            for_each (trace_pixel scene b ls params first count) l state =
              (state, match l with [] => None | _ => thrown end)) as Hbatch.
  { induction l as [| ij l IH]; [reflexivity |].
    cbn [for_each]. unfold and_then. rewrite Hpixel.
    destruct thrown; [reflexivity |]. rewrite IH. destruct l; reflexivity. }
  intros Hlength. rewrite !Hbatch.
  destruct order, order'; try reflexivity; discriminate.
Qed.

End Unknown.

End Batch.

Section Parallel.
Context `{L : Library}.

Lemma reached_sized scene b ls params n out :
  denoiser_keeps_size ->
  render_run scene b ls params n out -> sized (fst out).
Proof.
  intros Hkeeps. revert out. induction n as [| n IH]; intros out Hrun.
  - rewrite (render_run_start _ _ _ _ _ Hrun). apply make_trace_state_sized.
  - destruct (render_run_step _ _ _ _ _ _ Hrun) as (state & Hbefore & Hcall).
    exact (proj1 (trace_samples_sized _ _ _ _ _ _ Hkeeps (IH _ Hbefore) Hcall)).
Qed.

(** With a worker to run them, the two branches of [trace_samples] agree. *)
Lemma trace_samples_functional scene b ls params state out :
  0 < hardware_concurrency -> sized state ->
  trace_samples scene b ls params state out ->
  out = if s_samples state >=? samples params then (state, None)
        else after_batch params (trace_batch_sequential scene b ls params state).
Proof.
  intros Hworkers Hsized Hrun.
  inversion Hrun as [Hge | Hlt Hseq | traced Hlt Hpar Hbatch]; subst.
  - destruct (Z.geb_spec (s_samples state) (samples params)); [reflexivity | lia].
  - destruct (Z.geb_spec (s_samples state) (samples params)); [lia | reflexivity].
  - destruct (Z.geb_spec (s_samples state) (samples params)); [lia |]. f_equal.
    inversion Hbatch as [Hnone | schedule _ Hschedule]; subst; [lia |].
    unfold trace_batch_sequential. symmetry.
    pose proof (schedule_permutation _ _ Hschedule) as Hperm.
    destruct (get_trace_sampler_func params) as [sampler | e] eqn:Hsampler.
    + apply (batch_permutation _ _ _ _ (extents (s_render state)) sampler Hsampler);
        [exact Hperm | apply NoDup_pixel_keys | split; [exact Hsized | reflexivity]].
    + apply (batch_unknown _ _ _ _ e Hsampler). apply Permutation_length, Hperm.
Qed.

(** X10.  The order in which the workers of [parallel_for_batch] reach
    the pixels does not show: on a state whose buffers agree in size, and
    with at least one hardware thread, every execution of the parallel
    batch of [trace_samples] leaves what the two nested loops of the
    [noparallel] branch leave, state and exception. *)
Theorem parallel_matches_sequential scene b ls params state traced :
  0 < hardware_concurrency ->
  sized state ->
  parallel_for_batch (extents (s_render state))
    (trace_pixel scene b ls params (s_samples state) (batch params)) state traced ->
  traced = trace_batch_sequential scene b ls params state.
Proof.
  intros Hworkers Hsized Hrun.
  inversion Hrun as [Hnone | schedule _ Hschedule]; subst; [lia |].
  unfold trace_batch_sequential. symmetry.
  pose proof (schedule_permutation _ _ Hschedule) as Hperm.
  destruct (get_trace_sampler_func params) as [sampler | e] eqn:Hsampler.
  - apply (batch_permutation _ _ _ _ (extents (s_render state)) sampler Hsampler);
      [exact Hperm | apply NoDup_pixel_keys | split; [exact Hsized | reflexivity]].
  - apply (batch_unknown _ _ _ _ e Hsampler). apply Permutation_length, Hperm.
Qed.

(** X11.  Progressive rendering is deterministic in both branches: with
    at least one hardware thread, and a denoising library (if built in)
    that keeps the size of its input, two runs of [make_trace_state]
    followed by the same number of [trace_samples] calls end in the same
    state and the same exception, whatever [params.noparallel] is. *)
Theorem rendering_is_deterministic scene b ls params n out1 out2 :
  0 < hardware_concurrency ->
  denoiser_keeps_size ->
  render_run scene b ls params n out1 ->
  render_run scene b ls params n out2 ->
  out1 = out2.
Proof.
  intros Hworkers Hkeeps. revert out1 out2.
  induction n as [| n IH]; intros out1 out2 Hrun1 Hrun2.
  - rewrite (render_run_start _ _ _ _ _ Hrun1), (render_run_start _ _ _ _ _ Hrun2).
    reflexivity.
  - destruct (render_run_step _ _ _ _ _ _ Hrun1) as (state1 & Hbefore1 & Hcall1).
    destruct (render_run_step _ _ _ _ _ _ Hrun2) as (state2 & Hbefore2 & Hcall2).
    pose proof (IH _ _ Hbefore1 Hbefore2) as [= <-].
    pose proof (reached_sized _ _ _ _ _ _ Hkeeps Hbefore1) as Hsized.
    rewrite (trace_samples_functional _ _ _ _ _ _ Hworkers Hsized Hcall1),
      (trace_samples_functional _ _ _ _ _ _ Hworkers Hsized Hcall2).
    reflexivity.
Qed.

End Parallel.

Section ParallelExamples.
#[local] Existing Instance Toy.library.

(** Two by two pixels rendered by the parallel branch; no bounce is
    traced. *)
Definition wide_parallel : trace_params :=
  mk_trace_params 0 2 trace_sampler_type.naive trace_falsecolor_type.color 1 0
    (float_of_int 10) false false false 0 false false false 1 false 1.

(** The upper row first, and the two rows pixel by pixel in turn. *)
Definition bottom_up : list vec2i :=
  [mk_vec2i 0 1; mk_vec2i 1 1; mk_vec2i 0 0; mk_vec2i 1 0].
Definition interleaved : list vec2i :=
  [mk_vec2i 0 1; mk_vec2i 0 0; mk_vec2i 1 1; mk_vec2i 1 0].

Lemma bottom_up_schedule : is_schedule (mk_vec2i 2 2) bottom_up.
Proof.
  split.
  - intros ij [<- | [<- | [<- | [<- | []]]]]; cbn; lia.
  - intros j Hj. cbn in Hj. assert (j = 0 \/ j = 1) as [-> | ->] by lia; reflexivity.
Qed.

Lemma interleaved_schedule : is_schedule (mk_vec2i 2 2) interleaved.
Proof.
  split.
  - intros ij [<- | [<- | [<- | [<- | []]]]]; cbn; lia.
  - intros j Hj. cbn in Hj. assert (j = 0 \/ j = 1) as [-> | ->] by lia; reflexivity.
Qed.

Lemma wide_parallel_size :
  extents (s_render (make_trace_state glowing wide_parallel)) = mk_vec2i 2 2.
Proof. vm_compute. reflexivity. Qed.

Lemma wide_parallel_batch (schedule : list vec2i) :
  is_schedule (mk_vec2i 2 2) schedule ->
  let state := make_trace_state glowing wide_parallel in
  parallel_for_batch (extents (s_render state))
    (trace_pixel glowing Toy.accel Toy.one_emitter wide_parallel (s_samples state)
       (batch wide_parallel)) state
    (for_each (trace_pixel glowing Toy.accel Toy.one_emitter wide_parallel (s_samples state)
                 (batch wide_parallel)) schedule state).
Proof.
  intros Hschedule state. apply parallel_schedule; [reflexivity |].
  unfold state. rewrite wide_parallel_size. exact Hschedule.
Qed.

Lemma wide_parallel_run (schedule : list vec2i) :
  is_schedule (mk_vec2i 2 2) schedule ->
  let state := make_trace_state glowing wide_parallel in
  render_run glowing Toy.accel Toy.one_emitter wide_parallel 1
    (after_batch wide_parallel
       (for_each (trace_pixel glowing Toy.accel Toy.one_emitter wide_parallel
                    (s_samples state) (batch wide_parallel)) schedule state)).
Proof.
  intros Hschedule state.
  apply (render_step (L := Toy.library) _ _ _ _ 0 state); [apply render_start |].
  apply trace_samples_parallel; [reflexivity | reflexivity |].
  apply wide_parallel_batch, Hschedule.
Qed.

Lemma parallel_matches_sequential_witness :
  let state := make_trace_state glowing wide_parallel in
  for_each (trace_pixel glowing Toy.accel Toy.one_emitter wide_parallel (s_samples state)
              (batch wide_parallel)) bottom_up state
  = trace_batch_sequential glowing Toy.accel Toy.one_emitter wide_parallel state.
Proof.
  intros state.
  exact (parallel_matches_sequential (L := Toy.library) glowing Toy.accel Toy.one_emitter
           wide_parallel state _ ltac:(reflexivity)
           (make_trace_state_sized glowing wide_parallel)
           (wide_parallel_batch bottom_up bottom_up_schedule)).
Defined.

Lemma rendering_is_deterministic_witness :
  let state := make_trace_state glowing wide_parallel in
  after_batch wide_parallel
    (for_each (trace_pixel glowing Toy.accel Toy.one_emitter wide_parallel
                 (s_samples state) (batch wide_parallel)) bottom_up state)
  = after_batch wide_parallel
      (for_each (trace_pixel glowing Toy.accel Toy.one_emitter wide_parallel
                   (s_samples state) (batch wide_parallel)) interleaved state).
Proof.
  intros state.
  exact (rendering_is_deterministic (L := Toy.library) glowing Toy.accel Toy.one_emitter
           wide_parallel 1 _ _ ltac:(reflexivity) toy_denoiser_keeps_size
           (wide_parallel_run bottom_up bottom_up_schedule)
           (wide_parallel_run interleaved interleaved_schedule)).
Defined.

End ParallelExamples.

(** ** The lights of a scene *)

Section Lights.
Context `{B : SceneBuild}.

Lemma cumulate_length previous values :
  length (cumulate previous values) = length values.
Proof.
  revert previous. induction values as [| value values IH]; intros previous; cbn;
    [reflexivity | rewrite IH; reflexivity].
Qed.

Lemma cumulate_last values : forall previous value,
  List.last (cumulate previous (value :: values)) f0 =
    fold_left (fun before value => (value + before)%f) values
      (match previous with None => value | Some before => (value + before)%f end).
Proof.
  induction values as [| value' values IH]; intros previous value; [reflexivity |].
  change (cumulate previous (value :: value' :: values))
    with (let entry := match previous with
                       | None => value
                       | Some before => (value + before)%f
                       end in
          entry :: cumulate (Some entry) (value' :: values)).
  cbv zeta. set (entry := match previous with None => value | Some _ => _ end).
  transitivity (List.last (cumulate (Some entry) (value' :: values)) f0); [reflexivity |].
  rewrite IH. reflexivity.
Qed.

Lemma back_cumulate values : back (cumulate None values) = running_sum values.
Proof.
  destruct values as [| value values]; [reflexivity |].
  unfold back. rewrite cumulate_last. reflexivity.
Qed.

Lemma fold_lights {A : Type} (add : list trace_light -> A -> list trace_light)
    (P : trace_light -> Prop) (Q : A -> Prop) :
  (forall lights a light, Q a -> In light (add lights a) -> In light lights \/ P light) ->
  forall handles lights light,
    (forall a, In a handles -> Q a) ->
    In light (fold_left add handles lights) -> In light lights \/ P light.
Proof.
  intros Hadd handles. induction handles as [| a handles IH]; intros lights light HQ Hin.
  - left. exact Hin.
  - cbn in Hin. apply IH in Hin as [Hin | HP]; [| right; exact HP |].
    + apply Hadd in Hin; [exact Hin |]. apply HQ. left. reflexivity.
    + intros a' Ha'. apply HQ. right. exact Ha'.
Qed.

Lemma add_instance_light_spec scene lights handle light :
  0 <= handle < scene_instances_size scene ->
  In light (add_instance_light scene lights handle) ->
  In light lights \/ instance_light_of scene light.
Proof.
  intros Hrange. unfold add_instance_light.
  destruct (_ ==? zero3)%v eqn:Hemission; [auto |].
  destruct (shape_triangles_empty _ && shape_quads_empty _) eqn:Hempty; [auto |].
  intros Hin. apply in_app_or in Hin as [Hin | [<- | []]]; [auto |]. right.
  unfold instance_light_of. cbn [light_instance light_environment elements_cdf].
  repeat split; try assumption; try lia.
  destruct (shape_quads_empty _) eqn:Hquads; cbn [negb]; [| reflexivity].
  rewrite andb_true_r in Hempty. rewrite Hempty. reflexivity.
Qed.

Lemma add_environment_light_spec scene lights handle light :
  0 <= handle < scene_environments_size scene ->
  In light (add_environment_light scene lights handle) ->
  In light lights \/ environment_light_of scene light.
Proof.
  intros Hrange. unfold add_environment_light.
  destruct (_ ==? zero3)%v eqn:Hemission; [auto |].
  intros Hin. apply in_app_or in Hin as [Hin | [<- | []]]; [auto |]. right.
  unfold environment_light_of. cbn [light_instance light_environment elements_cdf].
  repeat split; try assumption; try lia.
  destruct (_ =? invalidid); reflexivity.
Qed.

Lemma made_lights_cases scene params light :
  In light (lights (make_trace_lights scene params)) ->
  instance_light_of scene light \/ environment_light_of scene light.
Proof.
  unfold make_trace_lights. cbn [lights]. intros Hin.
  apply (fold_lights _ (environment_light_of scene)
           (fun handle => 0 <= handle < scene_environments_size scene)) in Hin
    as [Hin | Henv]; [| right; exact Henv | | ].
  - apply (fold_lights _ (instance_light_of scene)
             (fun handle => 0 <= handle < scene_instances_size scene)) in Hin
      as [[] | Hinst]; [left; exact Hinst | |].
    + intros ls handle l. apply add_instance_light_spec.
    + intros handle. apply In_range.
  - intros ls handle l. apply add_environment_light_spec.
  - intros handle. apply In_range.
Qed.

Lemma range_In a b x : a <= x < b -> In x (range a b).
Proof.
  intros Hx. unfold range. apply in_map_iff. exists (Z.to_nat (x - a)).
  split; [lia |]. apply in_seq. lia.
Qed.

(** A loop whose body only appends keeps what it has, and holds what the
    body appended at one of its indices. *)
Lemma fold_appends {A : Type} (add : list trace_light -> A -> list trace_light) :
  (forall lights a light, In light lights -> In light (add lights a)) ->
  forall handles lights light,
    In light lights -> In light (fold_left add handles lights).
Proof.
  intros Hadd handles. induction handles as [| a handles IH]; intros lights light Hin;
    [exact Hin |].
  cbn. apply IH, Hadd, Hin.
Qed.

Lemma fold_appended {A : Type} (add : list trace_light -> A -> list trace_light)
    (a : A) (light : trace_light) :
  (forall lights a light, In light lights -> In light (add lights a)) ->
  (forall lights, In light (add lights a)) ->
  forall handles lights, In a handles -> In light (fold_left add handles lights).
Proof.
  intros Hkeep Hadd handles. induction handles as [| a' handles IH]; intros lights Hin;
    [destruct Hin |].
  cbn. destruct Hin as [-> | Hin]; [| apply IH, Hin].
  apply fold_appends; [exact Hkeep | apply Hadd].
Qed.

Lemma add_instance_light_keeps scene lights handle light :
  In light lights -> In light (add_instance_light scene lights handle).
Proof.
  intros Hin. unfold add_instance_light.
  destruct (_ ==? zero3)%v; [exact Hin |].
  destruct (_ && _); [exact Hin |]. apply in_or_app. left. exact Hin.
Qed.

Lemma add_environment_light_keeps scene lights handle light :
  In light lights -> In light (add_environment_light scene lights handle).
Proof.
  intros Hin. unfold add_environment_light.
  destruct (_ ==? zero3)%v; [exact Hin |]. apply in_or_app. left. exact Hin.
Qed.

(** X12.  [make_trace_lights] makes exactly the emitters into lights.
    Every light it returns is an instance light (a valid instance handle,
    environment = invalidid, a material with non-zero emission, a shape
    with triangles or quads, and the cdf of the quads if there are quads,
    else of the triangles) or an environment light (instance = invalidid,
    a valid environment handle, non-zero emission, and the cdf of the
    emission texture if there is one, else none).  Conversely every
    instance whose material emits and whose shape has elements, and every
    environment that emits, has its light. *)
Theorem made_lights_are_the_emitters scene params :
  (forall light, In light (lights (make_trace_lights scene params)) ->
     instance_light_of scene light \/ environment_light_of scene light) /\
  (forall handle,
     let instance := scene_instances_at scene handle in
     let shape := scene_shapes_at scene (instance_shape instance) in
     0 <= handle < scene_instances_size scene ->
     (material_emission scene (instance_material instance) ==? zero3)%v = false ->
     shape_triangles_empty shape && shape_quads_empty shape = false ->
     exists light, In light (lights (make_trace_lights scene params)) /\
                   light_instance light = handle /\ instance_light_of scene light) /\
  (forall handle,
     0 <= handle < scene_environments_size scene ->
     (environment_emission (scene_environments_at scene handle) ==? zero3)%v = false ->
     exists light, In light (lights (make_trace_lights scene params)) /\
                   light_environment light = handle /\ environment_light_of scene light).
Proof.
  split; [apply made_lights_cases |]. split.
  - intros handle instance shape Hrange Hemission Hempty.
    pose (light := mk_trace_light handle invalidid
                     (if shape_quads_empty shape then triangles_cdf shape
                      else quads_cdf shape)).
    assert (In light (lights (make_trace_lights scene params))) as Hin.
    { unfold make_trace_lights. cbn [lights].
      apply fold_appends; [intros; apply add_environment_light_keeps; assumption |].
      apply (fold_appended _ handle);
        [intros; apply add_instance_light_keeps; assumption | | apply range_In, Hrange].
      intros ls. unfold add_instance_light. fold instance. rewrite Hemission.
      fold shape. rewrite Hempty. apply in_or_app. right. left. unfold light.
      f_equal. destruct (shape_quads_empty shape) eqn:Hquads; cbn [negb]; [| reflexivity].
      rewrite andb_true_r in Hempty. rewrite Hempty. reflexivity. }
    exists light. split; [exact Hin |]. split; [reflexivity |].
    destruct (made_lights_cases _ _ _ Hin) as [Hinst | (Hno & _)]; [exact Hinst |].
    unfold light in Hno. cbn in Hno. unfold invalidid in Hno. lia.
  - intros handle Hrange Hemission.
    pose (environment := scene_environments_at scene handle).
    pose (light := mk_trace_light invalidid handle
                     (if environment_emission_tex environment =? invalidid then []
                      else texture_cdf (scene_textures_at scene
                                          (environment_emission_tex environment)))).
    assert (In light (lights (make_trace_lights scene params))) as Hin.
    { unfold make_trace_lights. cbn [lights].
      apply (fold_appended _ handle);
        [intros; apply add_environment_light_keeps; assumption | | apply range_In, Hrange].
      intros ls. unfold add_environment_light. cbv zeta. rewrite Hemission.
      apply in_or_app. right. left. unfold light, environment. f_equal.
      destruct (_ =? invalidid); reflexivity. }
    exists light. split; [exact Hin |]. split; [reflexivity |].
    destruct (made_lights_cases _ _ _ Hin) as [(Hrange' & _) | Henv]; [| exact Henv].
    unfold light in Hrange'. cbn in Hrange'. unfold invalidid in Hrange'. lia.
Qed.

(** X13.  The cdf of an instance light made by [make_trace_lights] is
    not empty, provided [empty()] and [size()] of the element vectors
    agree: [elements_cdf.back()], which [sample_lights_pdf] divides by,
    reads its last entry, and this is the sum of the areas of the
    elements of the shape, added in index order in single precision. *)
Theorem instance_lights_have_area scene params light :
  sizes_agree ->
  In light (lights (make_trace_lights scene params)) ->
  light_instance light <> invalidid ->
  let shape := scene_shapes_at scene
                 (instance_shape (scene_instances_at scene (light_instance light))) in
  elements_cdf light = cumulate None (element_areas shape) /\
  elements_cdf light <> [] /\
  back (elements_cdf light) = running_sum (element_areas shape).
Proof.
  intros Hsizes Hin Hinstance shape.
  destruct (made_lights_cases _ _ _ Hin) as [(_ & _ & _ & Hempty & Hcdf) | [Hno _]];
    [| contradiction].
  fold shape in Hempty, Hcdf.
  assert (elements_cdf light = cumulate None (element_areas shape)) as Hcumulate.
  { rewrite Hcdf. unfold element_areas, triangles_cdf, quads_cdf.
    destruct (shape_quads_empty shape); reflexivity. }
  split; [exact Hcumulate |]. split; [| rewrite Hcumulate; apply back_cumulate].
  intros Hnil. apply (f_equal (@length float)) in Hnil.
  rewrite Hcumulate, cumulate_length in Hnil. revert Hnil.
  destruct (Hsizes shape) as [Htriangles Hquads]. unfold element_areas.
  destruct (shape_quads_empty shape) eqn:Equads.
  - rewrite andb_true_r in Hempty. specialize (Htriangles Hempty).
    unfold triangle_areas, range. rewrite !length_map, length_seq. cbn. lia.
  - specialize (Hquads eq_refl).
    unfold quad_areas, range. rewrite !length_map, length_seq. cbn. lia.
Qed.

End Lights.

(** ** Tasks, images and the acceleration structure *)

Section Tasks.
Context `{L : Library}.

Lemma schedule_batch scene b ls params first count schedule state :
  sized state ->
  is_schedule (extents (s_render state)) schedule ->
  for_each (trace_pixel scene b ls params first count) schedule state =
  for_each (trace_pixel scene b ls params first count)
    (range2 (extents (s_render state))) state.
Proof.
  intros Hsized Hschedule. symmetry.
  pose proof (schedule_permutation _ _ Hschedule) as Hperm.
  destruct (get_trace_sampler_func params) as [sampler | e] eqn:Hsampler.
  - apply (batch_permutation _ _ _ _ (extents (s_render state)) sampler Hsampler);
      [exact Hperm | apply NoDup_pixel_keys | split; [exact Hsized | reflexivity]].
  - apply (batch_unknown _ _ _ _ e Hsampler). apply Permutation_length, Hperm.
Qed.

Lemma for_each_ext_in {A : Type} (f g : A -> proc) (l : list A) state :
  (forall a s, In a l -> f a s = g a s) -> for_each f l state = for_each g l state.
Proof.
  revert state. induction l as [| a l IH]; intros state Hext; [reflexivity |].
  cbn [for_each]. unfold and_then. rewrite Hext by (left; reflexivity).
  destruct (g a state) as [state1 [e |]]; [reflexivity |].
  apply IH. intros a' s Ha'. apply Hext. right. exact Ha'.
Qed.

(** X14.  An asynchronous batch that ends with [context.done] set has
    done what a call of [trace_samples] does: with at least one hardware
    thread and on a state whose buffers agree in size, the task launched
    by [trace_start] sets the flag only if no sample was skipped for
    [context.stop] and nothing was thrown, and then leaves the state
    that the loops of the [noparallel] branch, the bump of the sample
    count and the denoising leave. *)
Theorem finished_task_is_a_batch task state state' thrown :
  0 < hardware_concurrency ->
  sized state ->
  worker_run task state (state', true, thrown) ->
  thrown = None /\
  after_batch (task_params task)
    (trace_batch_sequential (task_scene task) (task_bvh task) (task_lights task)
       (task_params task) state) = (state', None).
Proof.
  intros Hworkers Hsized Hrun.
  inversion Hrun as [| | progress stopped traced Hbatch Hprogress Hout]; subst.
  cbn in Hout. destruct stopped; [discriminate |].
  destruct (denoise_batch _ _) as [state2 [e |]] eqn:Hdenoise; [discriminate |].
  injection Hout as -> <-. split; [reflexivity |].
  inversion Hbatch as [Hnone | schedule _ Hschedule Hfor]; [lia |].
  assert (forall ij, In ij (range2 (extents (s_render state))) ->
            Z.min (progress ij) (batch (task_params task)) = batch (task_params task))
    as Hwhole.
  { intros ij Hin. specialize (Hprogress ij Hin).
    destruct (Z.ltb_spec (progress ij) (batch (task_params task))) as [Hlt | Hge];
      [specialize (Hprogress Hlt); discriminate | lia]. }
  rewrite (for_each_ext_in _
             (trace_pixel (task_scene task) (task_bvh task) (task_lights task)
                (task_params task) (s_samples state) (batch (task_params task))))
    in Hfor.
  2:{ intros ij s Hin. rewrite Hwhole; [reflexivity |].
      apply (Permutation_in ij (Permutation_sym (schedule_permutation _ _ Hschedule))).
      exact Hin. }
  rewrite (schedule_batch _ _ _ _ _ _ _ _ Hsized Hschedule) in Hfor.
  unfold trace_batch_sequential. rewrite Hfor. cbn [after_batch].
  unfold and_then, bump_samples. exact Hdenoise.
Qed.

(** X15.  False color rendering draws no random number: the generator
    comes back as it went in, the result does not depend on it, and the
    ray was a hit exactly when the result says so. *)
Theorem trace_falsecolor_draws_nothing scene b ls ray params rng rng' :
  snd (trace_falsecolor scene b ls ray params rng) = rng /\
  fst (trace_falsecolor scene b ls ray params rng) =
    fst (trace_falsecolor scene b ls ray params rng') /\
  hit (fst (trace_falsecolor scene b ls ray params rng)) =
    isec_hit (intersect_scene b scene ray false).
Proof.
  unfold trace_falsecolor.
  destruct (isec_hit (intersect_scene b scene ray false)); cbn; repeat split.
Qed.

Lemma reached_exception scene b ls params n state e :
  denoiser_keeps_size ->
  render_run scene b ls params n (state, Some e) ->
  e = runtime_error "sampler unknown".
Proof.
  intros Hkeeps Hrun. destruct n as [| n].
  - apply render_run_start in Hrun. discriminate.
  - destruct (render_run_step _ _ _ _ _ _ Hrun) as (state0 & Hbefore & Hcall).
    pose proof (reached_sized _ _ _ _ _ _ Hkeeps Hbefore) as Hsized.
    destruct (trace_samples_sized _ _ _ _ _ _ Hkeeps Hsized Hcall)
      as (_ & [Hnone | [Hsome _]] & _); cbn in *; congruence.
Qed.

(** A call of [trace_samples] that throws had a sample throw: the
    dispatcher does not know the sampler. *)
Lemma trace_samples_thrown scene b ls params state state' e :
  denoiser_keeps_size -> sized state ->
  trace_samples scene b ls params state (state', Some e) ->
  get_trace_sampler_func params = Throw e.
Proof.
  intros Hkeeps Hsized Hrun.
  destruct (trace_samples_cases _ _ _ _ _ _ Hrun)
    as [[_ Heq] | (_ & traced & Heq & Htraced)]; [discriminate |].
  destruct traced as [state1 [e1 |]].
  - cbn in Heq. injection Heq as -> ->.
    destruct Htraced as [Hnone | [order Horder]]; [discriminate |]. symmetry in Horder.
    refine (proj2 (for_each_keeps _ (fun _ => True)
                     (fun e => get_trace_sampler_func params = Throw e) _
                     order state state1 (Some e1) I Horder) e1 eq_refl).
    intros ij st st' th _ Hpixel. split; [exact I |]. unfold trace_pixel in Hpixel.
    refine (proj2 (for_each_keeps _ (fun _ => True)
                     (fun e => get_trace_sampler_func params = Throw e) _
                     _ st st' th I Hpixel)).
    intros sample st1 st1' th1 _ Hsample. split; [exact I |].
    intros e2 ->. unfold trace_sample_proc in Hsample.
    destruct (trace_sample st1 scene b ls ij sample params) as [st2 | e3] eqn:Hts;
      [discriminate |].
    injection Hsample as _ <-. exact (proj1 (trace_sample_throws _ _ _ _ _ _ _ _ Hts)).
  - exfalso.
    assert (sized state1) as Hsized1.
    { destruct Htraced as [[= ->] | [order Horder]]; [exact Hsized |]. symmetry in Horder.
      destruct (trace_pixels_keep scene b ls params (s_samples state) (batch params)
                  (s_samples state) (s_denoised state) order state state1 None)
        as [(Hs & _) _]; [split; [| split]; auto | exact Horder | exact Hs]. }
    cbn [after_batch] in Heq.
    destruct (after_batch_sized params state1 Hkeeps Hsized1) as (state2 & Hend & _).
    rewrite Hend in Heq. discriminate.
Qed.

Lemma reached_unknown_sampler scene b ls params n state e :
  denoiser_keeps_size ->
  render_run scene b ls params n (state, Some e) ->
  get_trace_sampler_func params = Throw e.
Proof.
  intros Hkeeps Hrun. destruct n as [| n].
  - apply render_run_start in Hrun. discriminate.
  - destruct (render_run_step _ _ _ _ _ _ Hrun) as (state0 & Hbefore & Hcall).
    pose proof (reached_sized _ _ _ _ _ _ Hkeeps Hbefore) as Hsized.
    exact (trace_samples_thrown _ _ _ _ _ _ _ Hkeeps Hsized Hcall).
Qed.

Lemma render_run_count scene b ls params n state :
  0 < batch params ->
  render_run scene b ls params n (state, None) ->
  s_samples state = batch params * Z.min (Z.of_nat n) (batches params).
Proof.
  intros Hbatch. destruct (batches_spec params Hbatch) as (Hk0 & Hreach & Hleast).
  revert state. induction n as [| n IH]; intros state Hrun.
  - apply render_run_start in Hrun. injection Hrun as ->. cbn [make_trace_state s_samples].
    lia.
  - destruct (render_run_step _ _ _ _ _ _ Hrun) as (state0 & Hbefore & Hcall).
    specialize (IH _ Hbefore).
    rewrite (trace_samples_count _ _ _ _ _ _ Hcall), Nat2Z.inj_succ.
    destruct (Z.geb_spec (s_samples state0) (samples params)); nia.
Qed.

End Tasks.

Section Images.
Context `{B : SceneBuild}.

(** X16.  [trace_image] calls [trace_samples] often enough: with a
    positive batch, and a denoising library (if built in) that keeps the
    size of its input, one of two things happens.  Either a call of
    [trace_samples] threw the runtime error of an unknown sampler, the
    sampler of [params] is indeed none the dispatcher knows, and
    [trace_image] throws that error.  Or the [params.samples] calls made
    on the state of [make_trace_state], with the bvh and the lights made
    for the scene, left a state without throwing; that state holds the
    least multiple of the batch that reaches [params.samples], and
    [trace_image] returns its denoised buffer if there is one, else its
    render. *)
Theorem trace_image_finishes scene params out :
  0 < batch params ->
  denoiser_keeps_size ->
  trace_image scene params out ->
  (out = Throw (runtime_error "sampler unknown") /\
   get_trace_sampler_func params = Throw (runtime_error "sampler unknown") /\
   exists n state,
     (n <= Z.to_nat (samples params))%nat /\
     render_run scene (make_trace_bvh scene params) (make_trace_lights scene params) params
       n (state, Some (runtime_error "sampler unknown"))) \/
  exists state,
    render_run scene (make_trace_bvh scene params) (make_trace_lights scene params) params
      (Z.to_nat (samples params)) (state, None) /\
    out = Ok (if image_empty (s_denoised state) then s_render state else s_denoised state) /\
    s_samples state = batch params * batches params /\
    samples params <= s_samples state /\
    sized state.
Proof.
  intros Hbatch Hkeeps Hrun.
  inversion Hrun as [state Hcalls | n state e Hle Hcalls]; subst.
  - right. exists state.
    destruct (batches_spec params Hbatch) as (Hk0 & Hreach & Hleast).
    pose proof (render_run_count _ _ _ _ _ _ Hbatch Hcalls) as Hcount.
    assert (Z.min (Z.of_nat (Z.to_nat (samples params))) (batches params) = batches params)
      as Hmin by nia.
    rewrite Hmin in Hcount.
    split; [exact Hcalls |]. split; [| split; [exact Hcount | split; [nia |]]].
    + unfold get_image, get_image_into. rewrite check_image_same by reflexivity.
      reflexivity.
    + exact (reached_sized _ _ _ _ _ _ Hkeeps Hcalls).
  - left.
    pose proof (reached_exception _ _ _ _ _ _ _ Hkeeps Hcalls) as ->.
    split; [reflexivity |].
    split; [exact (reached_unknown_sampler _ _ _ _ _ _ _ Hkeeps Hcalls) |].
    exists n, state. split; [exact Hle | exact Hcalls].
Qed.

(** X17.  Which structure the rays meet on a bvh made by
    [make_trace_bvh], given that a default-constructed embree bvh is
    absent: without embree (not asked for, or not supported) both
    intersection shortcuts go to the bvh built by [make_scene_bvh]; with
    embree they go to the embree bvh if [make_scene_ebvh] built one, and
    else to a default-constructed, empty bvh. *)
Theorem made_bvh_dispatch scene params ray find_any instance :
  ebvh_present empty_ebvh = false ->
  let b := make_trace_bvh scene params in
  let built := make_scene_bvh scene (highqualitybvh params) (noparallel params) in
  let ebuilt := make_scene_ebvh scene (highqualitybvh params) (noparallel params) in
  (embreebvh params && embree_supported = false ->
   intersect_scene b scene ray find_any = intersect_scene_bvh built scene ray find_any /\
   intersect_instance b scene instance ray find_any =
     intersect_instance_bvh built scene instance ray find_any) /\
  (embreebvh params && embree_supported = true ->
   intersect_scene b scene ray find_any =
     (if ebvh_present ebuilt then intersect_scene_ebvh ebuilt scene ray find_any
      else intersect_scene_bvh empty_bvh scene ray find_any) /\
   intersect_instance b scene instance ray find_any =
     (if ebvh_present ebuilt then intersect_instance_ebvh ebuilt scene instance ray find_any
      else intersect_instance_bvh empty_bvh scene instance ray find_any)).
Proof.
  intros Habsent b built ebuilt. unfold b, make_trace_bvh, intersect_scene, intersect_instance.
  split; intros ->; cbn [bvh ebvh]; [rewrite Habsent |]; split; reflexivity.
Qed.

End Images.

Section BuildExamples.
#[local] Existing Instance Toy.library.
#[local] Existing Instance ToyBuild.build.

Definition glowing_light : trace_light := mk_trace_light 0 invalidid [f1].

Lemma toy_sizes_agree : sizes_agree.
Proof. intros shape. split; [reflexivity | discriminate]. Qed.

Lemma toy_lights (params : trace_params) :
  make_trace_lights glowing params = Toy.one_emitter.
Proof. vm_compute. reflexivity. Qed.

Lemma toy_bvh (params : trace_params) :
  embreebvh params = false -> make_trace_bvh glowing params = Toy.accel.
Proof. unfold make_trace_bvh. intros ->. reflexivity. Qed.

Lemma instance_lights_have_area_witness :
  elements_cdf glowing_light <> [] /\
  back (elements_cdf glowing_light) = running_sum (element_areas tt).
Proof.
  exact (proj2 (instance_lights_have_area (B := ToyBuild.build) glowing naive1 glowing_light
                  toy_sizes_agree
                  ltac:(rewrite toy_lights; left; reflexivity)
                  ltac:(vm_compute; discriminate))).
Defined.

Definition wide_task : async_task :=
  mk_async_task glowing Toy.accel Toy.one_emitter wide_parallel.

(** The batch of the task, every pixel to the end, the upper row first. *)
Definition wide_batch : trace_state * option exn :=
  for_each (fun ij => trace_pixel glowing Toy.accel Toy.one_emitter wide_parallel
                        (s_samples (make_trace_state glowing wide_parallel))
                        (Z.min 1 (batch wide_parallel)) ij)
    bottom_up (make_trace_state glowing wide_parallel).

Lemma wide_batch_returns : snd wide_batch = None.
Proof. vm_compute. reflexivity. Qed.

Lemma wide_task_run :
  worker_run wide_task (make_trace_state glowing wide_parallel)
    (set_samples (fst wide_batch) (s_samples (fst wide_batch) + batch wide_parallel),
     true, None).
Proof.
  apply (worker_batch (L := Toy.library) wide_task
           (make_trace_state (L := Toy.library) glowing wide_parallel)
           (fun _ => 1) false (fst wide_batch)).
  - rewrite (returned wide_batch wide_batch_returns).
    apply parallel_schedule; [reflexivity |].
    rewrite wide_parallel_size. exact bottom_up_schedule.
  - intros ij _ Hless. cbn in Hless. lia.
Qed.

Lemma finished_task_is_a_batch_witness :
  after_batch wide_parallel
    (trace_batch_sequential glowing Toy.accel Toy.one_emitter wide_parallel
       (make_trace_state glowing wide_parallel))
  = (set_samples (fst wide_batch) (s_samples (fst wide_batch) + batch wide_parallel), None).
Proof.
  exact (proj2 (finished_task_is_a_batch (L := Toy.library) wide_task
                  (make_trace_state (L := Toy.library) glowing wide_parallel) _ _
                  ltac:(reflexivity) (make_trace_state_sized glowing wide_parallel)
                  wide_task_run)).
Defined.

Lemma toy_image_run :
  trace_image glowing batched (get_image (fst two_calls)).
Proof.
  apply trace_image_rendered.
  rewrite toy_lights, toy_bvh by reflexivity. exact three_calls_run.
Qed.

Lemma trace_image_finishes_witness :
  let out := get_image (fst two_calls) in
  (out = Throw (runtime_error "sampler unknown") /\
   get_trace_sampler_func batched = Throw (runtime_error "sampler unknown") /\
   exists n state,
     (n <= Z.to_nat (samples batched))%nat /\
     render_run glowing (make_trace_bvh glowing batched) (make_trace_lights glowing batched)
       batched n (state, Some (runtime_error "sampler unknown"))) \/
  exists state,
    render_run glowing (make_trace_bvh glowing batched) (make_trace_lights glowing batched)
      batched (Z.to_nat (samples batched)) (state, None) /\
    out = Ok (if image_empty (s_denoised state) then s_render state else s_denoised state) /\
    s_samples state = batch batched * batches batched /\
    samples batched <= s_samples state /\
    sized state.
Proof.
  intros out.
  exact (trace_image_finishes (B := ToyBuild.build) glowing batched out ltac:(reflexivity)
           toy_denoiser_keeps_size toy_image_run).
Defined.

Lemma made_bvh_dispatch_witness :
  intersect_scene (make_trace_bvh glowing naive1) glowing camera_ray false =
    intersect_scene_bvh tt glowing camera_ray false.
Proof.
  exact (proj1 (proj1 (made_bvh_dispatch (B := ToyBuild.build) glowing naive1 camera_ray
                         false 0 eq_refl) eq_refl)).
Defined.

End BuildExamples.

(** ** Bounds of the buffers, and the preview *)

Section BufferBounds.
Context `{L : Library}.

Lemma full_make_image {T : Type} (size : vec2i) (v : T) : full (make_image size v).
Proof. unfold full, make_image. cbn. apply length_replicate. Qed.

Lemma seed_rngs_length n seed rng : length (seed_rngs n seed rng) = n.
Proof.
  revert rng. induction n as [| n IH]; intros rng; [reflexivity |].
  cbn [seed_rngs]. destruct (rand1i rng _) as [r rng']. cbn. rewrite IH. reflexivity.
Qed.

Lemma make_trace_state_full scene params : buffers_full (make_trace_state scene params).
Proof.
  unfold buffers_full, make_trace_state. cbn.
  repeat split; try apply full_make_image.
  unfold full. cbn. apply seed_rngs_length.
Qed.

Lemma image_set_full {T : Type} (img : image T) (ij : vec2i) (v : T) :
  full img -> full (image_set img ij v).
Proof. unfold full. rewrite image_set_length, image_set_extents. auto. Qed.

Lemma trace_sample_full scene b ls params state ij sample state' :
  buffers_full state ->
  trace_sample state scene b ls ij sample params = Ok state' ->
  buffers_full state'.
Proof.
  intros [(Fr & Fa & Fn & Fh & Fg) (Ea & En & Eh & Eg)]. unfold trace_sample.
  destruct (get_trace_sampler_func params) as [sampler | e]; [| discriminate].
  destruct (args2 rand2f rand2f _) as [[puv luv] rng].
  destruct (sampler _ _ _ _ _ _) as [traced rng'].
  destruct (hit traced); [| destruct (_ && _)];
    intros [= <-]; unfold buffers_full; cbn; rewrite ?image_set_extents;
    repeat split; try apply image_set_full; assumption.
Qed.

Lemma end_of_batch_buffers params state state' thrown :
  and_then (bump_samples params) (denoise_batch params) state = (state', thrown) ->
  s_render state' = s_render state /\ s_albedo state' = s_albedo state /\
  s_normal state' = s_normal state /\ s_hits state' = s_hits state /\
  s_rngs state' = s_rngs state.
Proof.
  unfold and_then, bump_samples, denoise_batch, denoise_image.
  cbn [s_denoised set_samples s_render s_albedo s_normal].
  destruct (denoise params && negb (image_empty (s_denoised state)));
    [| intros [= <- _]; repeat split].
  repeat (destruct (check_image _ _); [intros [= <- _]; repeat split |]).
  destruct oidn_denoise; intros [= <- _]; repeat split.
Qed.

Lemma trace_samples_full scene b ls params state out :
  buffers_full state ->
  trace_samples scene b ls params state out ->
  buffers_full (fst out).
Proof.
  intros Hfull Hrun.
  destruct (trace_samples_cases _ _ _ _ _ _ Hrun)
    as [[_ ->] | (_ & traced & -> & Htraced)]; [exact Hfull |].
  assert (buffers_full (fst traced)) as Hfull1.
  { destruct Htraced as [-> | [order ->]]; [exact Hfull |].
    destruct (for_each _ order state) as [state1 thrown] eqn:Hbatch.
    refine (trace_pixels_preserve scene b ls params _ _ buffers_full _ order _ _ _
              Hfull Hbatch).
    intros st ij sample st'. apply trace_sample_full. }
  destruct traced as [state1 [e |]]; [exact Hfull1 |].
  cbn [after_batch]. destruct (and_then _ _ state1) as [state2 thrown] eqn:Hend.
  apply end_of_batch_buffers in Hend as (Er & Ea & En & Eh & Eg).
  cbn in *. unfold buffers_full. rewrite Er, Ea, En, Eh, Eg. exact Hfull1.
Qed.

Lemma reached_full scene b ls params n out :
  render_run scene b ls params n out -> buffers_full (fst out).
Proof.
  revert out. induction n as [| n IH]; intros out Hrun.
  - rewrite (render_run_start _ _ _ _ _ Hrun). apply make_trace_state_full.
  - destruct (render_run_step _ _ _ _ _ _ Hrun) as (state & Hbefore & Hcall).
    exact (trace_samples_full _ _ _ _ _ _ (IH _ Hbefore) Hcall).
Qed.

Lemma in_bounds_range2 {T : Type} (img : image T) (size ij : vec2i) :
  full img -> extents img = size -> In ij (range2 size) -> in_bounds img ij.
Proof.
  unfold full, in_bounds, pixel_index. intros Hfull <- Hin.
  apply In_range2 in Hin. rewrite Hfull. nia.
Qed.

(** X18.  The accesses of progressive rendering are within the buffers:
    in every state reached by [make_trace_state] and any number of
    [trace_samples] calls, each of the five buffers a sample reads and
    writes holds an entry for every pixel of [range(state.render.size())]. *)
Theorem render_accesses_in_bounds scene b ls params n out ij :
  render_run scene b ls params n out ->
  In ij (range2 (extents (s_render (fst out)))) ->
  in_bounds (s_render (fst out)) ij /\ in_bounds (s_albedo (fst out)) ij /\
  in_bounds (s_normal (fst out)) ij /\ in_bounds (s_hits (fst out)) ij /\
  in_bounds (s_rngs (fst out)) ij.
Proof.
  intros Hrun Hin.
  destruct (reached_full _ _ _ _ _ _ Hrun) as [(Fr & Fa & Fn & Fh & Fg) (Ea & En & Eh & Eg)].
  repeat split; eapply in_bounds_range2; eauto.
Qed.

Lemma reached_denoised scene b ls params n out :
  oidn_denoise = None ->
  render_run scene b ls params n out ->
  sized (fst out) /\ denoised_in_step params (fst out).
Proof.
  intros Hnone.
  assert (denoiser_keeps_size) as Hkeeps by (intros filter Hfilter; congruence).
  revert out. induction n as [| n IH]; intros out Hrun.
  - rewrite (render_run_start _ _ _ _ _ Hrun). cbn.
    split; [apply make_trace_state_sized | apply make_trace_state_denoised].
  - destruct (render_run_step _ _ _ _ _ _ Hrun) as (state & Hbefore & Hcall).
    destruct (IH _ Hbefore) as [Hsized Hstep].
    destruct (trace_samples_sized _ _ _ _ _ _ Hkeeps Hsized Hcall)
      as (Hsized' & _ & Hstep').
    split; [exact Hsized' | exact (Hstep' Hnone Hstep)].
Qed.

Lemma get_image_copy params state :
  denoised_in_step params state -> get_image state = Ok (s_render state).
Proof.
  intros [_ Hcopy]. unfold get_image, get_image_into.
  rewrite check_image_same by reflexivity.
  destruct (image_empty (s_denoised state)) eqn:Hempty; [reflexivity |].
  rewrite (Hcopy eq_refl). reflexivity.
Qed.

Lemma upsample_extents params preview img size :
  extents (upsample params preview img size) = extents img.
Proof.
  unfold upsample. generalize (range2 size). intros l. revert img.
  induction l as [| ij l IH]; intros img; [reflexivity |].
  cbn [fold_left]. rewrite IH. apply image_set_extents.
Qed.

Lemma preview_pixel_in_bounds params (preview : image vec4f) ij :
  full preview ->
  0 < xi (extents preview) -> 0 < yi (extents preview) ->
  in_bounds preview (preview_pixel params preview ij).
Proof.
  unfold full, in_bounds, pixel_index, preview_pixel, clampi. cbn [xi yi].
  intros -> Hw Hh. nia.
Qed.

Lemma preview_pixel_out_of_bounds params (preview : image vec4f) ij :
  xi (extents preview) = 0 \/ yi (extents preview) = 0 ->
  pixel_index preview (preview_pixel params preview ij) < 0.
Proof.
  unfold pixel_index, preview_pixel, clampi. cbn [xi yi]. intros [Hw | Hh]; nia.
Qed.

(** X19.  What [trace_preview] reads, in a build without the denoising
    library: it throws only the runtime error of an unknown sampler;
    otherwise the preview it upsamples is the render of the state made
    for the reduced resolution after one call of [trace_samples], the
    image written keeps its size, and every read [preview[pij]] is
    within the preview if the preview has pixels.  If the preview has
    none (a zero width or height), every read is at a negative index. *)
Theorem trace_preview_reads img size scene b ls params out :
  oidn_denoise = None ->
  trace_preview img size scene b ls params out ->
  out = Throw (runtime_error "sampler unknown") \/
  exists pstate,
    trace_samples scene b ls (preview_params params)
      (make_trace_state scene (preview_params params)) (pstate, None) /\
    out = Ok (upsample params (s_render pstate) img size) /\
    extents (upsample params (s_render pstate) img size) = extents img /\
    (0 < xi (extents (s_render pstate)) -> 0 < yi (extents (s_render pstate)) ->
     forall ij, in_bounds (s_render pstate) (preview_pixel params (s_render pstate) ij)) /\
    (xi (extents (s_render pstate)) = 0 \/ yi (extents (s_render pstate)) = 0 ->
     forall ij, pixel_index (s_render pstate) (preview_pixel params (s_render pstate) ij) < 0).
Proof.
  intros Hnone Hrun.
  assert (denoiser_keeps_size) as Hkeeps by (intros filter Hfilter; congruence).
  assert (forall pout,
            trace_samples scene b ls (preview_params params)
              (make_trace_state scene (preview_params params)) pout ->
            render_run scene b ls (preview_params params) 1 pout) as Hone.
  { intros pout Hcall. eapply render_step; [apply render_start | exact Hcall]. }
  inversion Hrun as [pstate preview Hcall Hread | pstate e Hcall | pstate e Hcall Hread];
    subst.
  - right. exists pstate. specialize (Hone _ Hcall).
    destruct (reached_denoised _ _ _ _ _ _ Hnone Hone) as [_ Hstep]. cbn [fst] in Hstep.
    rewrite (get_image_copy _ _ Hstep) in Hread. injection Hread as <-.
    split; [exact Hcall |]. split; [reflexivity |].
    split; [apply upsample_extents |]. split.
    + intros Hw Hh ij. apply preview_pixel_in_bounds; [| exact Hw | exact Hh].
      exact (proj1 (proj1 (reached_full _ _ _ _ _ _ Hone))).
    + intros Hzero ij. apply preview_pixel_out_of_bounds, Hzero.
  - left. f_equal. exact (reached_exception _ _ _ _ _ _ _ Hkeeps (Hone _ Hcall)).
  - exfalso. specialize (Hone _ Hcall).
    destruct (reached_denoised _ _ _ _ _ _ Hnone Hone) as [_ Hstep]. cbn [fst] in Hstep.
    rewrite (get_image_copy _ _ Hstep) in Hread. discriminate.
Qed.

End BufferBounds.

Section BoundsExamples.
#[local] Existing Instance Toy.library.

Lemma render_accesses_in_bounds_witness :
  in_bounds (s_render (fst (fst two_calls, @None exn))) pixel00 /\
  in_bounds (s_albedo (fst (fst two_calls, @None exn))) pixel00 /\
  in_bounds (s_normal (fst (fst two_calls, @None exn))) pixel00 /\
  in_bounds (s_hits (fst (fst two_calls, @None exn))) pixel00 /\
  in_bounds (s_rngs (fst (fst two_calls, @None exn))) pixel00.
Proof.
  exact (render_accesses_in_bounds (L := Toy.library) glowing Toy.accel Toy.one_emitter
           batched 3 (fst two_calls, None) pixel00 three_calls_run
           ltac:(vm_compute; left; reflexivity)).
Defined.

(** The state of the preview after its one call. *)
Definition preview_call : trace_state * option exn :=
  after_batch (preview_params batched)
    (trace_batch_sequential glowing Toy.accel Toy.one_emitter (preview_params batched)
       (make_trace_state glowing (preview_params batched))).

Lemma preview_call_returns : snd preview_call = None.
Proof. vm_compute. reflexivity. Qed.

Lemma preview_call_run :
  trace_samples glowing Toy.accel Toy.one_emitter (preview_params batched)
    (make_trace_state glowing (preview_params batched)) (fst preview_call, None).
Proof.
  rewrite (returned preview_call preview_call_returns).
  apply trace_samples_noparallel; [vm_compute; reflexivity | reflexivity].
Qed.

Lemma preview_call_read : get_image (fst preview_call) = Ok (s_render (fst preview_call)).
Proof.
  apply (get_image_copy (preview_params batched)).
  apply (reached_denoised (L := Toy.library) glowing Toy.accel Toy.one_emitter
           (preview_params batched) 1 (fst preview_call, None) eq_refl).
  eapply render_step; [apply render_start | exact preview_call_run].
Qed.

Lemma trace_preview_reads_witness :
  let img := make_image (mk_vec2i 2 2) zero4 in
  let size := mk_vec2i 2 2 in
  let out := Ok (upsample batched (s_render (fst preview_call)) img size) in
  out = Throw (runtime_error "sampler unknown") \/
  exists pstate,
    trace_samples glowing Toy.accel Toy.one_emitter (preview_params batched)
      (make_trace_state glowing (preview_params batched)) (pstate, None) /\
    out = Ok (upsample batched (s_render pstate) img size) /\
    extents (upsample batched (s_render pstate) img size) = extents img /\
    (0 < xi (extents (s_render pstate)) -> 0 < yi (extents (s_render pstate)) ->
     forall ij, in_bounds (s_render pstate) (preview_pixel batched (s_render pstate) ij)) /\
    (xi (extents (s_render pstate)) = 0 \/ yi (extents (s_render pstate)) = 0 ->
     forall ij, pixel_index (s_render pstate) (preview_pixel batched (s_render pstate) ij) < 0).
Proof.
  intros img size out.
  exact (trace_preview_reads (L := Toy.library) img size glowing Toy.accel Toy.one_emitter
           batched out eq_refl
           (trace_preview_shown (L := Toy.library) img size glowing Toy.accel
              Toy.one_emitter batched (fst preview_call) (s_render (fst preview_call))
              preview_call_run preview_call_read)).
Defined.

End BoundsExamples.

(** ** What an asynchronous batch keeps *)

Section TaskInvariants.
Context `{L : Library}.

(** A batch in which the pixels stop after a number of samples of their
    own keeps what a whole batch keeps. *)
Lemma partial_batch_keeps scene b ls params first (count : vec2i -> Z)
    (num : vec2i) state state' thrown :
  sized state ->
  parallel_for_batch num
    (fun ij => trace_pixel scene b ls params first (count ij) ij) state (state', thrown) ->
  batch_invariant (s_samples state) (s_denoised state) state' /\
  (forall e, thrown = Some e -> e = runtime_error "sampler unknown").
Proof.
  intros Hsized Hrun.
  assert (batch_invariant (s_samples state) (s_denoised state) state) as Hstart
    by (split; [| split]; auto).
  inversion Hrun as [Hnone | schedule _ Hschedule Hfor]; subst.
  - split; [exact Hstart | discriminate].
  - apply (for_each_keeps
             (fun ij => trace_pixel scene b ls params first (count ij) ij)
             (batch_invariant (s_samples state) (s_denoised state))
             (fun e => e = runtime_error "sampler unknown")) in Hfor; [exact Hfor | | exact Hstart].
    intros ij st st' th. apply trace_pixel_keeps.
Qed.

(** X20.  What a task launched by [trace_start] can leave, whenever
    [context.stop] is raised: on a state whose buffers agree in size, and
    with a denoising library (if built in) that keeps the size of its
    input, the buffers still agree in size, the sample count is the old
    one or the old one plus [params.batch], the only exception is the
    runtime error of an unknown sampler, and [context.done] is set only
    when nothing was thrown and the batch was counted. *)
Theorem task_keeps_the_state task state state' finished thrown :
  denoiser_keeps_size ->
  sized state ->
  worker_run task state (state', finished, thrown) ->
  sized state' /\
  (s_samples state' = s_samples state \/
   s_samples state' = s_samples state + batch (task_params task)) /\
  (thrown = None \/ thrown = Some (runtime_error "sampler unknown")) /\
  (finished = true ->
   thrown = None /\ s_samples state' = s_samples state + batch (task_params task)).
Proof.
  intros Hkeeps Hsized Hrun.
  inversion Hrun as [| progress traced e Hbatch | progress stopped traced Hbatch _ Hout];
    subst.
  - split; [exact Hsized |]. split; [left; reflexivity |].
    split; [left; reflexivity | discriminate].
  - destruct (partial_batch_keeps _ _ _ _ _ _ _ _ _ _ Hsized Hbatch)
      as [(Hsized' & Hsamples & _) He].
    split; [exact Hsized' |]. split; [left; exact Hsamples |].
    split; [right; f_equal; exact (He e eq_refl) | discriminate].
  - destruct (partial_batch_keeps _ _ _ _ _ _ _ _ _ _ Hsized Hbatch)
      as [(Hsized' & Hsamples & _) _].
    destruct (after_batch_sized (task_params task) traced Hkeeps Hsized')
      as (state2 & Hend & Hsized2 & Hsamples2 & _).
    unfold and_then, bump_samples in Hend. cbn in Hout.
    destruct stopped.
    + injection Hout as <- <- <-.
      split; [exact Hsized' |]. split; [right; cbn; lia |].
      split; [left; reflexivity | discriminate].
    + rewrite Hend in Hout. injection Hout as <- <- <-.
      split; [exact Hsized2 |]. split; [right; lia |].
      split; [left; reflexivity |]. intros _. split; [reflexivity | lia].
Qed.

End TaskInvariants.

Section TaskExamples.
#[local] Existing Instance Toy.library.

Lemma task_keeps_the_state_witness :
  let state := make_trace_state glowing wide_parallel in
  let state' := set_samples (fst wide_batch)
                  (s_samples (fst wide_batch) + batch wide_parallel) in
  sized state' /\
  (s_samples state' = s_samples state \/
   s_samples state' = s_samples state + batch (task_params wide_task)) /\
  (@None exn = None \/ None = Some (runtime_error "sampler unknown")) /\
  (true = true ->
   @None exn = None /\ s_samples state' = s_samples state + batch (task_params wide_task)).
Proof.
  intros state state'.
  exact (task_keeps_the_state (L := Toy.library) wide_task state state' true None
           toy_denoiser_keeps_size (make_trace_state_sized glowing wide_parallel)
           wide_task_run).
Defined.

End TaskExamples.

(** ** Without a worker, and the whole image *)

Section Idle.
Context `{L : Library}.

(** X21.  Without a hardware thread the parallel branch renders
    nothing and still counts: if [hardware_concurrency()] answers 0 and
    [params.noparallel] is off, then after any number of [trace_samples]
    calls the five buffers are those [make_trace_state] made, no call has
    thrown if the denoising library (if built in) keeps the size of its
    input, not even for an unknown sampler, and with a positive batch the
    sample count has gone up as if the batches had been traced. *)
Theorem no_worker_traces_nothing scene b ls params n out :
  hardware_concurrency <= 0 ->
  noparallel params = false ->
  render_run scene b ls params n out ->
  let made := make_trace_state scene params in
  (s_render (fst out) = s_render made /\ s_albedo (fst out) = s_albedo made /\
   s_normal (fst out) = s_normal made /\ s_hits (fst out) = s_hits made /\
   s_rngs (fst out) = s_rngs made) /\
  (denoiser_keeps_size -> snd out = None) /\
  (0 < batch params -> snd out = None ->
   s_samples (fst out) = batch params * Z.min (Z.of_nat n) (batches params)).
Proof.
  intros Hidle Hparallel Hrun made.
  split; [| split].
  - revert out Hrun. induction n as [| n IH]; intros out Hrun.
    + rewrite (render_run_start _ _ _ _ _ Hrun). repeat split.
    + destruct (render_run_step _ _ _ _ _ _ Hrun) as (state & Hbefore & Hcall).
      specialize (IH _ Hbefore). cbn [fst] in IH.
      inversion Hcall as [Hge | Hlt Hseq | traced Hlt Hpar Hbatch]; subst;
        [exact IH | congruence |].
      inversion Hbatch as [Hnone | schedule Hworkers]; subst; [| lia].
      cbn [after_batch]. destruct (and_then _ _ state) as [state' thrown] eqn:Hend.
      apply end_of_batch_buffers in Hend as (Er & Ea & En & Eh & Eg).
      cbn [fst]. rewrite Er, Ea, En, Eh, Eg. exact IH.
  - intros Hkeeps. destruct n as [| n].
    + rewrite (render_run_start _ _ _ _ _ Hrun). reflexivity.
    + destruct (render_run_step _ _ _ _ _ _ Hrun) as (state & Hbefore & Hcall).
      pose proof (reached_sized _ _ _ _ _ _ Hkeeps Hbefore) as Hsized.
      inversion Hcall as [Hge | Hlt Hseq | traced Hlt Hpar Hbatch]; subst;
        [reflexivity | congruence |].
      inversion Hbatch as [Hnone | schedule Hworkers]; subst; [| lia].
      cbn [after_batch].
      destruct (after_batch_sized params state Hkeeps Hsized) as (state' & -> & _).
      reflexivity.
  - intros Hbatch Hnone. destruct out as [state thrown]. cbn in Hnone. subst thrown.
    exact (render_run_count _ _ _ _ _ _ Hbatch Hrun).
Qed.

End Idle.

Section Whole.
Context `{B : SceneBuild}.

Lemma render_run_prefix scene b ls params n m state :
  (m <= n)%nat ->
  render_run scene b ls params n (state, None) ->
  exists state', render_run scene b ls params m (state', None).
Proof.
  intros Hle. induction Hle as [| n Hle IH] in state |- *; intros Hrun.
  - exists state. exact Hrun.
  - destruct (render_run_step _ _ _ _ _ _ Hrun) as (state0 & Hbefore & _).
    exact (IH _ Hbefore).
Qed.

Lemma render_run_functional scene b ls params n out1 out2 :
  0 < hardware_concurrency ->
  denoiser_keeps_size ->
  render_run scene b ls params n out1 ->
  render_run scene b ls params n out2 ->
  out1 = out2.
Proof.
  intros Hworkers Hkeeps. revert out1 out2.
  induction n as [| n IH]; intros out1 out2 Hrun1 Hrun2.
  - rewrite (render_run_start _ _ _ _ _ Hrun1), (render_run_start _ _ _ _ _ Hrun2).
    reflexivity.
  - destruct (render_run_step _ _ _ _ _ _ Hrun1) as (state1 & Hbefore1 & Hcall1).
    destruct (render_run_step _ _ _ _ _ _ Hrun2) as (state2 & Hbefore2 & Hcall2).
    pose proof (IH _ _ Hbefore1 Hbefore2) as [= <-].
    pose proof (reached_sized _ _ _ _ _ _ Hkeeps Hbefore1) as Hsized.
    rewrite (trace_samples_functional _ _ _ _ _ _ Hworkers Hsized Hcall1),
      (trace_samples_functional _ _ _ _ _ _ Hworkers Hsized Hcall2).
    reflexivity.
Qed.

(** X22.  [trace_image] is a function of the scene and the parameters:
    with at least one hardware thread and a denoising library (if built
    in) that keeps the size of its input, two executions return the same
    image or throw the same exception, in either branch of
    [trace_samples] and whatever the order of the pixels. *)
Theorem trace_image_is_deterministic scene params out1 out2 :
  0 < hardware_concurrency ->
  denoiser_keeps_size ->
  trace_image scene params out1 ->
  trace_image scene params out2 ->
  out1 = out2.
Proof.
  intros Hworkers Hkeeps Hrun1 Hrun2.
  assert (forall n state e state',
            (n <= Z.to_nat (samples params))%nat ->
            render_run scene (make_trace_bvh scene params) (make_trace_lights scene params)
              params n (state, Some e) ->
            render_run scene (make_trace_bvh scene params) (make_trace_lights scene params)
              params (Z.to_nat (samples params)) (state', None) -> False) as Hclash.
  { intros n state e state' Hle Hthrew Hdone.
    destruct (render_run_prefix _ _ _ _ _ _ _ Hle Hdone) as (state0 & Hprefix).
    pose proof (render_run_functional _ _ _ _ _ _ _ Hworkers Hkeeps Hthrew Hprefix).
    discriminate. }
  inversion Hrun1 as [state1 Hcalls1 | n1 state1 e1 Hle1 Hcalls1];
    inversion Hrun2 as [state2 Hcalls2 | n2 state2 e2 Hle2 Hcalls2]; subst.
  - pose proof (render_run_functional _ _ _ _ _ _ _ Hworkers Hkeeps Hcalls1 Hcalls2)
      as [= ->]. reflexivity.
  - exfalso. exact (Hclash _ _ _ _ Hle2 Hcalls2 Hcalls1).
  - exfalso. exact (Hclash _ _ _ _ Hle1 Hcalls1 Hcalls2).
  - f_equal. rewrite (reached_exception _ _ _ _ _ _ _ Hkeeps Hcalls1),
      (reached_exception _ _ _ _ _ _ _ Hkeeps Hcalls2). reflexivity.
Qed.

End Whole.

Section IdleExamples.
#[local] Existing Instance ToyIdle.library.

Definition idle_accel : @trace_bvh ToyIdle.library := @mk_trace_bvh ToyIdle.library tt tt.

(** One call of the parallel branch on the idle platform. *)
Definition idle_call : trace_state * option exn :=
  after_batch wide_parallel (make_trace_state (L := ToyIdle.library) glowing wide_parallel, None).

Lemma idle_call_run :
  render_run (L := ToyIdle.library) glowing idle_accel Toy.one_emitter wide_parallel 1
    idle_call.
Proof.
  apply (render_step (L := ToyIdle.library) _ _ _ _ 0
           (make_trace_state (L := ToyIdle.library) glowing wide_parallel));
    [apply render_start |].
  apply trace_samples_parallel; [reflexivity | reflexivity |].
  apply parallel_no_worker. vm_compute. discriminate.
Qed.

Lemma no_worker_traces_nothing_witness :
  let made := make_trace_state (L := ToyIdle.library) glowing wide_parallel in
  (s_render (fst idle_call) = s_render made /\ s_albedo (fst idle_call) = s_albedo made /\
   s_normal (fst idle_call) = s_normal made /\ s_hits (fst idle_call) = s_hits made /\
   s_rngs (fst idle_call) = s_rngs made) /\
  (denoiser_keeps_size -> snd idle_call = None) /\
  (0 < batch wide_parallel -> snd idle_call = None ->
   s_samples (fst idle_call) = batch wide_parallel * Z.min (Z.of_nat 1) (batches wide_parallel)).
Proof.
  exact (no_worker_traces_nothing (L := ToyIdle.library) glowing idle_accel Toy.one_emitter
           wide_parallel 1 idle_call ltac:(vm_compute; discriminate) eq_refl idle_call_run).
Defined.

End IdleExamples.

Section WholeExamples.
#[local] Existing Instance Toy.library.
#[local] Existing Instance ToyBuild.build.

(** The one call of [trace_image] for [wide_parallel], along a schedule. *)
Definition wide_call (schedule : list vec2i) : trace_state * option exn :=
  after_batch wide_parallel
    (for_each (trace_pixel glowing Toy.accel Toy.one_emitter wide_parallel
                 (s_samples (make_trace_state glowing wide_parallel)) (batch wide_parallel))
       schedule (make_trace_state glowing wide_parallel)).

Lemma wide_call_bottom_up : snd (wide_call bottom_up) = None.
Proof. vm_compute. reflexivity. Qed.

Lemma wide_call_interleaved : snd (wide_call interleaved) = None.
Proof. vm_compute. reflexivity. Qed.

Lemma wide_image (schedule : list vec2i) :
  is_schedule (mk_vec2i 2 2) schedule ->
  snd (wide_call schedule) = None ->
  trace_image glowing wide_parallel (get_image (fst (wide_call schedule))).
Proof.
  intros Hschedule Hreturns. apply trace_image_rendered.
  rewrite toy_lights, toy_bvh by reflexivity.
  rewrite (returned (wide_call schedule) Hreturns).
  exact (wide_parallel_run schedule Hschedule).
Qed.

Lemma trace_image_is_deterministic_witness :
  get_image (fst (wide_call bottom_up)) = get_image (fst (wide_call interleaved)).
Proof.
  exact (trace_image_is_deterministic (B := ToyBuild.build) glowing wide_parallel _ _
           ltac:(reflexivity) toy_denoiser_keeps_size
           (wide_image bottom_up bottom_up_schedule wide_call_bottom_up)
           (wide_image interleaved interleaved_schedule wide_call_interleaved)).
Defined.

End WholeExamples.

(** ** Reading the images back *)

Section ReadbackChecks.
Context `{L : Library}.

Lemma vec2i_eqb_eq (a b : vec2i) : vec2i_eqb a b = true <-> a = b.
Proof.
  split; [| intros ->; apply vec2i_eqb_refl].
  unfold vec2i_eqb. intros H. apply andb_prop in H as [Hx Hy].
  apply Z.eqb_eq in Hx, Hy. destruct a, b. cbn in *. congruence.
Qed.

Lemma check_image_other {T : Type} (img : image T) (size : vec2i) :
  extents img <> size ->
  check_image img size = Some (invalid_argument "image should have the same size").
Proof.
  intros Hne. unfold check_image.
  destruct (vec2i_eqb (extents img) size) eqn:Heq; [| reflexivity].
  apply vec2i_eqb_eq in Heq. contradiction.
Qed.

(** X23.  The read-back overloads that fill an image of the caller
    check its size and nothing else: given an image of the size of the
    render they answer what the allocating overloads answer, which never
    throw; given any other image they throw the invalid-argument error
    and read nothing. *)
Theorem readback_checks_size (img : image vec4f) (state : trace_state) :
  get_image state =
    Ok (if image_empty (s_denoised state) then s_render state else s_denoised state) /\
  (extents img = extents (s_render state) ->
   get_image_into img state = get_image state /\
   get_rendered_image_into img state = Ok (get_rendered_image state)) /\
  (extents img <> extents (s_render state) ->
   get_image_into img state = Throw (invalid_argument "image should have the same size") /\
   get_rendered_image_into img state =
     Throw (invalid_argument "image should have the same size")).
Proof.
  unfold get_image, get_image_into, get_rendered_image_into, get_rendered_image.
  rewrite (check_image_same (make_image _ _)) by reflexivity.
  split; [reflexivity |]. split; intros Hsize.
  - rewrite (check_image_same img) by exact Hsize. split; reflexivity.
  - rewrite (check_image_other img) by exact Hsize. split; reflexivity.
Qed.

End ReadbackChecks.

(** ** C4: the weight after the roulette *)

Section RouletteExamples.
#[local] Existing Instance Toy.library.

(** A path that reaches the shading of bounce 4 with a weight of 10. *)
Definition vivid : path_state :=
  set_weight (initial_state camera_ray)
    (mk_vec3f (float_of_int 10) (float_of_int 10) (float_of_int 10)).

Definition shaded_state (s : shade_step) : option path_state :=
  match s with Shaded st _ => Some st | _ => None end.

Definition next_state (s : loop_step) : option path_state :=
  match s with Next st => Some st | _ => None end.

(** C4, the claim as stated fails: at bounce 4 of [trace_naive] on a
    matte wall, the weight after shading is 5 and the probability 0.99;
    the draw 0.5 lets the path go on, and the weight handed to the next
    bounce is 10591676 * 2^-21, the product of 5 and the rounded
    reciprocal of 0.99, where the quotient of 5 by 0.99 is
    10591677 * 2^-21. *)
Lemma roulette_weight_is_not_the_quotient :
  let five := float_of_int 5 in
  let shaded := fst (trace_naive_shade (Toy.wall zero3) Toy.accel Toy.one_emitter naive6 4
                       vivid 0) in
  let next := fst (trace_naive_body (Toy.wall zero3) Toy.accel Toy.one_emitter naive6 4
                     vivid 0) in
  option_map l_weight (shaded_state shaded) = Some (mk_vec3f five five five) /\
  fmin f_099 (v3max (mk_vec3f five five five)) = f_099 /\
  (forall rng : Z, fst (rand1f rng) = f_half) /\
  (f_half >=? f_099)%f = false /\
  (five / f_099)%f = S754_finite false 10591677 (-21) /\
  (five * (f1 / f_099))%f = S754_finite false 10591676 (-21) /\
  option_map l_weight (next_state next) =
    Some (mk_vec3f (five * (f1 / f_099))%f (five * (f1 / f_099))%f (five * (f1 / f_099))%f) /\
  option_map l_weight (next_state next) <>
    Some (mk_vec3f (five / f_099)%f (five / f_099)%f (five / f_099)%f).
Proof.
  intros five shaded next.
  split; [vm_compute; reflexivity |]. split; [vm_compute; reflexivity |].
  split; [reflexivity |]. split; [vm_compute; reflexivity |].
  split; [vm_compute; reflexivity |].
  split; [vm_compute; reflexivity |]. split; [vm_compute; reflexivity |].
  vm_compute. discriminate.
Qed.

End RouletteExamples.
